(** * DWARF block input format: unit decoder, scheduler and generator

    A shallow embedding of [DWARFBlockInputFormat.cpp]: the per-unit decoder
    [parseEntries] with its column builders and chunk assembly,
    [parseFilenameTable], the worker loop started by [initializeIfNeeded] and
    the consumer's [generate].

    The LLVM primitives the decoder calls (LEB128 reading, form-value
    extraction, abbreviation lookup, line-program prologue parsing) and the
    ELF image are fields of the records [DWARFContext], [DWARFUnit] and
    [ElfImage]: the decoder is a function of them, as it is in the source. *)

From Stdlib Require Import ZArith String List Bool Lia Sorted.
Import ListNotations.
Local Open Scope Z_scope.

(** ** Exceptions and results *)

(** The exceptions of the format, by error code, and the exception of
    [std::unordered_map::at] for a key the map does not have. *)
Inductive Exception : Type :=
| CANNOT_PARSE_DWARF (message : string)
| CANNOT_PARSE_ELF (message : string)
| LOGICAL_ERROR (message : string)
| std_out_of_range.

(** The outcome of a call that may throw.  [Undefined] stands for an access
    C++ leaves undefined (a null column pointer dereferenced). *)
Inductive Result (A : Type) : Type :=
| Ok (a : A)
| Throw (e : Exception)
| Undefined.
Arguments Ok {A} a.
Arguments Throw {A} e.
Arguments Undefined {A}.

Definition bind {A B : Type} (r : Result A) (k : A -> Result B) : Result B :=
  match r with
  | Ok a => k a
  | Throw e => Throw e
  | Undefined => Undefined
  end.

Notation "x <- r ;; k" := (bind r (fun x => k))
  (at level 61, r at next level, right associativity).
Notation "' pat <- r ;; k" := (bind r (fun x => match x with pat => k end))
  (at level 61, pat pattern, r at next level, right associativity).

(** ** Fixed-width integers *)

Definition UINT32_MAX : Z := 4294967295.
Definition UINT64_MAX : Z := 18446744073709551615.
Definition to_UInt32 (x : Z) : Z := x mod 2 ^ 32.
Definition to_UInt64 (x : Z) : Z := x mod 2 ^ 64.

(** ** The columns of the format *)

Inductive DwarfColumn : Type :=
| COL_OFFSET | COL_SIZE | COL_TAG | COL_UNIT_NAME | COL_UNIT_OFFSET
| COL_ANCESTOR_TAGS | COL_ANCESTOR_OFFSETS
| COL_NAME | COL_LINKAGE_NAME | COL_DECL_FILE | COL_DECL_LINE
| COL_ATTR_NAME | COL_ATTR_FORM | COL_ATTR_INT | COL_ATTR_STR.

Definition DwarfColumn_eqb (a b : DwarfColumn) : bool :=
  match a, b with
  | COL_OFFSET, COL_OFFSET | COL_SIZE, COL_SIZE | COL_TAG, COL_TAG
  | COL_UNIT_NAME, COL_UNIT_NAME | COL_UNIT_OFFSET, COL_UNIT_OFFSET
  | COL_ANCESTOR_TAGS, COL_ANCESTOR_TAGS
  | COL_ANCESTOR_OFFSETS, COL_ANCESTOR_OFFSETS
  | COL_NAME, COL_NAME | COL_LINKAGE_NAME, COL_LINKAGE_NAME
  | COL_DECL_FILE, COL_DECL_FILE | COL_DECL_LINE, COL_DECL_LINE
  | COL_ATTR_NAME, COL_ATTR_NAME | COL_ATTR_FORM, COL_ATTR_FORM
  | COL_ATTR_INT, COL_ATTR_INT | COL_ATTR_STR, COL_ATTR_STR => true
  | _, _ => false
  end.

(** [need]: the array of flags [parseEntries] fills from the header. *)
Definition Need : Type := DwarfColumn -> bool.

(** The loop over [header.getNames()] that sets [need[idx] = true]. *)
Definition need_of_header (header : list DwarfColumn) : Need :=
  fun c => existsb (DwarfColumn_eqb c) header.

(** For parallel arrays one column is nominated to populate the offsets:
    the two propagation rules at the head of [parseEntries]. *)
Definition propagate_need (need : Need) : Need :=
  fun c =>
    match c with
    | COL_ATTR_NAME =>
        if need COL_ATTR_FORM || need COL_ATTR_INT || need COL_ATTR_STR
        then true else need COL_ATTR_NAME
    | COL_ANCESTOR_TAGS =>
        if need COL_ANCESTOR_OFFSETS then true else need COL_ANCESTOR_TAGS
    | _ => need c
    end.

(** ** DWARF encodings *)

(** Attribute and tag codes the decoder compares with; the values are the
    DWARF standard's (LLVM's [Dwarf.def]). *)
Definition DW_AT_name : Z := 0x03.
Definition DW_AT_stmt_list : Z := 0x10.
Definition DW_AT_language : Z := 0x13.
Definition DW_AT_decl_file : Z := 0x3a.
Definition DW_AT_decl_line : Z := 0x3b.
Definition DW_AT_encoding : Z := 0x3e.
Definition DW_AT_call_file : Z := 0x58.
Definition DW_AT_linkage_name : Z := 0x6e.
Definition DW_TAG_compile_unit : Z := 0x11.

(** [llvm::dwarf::Form]. *)
Inductive Form : Type :=
| DW_FORM_addr | DW_FORM_block2 | DW_FORM_block4 | DW_FORM_data2
| DW_FORM_data4 | DW_FORM_data8 | DW_FORM_string | DW_FORM_block
| DW_FORM_block1 | DW_FORM_data1 | DW_FORM_flag | DW_FORM_sdata
| DW_FORM_strp | DW_FORM_udata | DW_FORM_ref_addr | DW_FORM_ref1
| DW_FORM_ref2 | DW_FORM_ref4 | DW_FORM_ref8 | DW_FORM_ref_udata
| DW_FORM_indirect | DW_FORM_sec_offset | DW_FORM_exprloc
| DW_FORM_flag_present | DW_FORM_strx | DW_FORM_addrx | DW_FORM_ref_sup4
| DW_FORM_strp_sup | DW_FORM_data16 | DW_FORM_line_strp | DW_FORM_ref_sig8
| DW_FORM_implicit_const | DW_FORM_loclistx | DW_FORM_rnglistx
| DW_FORM_ref_sup8 | DW_FORM_strx1 | DW_FORM_strx2 | DW_FORM_strx3
| DW_FORM_strx4 | DW_FORM_addrx1 | DW_FORM_addrx2 | DW_FORM_addrx3
| DW_FORM_addrx4 | DW_FORM_GNU_addr_index | DW_FORM_GNU_str_index
| DW_FORM_GNU_ref_alt | DW_FORM_GNU_strp_alt | DW_FORM_LLVM_addrx_offset
| DW_FORM_unknown (code : Z).

(** The 16-bit code stored in the [attr_form] column. *)
Definition form_code (f : Form) : Z :=
  match f with
  | DW_FORM_addr => 0x01 | DW_FORM_block2 => 0x03 | DW_FORM_block4 => 0x04
  | DW_FORM_data2 => 0x05 | DW_FORM_data4 => 0x06 | DW_FORM_data8 => 0x07
  | DW_FORM_string => 0x08 | DW_FORM_block => 0x09 | DW_FORM_block1 => 0x0a
  | DW_FORM_data1 => 0x0b | DW_FORM_flag => 0x0c | DW_FORM_sdata => 0x0d
  | DW_FORM_strp => 0x0e | DW_FORM_udata => 0x0f | DW_FORM_ref_addr => 0x10
  | DW_FORM_ref1 => 0x11 | DW_FORM_ref2 => 0x12 | DW_FORM_ref4 => 0x13
  | DW_FORM_ref8 => 0x14 | DW_FORM_ref_udata => 0x15
  | DW_FORM_indirect => 0x16 | DW_FORM_sec_offset => 0x17
  | DW_FORM_exprloc => 0x18 | DW_FORM_flag_present => 0x19
  | DW_FORM_strx => 0x1a | DW_FORM_addrx => 0x1b | DW_FORM_ref_sup4 => 0x1c
  | DW_FORM_strp_sup => 0x1d | DW_FORM_data16 => 0x1e
  | DW_FORM_line_strp => 0x1f | DW_FORM_ref_sig8 => 0x20
  | DW_FORM_implicit_const => 0x21 | DW_FORM_loclistx => 0x22
  | DW_FORM_rnglistx => 0x23 | DW_FORM_ref_sup8 => 0x24
  | DW_FORM_strx1 => 0x25 | DW_FORM_strx2 => 0x26 | DW_FORM_strx3 => 0x27
  | DW_FORM_strx4 => 0x28 | DW_FORM_addrx1 => 0x29 | DW_FORM_addrx2 => 0x2a
  | DW_FORM_addrx3 => 0x2b | DW_FORM_addrx4 => 0x2c
  | DW_FORM_GNU_addr_index => 0x1f01 | DW_FORM_GNU_str_index => 0x1f02
  | DW_FORM_GNU_ref_alt => 0x1f20 | DW_FORM_GNU_strp_alt => 0x1f21
  | DW_FORM_LLVM_addrx_offset => 0x2001
  | DW_FORM_unknown code => code
  end.

(** The groups of case labels of the [switch (val.getForm())] in
    [parseEntries], in the order of the source. *)
Inductive FormGroup : Type :=
| IntegerForm | AddressForm | BlockForm | StringForm | ReferenceForm
| DefaultForm.

Definition form_group (f : Form) : FormGroup :=
  match f with
  | DW_FORM_data2 | DW_FORM_data4 | DW_FORM_data8 | DW_FORM_data1
  | DW_FORM_sdata | DW_FORM_udata | DW_FORM_data16 | DW_FORM_flag
  | DW_FORM_flag_present | DW_FORM_loclistx | DW_FORM_rnglistx
  | DW_FORM_sec_offset | DW_FORM_implicit_const => IntegerForm
  | DW_FORM_addr | DW_FORM_addrx | DW_FORM_addrx1 | DW_FORM_addrx2
  | DW_FORM_addrx3 | DW_FORM_addrx4 | DW_FORM_GNU_addr_index
  | DW_FORM_LLVM_addrx_offset => AddressForm
  | DW_FORM_block2 | DW_FORM_block4 | DW_FORM_block | DW_FORM_block1
  | DW_FORM_exprloc => BlockForm
  | DW_FORM_string | DW_FORM_strp | DW_FORM_strx | DW_FORM_strp_sup
  | DW_FORM_line_strp | DW_FORM_strx1 | DW_FORM_strx2 | DW_FORM_strx3
  | DW_FORM_strx4 | DW_FORM_GNU_str_index | DW_FORM_GNU_strp_alt => StringForm
  | DW_FORM_ref_addr | DW_FORM_ref1 | DW_FORM_ref2 | DW_FORM_ref4
  | DW_FORM_ref8 | DW_FORM_ref_udata | DW_FORM_ref_sup4 | DW_FORM_ref_sig8
  | DW_FORM_ref_sup8 | DW_FORM_GNU_ref_alt => ReferenceForm
  | DW_FORM_indirect | DW_FORM_unknown _ => DefaultForm
  end.

(** ** What the DWARF library hands to the decoder *)

(** A form value after [extractValue], seen through the accessors the decoder
    calls.  [getAsCString] is [None] when LLVM returns an error. *)
Record DWARFFormValue : Type := mkFormValue {
  getForm : Form;
  getRawUValue : Z;
  getAsSectionOffset : option Z;
  getAsAddress : option Z;
  getAsBlock : option (list Byte.byte);
  getAsCString : option string
}.

(** One attribute of an abbreviation declaration. *)
Record AttributeSpec : Type := mkAttributeSpec {
  Attr : Z;
  Form_ : Form;
  isImplicitConst : bool;
  getImplicitConstValue : Z
}.

Record DWARFAbbreviationDeclaration : Type := mkAbbrev {
  getTag : Z;
  hasChildren : bool;
  attributes : list AttributeSpec
}.

(** The prologue of a line program: its version and file names; a name that
    fails to decode is [None]. *)
Record Prologue : Type := mkPrologue {
  getVersion : Z;
  FileNames : list (option string)
}.

(** [llvm::DWARFUnit]: header geometry and the abbreviation set
    ([None]: no abbreviation set was found). *)
Record DWARFUnit : Type := mkDWARFUnit {
  getOffset : Z;
  getHeaderSize : Z;
  getNextUnitOffset : Z;
  getAbbreviations : option (Z -> option DWARFAbbreviationDeclaration);
  tryExtractDIEsIfNeeded : option string
}.

(** The section extractors and the DWARF context.
    [getULEB128 off] is the value read and the offset after it, [None] when
    LLVM reports an error; [extractValue u form init off] likewise for one
    attribute; [prologue_parse u off] is the parsed prologue or [None] on a
    fatal error. *)
Record DWARFContext : Type := mkContext {
  getULEB128 : Z -> option (Z * Z);
  extractValue : DWARFUnit -> Form -> Z -> Z -> option (DWARFFormValue * Z);
  debug_line_extractor : bool;
  prologue_parse : DWARFUnit -> Z -> option Prologue;
  LanguageString : Z -> string;
  AttributeEncodingString : Z -> string
}.

(** Modelled from the spec: [DWARFFormValue::getAsReference] is LLVM's, not
    part of the sources.  The spec says the target offset of a reference is
    always [.debug_info]-absolute, also when the wire form is unit-relative:
    the unit-relative forms add the unit's offset, the others carry a payload
    that is absolute already; a value of another form is no reference. *)
Definition getAsReference (u : DWARFUnit) (val : DWARFFormValue) : option Z :=
  match getForm val with
  | DW_FORM_ref1 | DW_FORM_ref2 | DW_FORM_ref4 | DW_FORM_ref8
  | DW_FORM_ref_udata => Some (to_UInt64 (getOffset u + getRawUValue val))
  | DW_FORM_ref_addr | DW_FORM_ref_sig8 | DW_FORM_ref_sup4
  | DW_FORM_ref_sup8 | DW_FORM_GNU_ref_alt => Some (getRawUValue val)
  | _ => None
  end.

(** ** Unit state *)

Module StackEntry.
Record t : Type := mk { offset : Z; tag : Z }.
End StackEntry.

(** [filename_table] is a column pointer, null until the first
    [DW_AT_stmt_list]; the dictionary it points to is the list of its
    strings by index.  [stack] lists the vector from its back. *)
Record UnitState : Type := mkUnitState {
  dwarf_unit : DWARFUnit;
  abbrevs : Z -> option DWARFAbbreviationDeclaration;
  end_offset : Z;
  offset : Z;
  stack : list StackEntry.t;
  unit_name : string;
  filename_table : option (list string);
  filename_table_size : Z
}.

Definition eof (unit : UnitState) : bool := offset unit =? end_offset unit.

(** Modelled from the spec: the member initialisers of [UnitState] are in
    the header, which is not part of the sources.  The spec has the filename
    table begin null, to be built on the first [DW_AT_stmt_list]; the size
    of the table not yet built is 0. *)
Definition no_filename_table : option (list string) * Z := (None, 0).

(** [UnitState::UnitState]: the constructor; the stack and the unit name
    start empty. *)
Definition UnitState_ctor (u : DWARFUnit) : Exception + UnitState :=
  match getAbbreviations u with
  | None =>
      inl (CANNOT_PARSE_DWARF "Couldn't find abbreviation set for unit")
  | Some abbr =>
      match tryExtractDIEsIfNeeded u with
      | Some err =>
          inl (CANNOT_PARSE_DWARF "Failed to parse compilation unit entry")
      | None =>
          inr (mkUnitState u abbr (getNextUnitOffset u)
                 (to_UInt64 (getOffset u + getHeaderSize u)) [] EmptyString
                 (fst no_filename_table) (snd no_filename_table))
      end
  end.

Definition set_offset (off : Z) (unit : UnitState) : UnitState :=
  mkUnitState (dwarf_unit unit) (abbrevs unit) (end_offset unit) off
    (stack unit) (unit_name unit) (filename_table unit)
    (filename_table_size unit).

Definition set_stack (st : list StackEntry.t) (unit : UnitState) : UnitState :=
  mkUnitState (dwarf_unit unit) (abbrevs unit) (end_offset unit) (offset unit)
    st (unit_name unit) (filename_table unit) (filename_table_size unit).

Definition set_unit_name (s : string) (unit : UnitState) : UnitState :=
  mkUnitState (dwarf_unit unit) (abbrevs unit) (end_offset unit) (offset unit)
    (stack unit) s (filename_table unit) (filename_table_size unit).

Definition set_filename_table (col : list string) (unit : UnitState)
  : UnitState :=
  mkUnitState (dwarf_unit unit) (abbrevs unit) (end_offset unit) (offset unit)
    (stack unit) (unit_name unit) (Some col) (Z.of_nat (length col) - 1).

(** ** Column builders *)

(** The mutable columns [parseEntries] creates.  A vector grows at its back;
    a builder lists its vector from the back (newest value first), so
    [insertValue] is a cons and [size()] is [length]; chunk assembly puts the
    values back in row order.  [col_attr_str] holds the strings inserted
    (its per-chunk dictionary encoding is the column library's). *)
Record Builders := mkBuilders {
  col_offset : list Z;
  col_size : list Z;
  col_tag : list Z;
  col_ancestor_tags : list Z;
  col_ancestor_dwarf_offsets : list Z;
  col_ancestor_array_offsets : list Z;
  col_name : list string;
  col_linkage_name : list string;
  col_decl_file : list Z;
  col_decl_line : list Z;
  col_attr_name : list Z;
  col_attr_form : list Z;
  col_attr_int : list Z;
  col_attr_str : list string;
  col_attr_offsets : list Z
}.

Definition empty_builders : Builders :=
  mkBuilders [] [] [] [] [] [] [] [] [] [] [] [] [] [] [].

Definition push_offset (v : Z) (b : Builders) : Builders :=
  mkBuilders (v :: col_offset b) (col_size b) (col_tag b) (col_ancestor_tags b)
    (col_ancestor_dwarf_offsets b) (col_ancestor_array_offsets b) (col_name b)
    (col_linkage_name b) (col_decl_file b) (col_decl_line b) (col_attr_name b)
    (col_attr_form b) (col_attr_int b) (col_attr_str b) (col_attr_offsets b).

Definition push_size (v : Z) (b : Builders) : Builders :=
  mkBuilders (col_offset b) (v :: col_size b) (col_tag b) (col_ancestor_tags b)
    (col_ancestor_dwarf_offsets b) (col_ancestor_array_offsets b) (col_name b)
    (col_linkage_name b) (col_decl_file b) (col_decl_line b) (col_attr_name b)
    (col_attr_form b) (col_attr_int b) (col_attr_str b) (col_attr_offsets b).

Definition push_tag (v : Z) (b : Builders) : Builders :=
  mkBuilders (col_offset b) (col_size b) (v :: col_tag b) (col_ancestor_tags b)
    (col_ancestor_dwarf_offsets b) (col_ancestor_array_offsets b) (col_name b)
    (col_linkage_name b) (col_decl_file b) (col_decl_line b) (col_attr_name b)
    (col_attr_form b) (col_attr_int b) (col_attr_str b) (col_attr_offsets b).

Definition push_ancestor_tags (v : Z) (b : Builders) : Builders :=
  mkBuilders (col_offset b) (col_size b) (col_tag b) (v :: col_ancestor_tags b)
    (col_ancestor_dwarf_offsets b) (col_ancestor_array_offsets b) (col_name b)
    (col_linkage_name b) (col_decl_file b) (col_decl_line b) (col_attr_name b)
    (col_attr_form b) (col_attr_int b) (col_attr_str b) (col_attr_offsets b).

Definition push_ancestor_dwarf_offsets (v : Z) (b : Builders) : Builders :=
  mkBuilders (col_offset b) (col_size b) (col_tag b) (col_ancestor_tags b)
    (v :: col_ancestor_dwarf_offsets b) (col_ancestor_array_offsets b) (col_name b)
    (col_linkage_name b) (col_decl_file b) (col_decl_line b) (col_attr_name b)
    (col_attr_form b) (col_attr_int b) (col_attr_str b) (col_attr_offsets b).

Definition push_ancestor_array_offsets (v : Z) (b : Builders) : Builders :=
  mkBuilders (col_offset b) (col_size b) (col_tag b) (col_ancestor_tags b)
    (col_ancestor_dwarf_offsets b) (v :: col_ancestor_array_offsets b) (col_name b)
    (col_linkage_name b) (col_decl_file b) (col_decl_line b) (col_attr_name b)
    (col_attr_form b) (col_attr_int b) (col_attr_str b) (col_attr_offsets b).

Definition push_name (v : string) (b : Builders) : Builders :=
  mkBuilders (col_offset b) (col_size b) (col_tag b) (col_ancestor_tags b)
    (col_ancestor_dwarf_offsets b) (col_ancestor_array_offsets b) (v :: col_name b)
    (col_linkage_name b) (col_decl_file b) (col_decl_line b) (col_attr_name b)
    (col_attr_form b) (col_attr_int b) (col_attr_str b) (col_attr_offsets b).

Definition push_linkage_name (v : string) (b : Builders) : Builders :=
  mkBuilders (col_offset b) (col_size b) (col_tag b) (col_ancestor_tags b)
    (col_ancestor_dwarf_offsets b) (col_ancestor_array_offsets b) (col_name b)
    (v :: col_linkage_name b) (col_decl_file b) (col_decl_line b) (col_attr_name b)
    (col_attr_form b) (col_attr_int b) (col_attr_str b) (col_attr_offsets b).

Definition push_decl_file (v : Z) (b : Builders) : Builders :=
  mkBuilders (col_offset b) (col_size b) (col_tag b) (col_ancestor_tags b)
    (col_ancestor_dwarf_offsets b) (col_ancestor_array_offsets b) (col_name b)
    (col_linkage_name b) (v :: col_decl_file b) (col_decl_line b) (col_attr_name b)
    (col_attr_form b) (col_attr_int b) (col_attr_str b) (col_attr_offsets b).

Definition push_decl_line (v : Z) (b : Builders) : Builders :=
  mkBuilders (col_offset b) (col_size b) (col_tag b) (col_ancestor_tags b)
    (col_ancestor_dwarf_offsets b) (col_ancestor_array_offsets b) (col_name b)
    (col_linkage_name b) (col_decl_file b) (v :: col_decl_line b) (col_attr_name b)
    (col_attr_form b) (col_attr_int b) (col_attr_str b) (col_attr_offsets b).

Definition push_attr_name (v : Z) (b : Builders) : Builders :=
  mkBuilders (col_offset b) (col_size b) (col_tag b) (col_ancestor_tags b)
    (col_ancestor_dwarf_offsets b) (col_ancestor_array_offsets b) (col_name b)
    (col_linkage_name b) (col_decl_file b) (col_decl_line b) (v :: col_attr_name b)
    (col_attr_form b) (col_attr_int b) (col_attr_str b) (col_attr_offsets b).

Definition push_attr_form (v : Z) (b : Builders) : Builders :=
  mkBuilders (col_offset b) (col_size b) (col_tag b) (col_ancestor_tags b)
    (col_ancestor_dwarf_offsets b) (col_ancestor_array_offsets b) (col_name b)
    (col_linkage_name b) (col_decl_file b) (col_decl_line b) (col_attr_name b)
    (v :: col_attr_form b) (col_attr_int b) (col_attr_str b) (col_attr_offsets b).

Definition push_attr_int (v : Z) (b : Builders) : Builders :=
  mkBuilders (col_offset b) (col_size b) (col_tag b) (col_ancestor_tags b)
    (col_ancestor_dwarf_offsets b) (col_ancestor_array_offsets b) (col_name b)
    (col_linkage_name b) (col_decl_file b) (col_decl_line b) (col_attr_name b)
    (col_attr_form b) (v :: col_attr_int b) (col_attr_str b) (col_attr_offsets b).

Definition push_attr_str (v : string) (b : Builders) : Builders :=
  mkBuilders (col_offset b) (col_size b) (col_tag b) (col_ancestor_tags b)
    (col_ancestor_dwarf_offsets b) (col_ancestor_array_offsets b) (col_name b)
    (col_linkage_name b) (col_decl_file b) (col_decl_line b) (col_attr_name b)
    (col_attr_form b) (col_attr_int b) (v :: col_attr_str b) (col_attr_offsets b).

Definition push_attr_offsets (v : Z) (b : Builders) : Builders :=
  mkBuilders (col_offset b) (col_size b) (col_tag b) (col_ancestor_tags b)
    (col_ancestor_dwarf_offsets b) (col_ancestor_array_offsets b) (col_name b)
    (col_linkage_name b) (col_decl_file b) (col_decl_line b) (col_attr_name b)
    (col_attr_form b) (col_attr_int b) (col_attr_str b) (v :: col_attr_offsets b).

(** ** Helpers of the decoder *)

(** [removePrefix]: drop [prefix_len] characters when the string has them. *)
Definition removePrefix (s : string) (prefix_len : nat) : string :=
  if Nat.leb prefix_len (String.length s)
  then substring prefix_len (String.length s - prefix_len) s
  else s.

(** [unit.filename_table->getDataAt(idx)]: through a null pointer, or past
    the end of the dictionary, the access is undefined. *)
Definition getDataAt (table : option (list string)) (idx : Z) : Result string :=
  match table with
  | None => Undefined
  | Some col =>
      match nth_error col (Z.to_nat idx) with
      | Some s => Ok s
      | None => Undefined
      end
  end.

Definition is_null {A : Type} (p : option A) : bool :=
  match p with None => true | Some _ => false end.

(** ** parseFilenameTable *)

Definition file_name_c_str (entry : option string) : string :=
  match entry with
  | Some s => s
  | None => "<error>"
  end.

Definition parseFilenameTable (ctx : DWARFContext) (unit : UnitState)
    (off : Z) : Result UnitState :=
  if negb (debug_line_extractor ctx) then
    Throw (CANNOT_PARSE_DWARF
             "There are DW_AT_stmt_list but no .debug_line section")
  else
    match prologue_parse ctx (dwarf_unit unit) off with
    | None =>
        Throw (CANNOT_PARSE_DWARF "Failed to parse .debug_line unit prologue")
    | Some prologue =>
        let col := [EmptyString] in
        (* DWARF v5 changed file indexes from 1-based to 0-based. *)
        let col := if getVersion prologue <=? 4 then col ++ [EmptyString]
                   else col in
        let col := col ++ map file_name_c_str (FileNames prologue) in
        Ok (set_filename_table col unit)
    end.

(** ** One attribute *)

(** The four [need_*] locals of a DIE: a convenience column still to fill. *)
Record Pending : Type := mkPending {
  need_name : bool;
  need_linkage_name : bool;
  need_decl_file : bool;
  need_decl_line : bool
}.

Definition DieState : Type := (UnitState * Builders * Pending)%type.

(** First group of case labels: a 64-bit value. *)
Definition project_integer (ctx : DWARFContext) (need : Need)
    (attr : AttributeSpec) (val : DWARFFormValue) (st : DieState)
  : Result DieState :=
  let '(unit, b, p) := st in
  let raw := getRawUValue val in
  let b := if need COL_ATTR_INT then push_attr_int raw b else b in
  let '(b, p) :=
    if (Attr attr =? DW_AT_decl_line) && need_decl_line p
    then (push_decl_line (to_UInt32 raw) b,
          mkPending (need_name p) (need_linkage_name p) (need_decl_file p)
            false)
    else (b, p) in
  if ((Attr attr =? DW_AT_decl_file) || (Attr attr =? DW_AT_call_file))
     && (raw <? filename_table_size unit)
  then
    let idx := to_UInt64 (raw + 1) in
    let '(b, p) :=
      if (Attr attr =? DW_AT_decl_file) && need_decl_file p
      then (push_decl_file idx b,
            mkPending (need_name p) (need_linkage_name p) false
              (need_decl_line p))
      else (b, p) in
    if need COL_ATTR_STR then
      data <- getDataAt (filename_table unit) idx ;;
      Ok (unit, push_attr_str data b, p)
    else Ok (unit, b, p)
  else if need COL_ATTR_STR then
    if Attr attr =? DW_AT_language then
      Ok (unit,
          push_attr_str
            (removePrefix (LanguageString ctx (to_UInt32 raw)) 8) b, p)
    else if Attr attr =? DW_AT_encoding then
      Ok (unit,
          push_attr_str
            (removePrefix (AttributeEncodingString ctx (to_UInt32 raw)) 7) b,
          p)
    else Ok (unit, push_attr_str EmptyString b, p)
  else Ok (unit, b, p).

(** An address, i.e. just a 64-bit value. *)
Definition project_address (need : Need) (val : DWARFFormValue)
    (st : DieState) : Result DieState :=
  let '(unit, b, p) := st in
  let b := if need COL_ATTR_INT
           then push_attr_int (match getAsAddress val with
                               | Some a => a
                               | None => 0
                               end) b
           else b in
  let b := if need COL_ATTR_STR then push_attr_str EmptyString b else b in
  Ok (unit, b, p).

(** A byte string. *)
Definition project_block (need : Need) (val : DWARFFormValue)
    (st : DieState) : Result DieState :=
  let '(unit, b, p) := st in
  let slice := match getAsBlock val with
               | Some bytes => bytes
               | None => []
               end in
  let b := if need COL_ATTR_STR
           then push_attr_str (string_of_list_byte slice) b else b in
  let b := if need COL_ATTR_INT then push_attr_int 0 b else b in
  Ok (unit, b, p).

(** A text string. *)
Definition project_string (need : Need) (tag : Z) (attr : AttributeSpec)
    (val : DWARFFormValue) (st : DieState) : Result DieState :=
  let '(unit, b, p) := st in
  match getAsCString val with
  | None => Throw (CANNOT_PARSE_DWARF "Error parsing string attribute")
  | Some res =>
      let '(unit, b, p) :=
        if Attr attr =? DW_AT_name then
          let '(b, p) :=
            if need_name p
            then (push_name res b,
                  mkPending false (need_linkage_name p) (need_decl_file p)
                    (need_decl_line p))
            else (b, p) in
          let unit := if tag =? DW_TAG_compile_unit
                      then set_unit_name res unit else unit in
          (unit, b, p)
        else (unit, b, p) in
      let '(b, p) :=
        if (Attr attr =? DW_AT_linkage_name) && need_linkage_name p
        then (push_linkage_name res b,
              mkPending (need_name p) false (need_decl_file p)
                (need_decl_line p))
        else (b, p) in
      let b := if need COL_ATTR_STR then push_attr_str res b else b in
      let b := if need COL_ATTR_INT then push_attr_int 0 b else b in
      Ok (unit, b, p)
  end.

(** Offset of another entry in [.debug_info]. *)
Definition project_reference (need : Need) (val : DWARFFormValue)
    (st : DieState) : Result DieState :=
  let '(unit, b, p) := st in
  let b := if need COL_ATTR_INT
           then push_attr_int (match getAsReference (dwarf_unit unit) val with
                               | Some r => r
                               | None => 0
                               end) b
           else b in
  let b := if need COL_ATTR_STR then push_attr_str EmptyString b else b in
  Ok (unit, b, p).

Definition project_default (need : Need) (st : DieState) : Result DieState :=
  let '(unit, b, p) := st in
  let b := if need COL_ATTR_INT then push_attr_int 0 b else b in
  let b := if need COL_ATTR_STR then push_attr_str EmptyString b else b in
  Ok (unit, b, p).

(** The [switch (val.getForm())]. *)
Definition project_value (ctx : DWARFContext) (need : Need) (tag : Z)
    (attr : AttributeSpec) (val : DWARFFormValue) (st : DieState)
  : Result DieState :=
  match form_group (getForm val) with
  | IntegerForm => project_integer ctx need attr val st
  | AddressForm => project_address need val st
  | BlockForm => project_block need val st
  | StringForm => project_string need tag attr val st
  | ReferenceForm => project_reference need val st
  | DefaultForm => project_default need st
  end.

(** The body of the loop over [abbrev->attributes()]. *)
Definition parseAttribute (ctx : DWARFContext) (need : Need) (tag : Z)
    (attr : AttributeSpec) (st : DieState) : Result DieState :=
  let '(unit, b, p) := st in
  match extractValue ctx (dwarf_unit unit) (Form_ attr)
          (if isImplicitConst attr then getImplicitConstValue attr else 0)
          (offset unit) with
  | None => Throw (CANNOT_PARSE_DWARF "Failed to parse attribute")
  | Some (val, off) =>
      let unit := set_offset off unit in
      let b := if need COL_ATTR_NAME then push_attr_name (Attr attr) b
               else b in
      (* the declared form, not val.getForm() *)
      let b := if need COL_ATTR_FORM
               then push_attr_form (form_code (Form_ attr)) b else b in
      unit <- (if (Attr attr =? DW_AT_stmt_list)
                  && is_null (filename_table unit)
               then match getAsSectionOffset val with
                    | Some o => parseFilenameTable ctx unit o
                    | None => Ok unit
                    end
               else Ok unit) ;;
      project_value ctx need tag attr val (unit, b, p)
  end.

Fixpoint parseAttributes (ctx : DWARFContext) (need : Need) (tag : Z)
    (attrs : list AttributeSpec) (st : DieState) : Result DieState :=
  match attrs with
  | [] => Ok st
  | attr :: rest =>
      st' <- parseAttribute ctx need tag attr st ;;
      parseAttributes ctx need tag rest st'
  end.

(** ** One row *)

(** The ancestors, from the top of the stack to its bottom. *)
Definition push_ancestors (need : Need) (st : list StackEntry.t)
    (b : Builders) : Builders :=
  fold_left
    (fun b e =>
       let b := push_ancestor_tags (StackEntry.tag e) b in
       if need COL_ANCESTOR_OFFSETS
       then push_ancestor_dwarf_offsets (StackEntry.offset e) b else b)
    st b.

(** The sibling-list terminator: abbreviation code 0. *)
Definition parseNull (need : Need) (die_offset : Z) (unit : UnitState)
    (b : Builders) : Result (UnitState * Builders) :=
  let b := if need COL_SIZE
           then push_size (to_UInt32 (to_UInt64 (offset unit - die_offset))) b
           else b in
  let b := if need COL_TAG then push_tag 0 b else b in
  let b := if need COL_NAME then push_name EmptyString b else b in
  let b := if need COL_LINKAGE_NAME then push_linkage_name EmptyString b
           else b in
  let b := if need COL_DECL_FILE then push_decl_file 0 b else b in
  let b := if need COL_DECL_LINE then push_decl_line 0 b else b in
  let b := if need COL_ATTR_NAME
           then push_attr_offsets (Z.of_nat (length (col_attr_name b))) b
           else b in
  match stack unit with
  | [] => Throw (CANNOT_PARSE_DWARF "Stack underflow")
  | _ :: rest => Ok (set_stack rest unit, b)
  end.

(** A DIE with an abbreviation. *)
Definition parseDIE (ctx : DWARFContext) (need : Need) (die_offset : Z)
    (abbrev_code : Z) (unit : UnitState) (b : Builders)
  : Result (UnitState * Builders) :=
  match abbrevs unit (to_UInt32 abbrev_code) with
  | None =>
      Throw (CANNOT_PARSE_DWARF "Abbrev code in DIE header is out of bounds")
  | Some abbrev =>
      if abbrev_code >? UINT32_MAX then
        Throw (CANNOT_PARSE_DWARF "Abbrev code in DIE header is out of bounds")
      else
        let tag := getTag abbrev in
        let b := if need COL_TAG then push_tag tag b else b in
        let p := mkPending (need COL_NAME) (need COL_LINKAGE_NAME)
                   (need COL_DECL_FILE) (need COL_DECL_LINE) in
        ' (unit, b, p) <-
            parseAttributes ctx need tag (attributes abbrev) (unit, b, p) ;;
        let b := if need COL_SIZE
                 then push_size
                        (to_UInt32 (to_UInt64 (offset unit - die_offset))) b
                 else b in
        let b := if need COL_ATTR_NAME
                 then push_attr_offsets (Z.of_nat (length (col_attr_name b))) b
                 else b in
        let b := if need_name p then push_name EmptyString b else b in
        let b := if need_linkage_name p then push_linkage_name EmptyString b
                 else b in
        let b := if need_decl_file p then push_decl_file 0 b else b in
        let b := if need_decl_line p then push_decl_line 0 b else b in
        let unit := if hasChildren abbrev
                    then set_stack (StackEntry.mk die_offset tag :: stack unit)
                           unit
                    else unit in
        Ok (unit, b)
  end.

(** The body of the [while] loop up to the test of the stack. *)
Definition parseEntry (ctx : DWARFContext) (need : Need) (unit : UnitState)
    (b : Builders) : Result (UnitState * Builders) :=
  let die_offset := offset unit in
  let b := if need COL_OFFSET then push_offset die_offset b else b in
  let b := if need COL_ANCESTOR_TAGS then
             let b := push_ancestors need (stack unit) b in
             push_ancestor_array_offsets
               (Z.of_nat (length (col_ancestor_tags b))) b
           else b in
  match getULEB128 ctx (offset unit) with
  | None => Throw (CANNOT_PARSE_DWARF "Failed to parse DIE header")
  | Some (abbrev_code, off) =>
      let unit := set_offset off unit in
      if abbrev_code =? 0 then parseNull need die_offset unit b
      else parseDIE ctx need die_offset abbrev_code unit b
  end.

(** ** The loop *)

Definition MAX_ROWS : nat := Z.to_nat 65536.

(** [while (num_rows < 65536)]: [fuel] is [65536 - num_rows]. *)
Fixpoint parse_rows (ctx : DWARFContext) (need : Need) (fuel : nat)
    (num_rows : nat) (unit : UnitState) (b : Builders)
  : Result (nat * UnitState * Builders) :=
  match fuel with
  | O => Ok (num_rows, unit, b)
  | S fuel' =>
      let num_rows := S num_rows in
      ' (unit, b) <- parseEntry ctx need unit b ;;
      match stack unit with
      | [] =>
          if eof unit then Ok (num_rows, unit, b)
          else Throw (CANNOT_PARSE_DWARF "Unexpected end of DIE tree")
      | _ :: _ => parse_rows ctx need fuel' num_rows unit b
      end
  end.

(** ** Chunk assembly *)

(** A dictionary column: one of the three registry dictionaries of the
    format instance, or a dictionary built for the chunk. *)
Inductive Dictionary : Type :=
| tag_dict_column
| attr_name_dict_column
| attr_form_dict_column
| StringDictionary (strings : list string)
| UInt64Dictionary (values : list Z).

(** An immutable column of a chunk, values in row order.  The dictionary of
    a low-cardinality column is the column pointer handed to
    [ColumnLowCardinality::create]; [None] is the null pointer, which no
    column that [create] returns holds.
    [ColumnLowCardinalityOwn] is [col_attr_str], by value. *)
Inductive Column : Type :=
| ColumnVector (data : list Z)
| ColumnString (data : list string)
| ColumnLowCardinality (dictionary : option Dictionary) (indexes : list Z)
| ColumnLowCardinalityOwn (values : list string)
| ColumnArray (nested : Column) (offsets : list Z).

Record Chunk : Type := mkChunk {
  getColumns : list Column;
  getNumRows : nat
}.

(** A builder lists its vector from the back; the column of the chunk has
    the values in row order. *)
Definition in_row_order {A : Type} (builder : list A) : list A :=
  rev_append builder [].

(** [ColumnLowCardinality::create(column_unique, indexes, is_shared)]: the
    new column reads the dictionary it is given; through the null pointer
    that access is undefined. *)
Definition ColumnLowCardinality_create (column_unique : option Dictionary)
    (indexes : list Z) : Result Column :=
  match column_unique with
  | None => Undefined
  | Some dictionary => Ok (ColumnLowCardinality (Some dictionary) indexes)
  end.

(** One case of the [switch] of chunk assembly.  The registry dictionaries
    and the dictionaries built on the spot are never null;
    [unit.filename_table] is null until [parseFilenameTable] has run.  The
    [default] branch, a [LOGICAL_ERROR], has no column index to take. *)
Definition assemble_column (unit : UnitState) (b : Builders) (num_rows : nat)
    (c : DwarfColumn) : Result Column :=
  let immutable_attr_offsets := in_row_order (col_attr_offsets b) in
  let immutable_ancestor_array_offsets :=
    in_row_order (col_ancestor_array_offsets b) in
  match c with
  | COL_OFFSET => Ok (ColumnVector (in_row_order (col_offset b)))
  | COL_SIZE => Ok (ColumnVector (in_row_order (col_size b)))
  | COL_TAG =>
      ColumnLowCardinality_create (Some tag_dict_column)
        (in_row_order (col_tag b))
  | COL_UNIT_NAME =>
      ColumnLowCardinality_create
        (Some (StringDictionary [EmptyString; unit_name unit]))
        (repeat 1 num_rows)
  | COL_UNIT_OFFSET =>
      ColumnLowCardinality_create
        (Some (UInt64Dictionary [0; getOffset (dwarf_unit unit)]))
        (repeat 1 num_rows)
  | COL_ANCESTOR_TAGS =>
      nested <- ColumnLowCardinality_create (Some tag_dict_column)
                  (in_row_order (col_ancestor_tags b)) ;;
      Ok (ColumnArray nested immutable_ancestor_array_offsets)
  | COL_ANCESTOR_OFFSETS =>
      Ok (ColumnArray
            (ColumnVector (in_row_order (col_ancestor_dwarf_offsets b)))
            immutable_ancestor_array_offsets)
  | COL_NAME => Ok (ColumnString (in_row_order (col_name b)))
  | COL_LINKAGE_NAME => Ok (ColumnString (in_row_order (col_linkage_name b)))
  | COL_DECL_FILE =>
      ColumnLowCardinality_create
        (option_map StringDictionary (filename_table unit))
        (in_row_order (col_decl_file b))
  | COL_DECL_LINE => Ok (ColumnVector (in_row_order (col_decl_line b)))
  | COL_ATTR_NAME =>
      nested <- ColumnLowCardinality_create (Some attr_name_dict_column)
                  (in_row_order (col_attr_name b)) ;;
      Ok (ColumnArray nested immutable_attr_offsets)
  | COL_ATTR_FORM =>
      nested <- ColumnLowCardinality_create (Some attr_form_dict_column)
                  (in_row_order (col_attr_form b)) ;;
      Ok (ColumnArray nested immutable_attr_offsets)
  | COL_ATTR_INT =>
      Ok (ColumnArray (ColumnVector (in_row_order (col_attr_int b)))
            immutable_attr_offsets)
  | COL_ATTR_STR =>
      Ok (ColumnArray (ColumnLowCardinalityOwn (in_row_order (col_attr_str b)))
            immutable_attr_offsets)
  end.

(** The loop over [header.getNames()] that fills [cols]. *)
Fixpoint assemble_columns (unit : UnitState) (b : Builders) (num_rows : nat)
    (header : list DwarfColumn) : Result (list Column) :=
  match header with
  | [] => Ok []
  | c :: rest =>
      col <- assemble_column unit b num_rows c ;;
      cols <- assemble_columns unit b num_rows rest ;;
      Ok (col :: cols)
  end.

(** ** parseEntries *)

(** The call for a header whose names are resolved to their columns, which
    is what the loop that fills [need] and the [switch] of chunk assembly
    work on.  The lookups [column_name_to_idx.at(name)] themselves are in
    [parseEntries_of_names] below. *)
Definition parseEntries (ctx : DWARFContext) (header : list DwarfColumn)
    (unit : UnitState) : Result (Chunk * UnitState) :=
  let need := propagate_need (need_of_header header) in
  ' (num_rows, unit, b) <-
      parse_rows ctx need MAX_ROWS 0%nat unit empty_builders ;;
  cols <- assemble_columns unit b num_rows header ;;
  Ok (mkChunk cols num_rows, unit).

(** ** Reading a chunk *)

(** The column of the chunk that answers header entry [c]. *)
Fixpoint column_of (header : list DwarfColumn) (cols : list Column)
    (c : DwarfColumn) : option Column :=
  match header, cols with
  | h :: header', col :: cols' =>
      if DwarfColumn_eqb c h then Some col else column_of header' cols' c
  | _, _ => None
  end.

(** The string a dictionary index of a low-cardinality string column
    denotes; there is none without a dictionary. *)
Definition dictionary_string (dictionary : option Dictionary) (idx : Z)
  : option string :=
  match dictionary with
  | Some (StringDictionary strings) => nth_error strings (Z.to_nat idx)
  | _ => None
  end.

(** Row [i] of an array column: the values between the offsets [i - 1] and
    [i] of its offsets vector. *)
Definition array_row {A : Type} (values : list A) (offsets : list Z)
    (i : nat) : list A :=
  let start := match i with
               | O => 0%nat
               | S j => Z.to_nat (nth j offsets 0)
               end in
  let stop := Z.to_nat (nth i offsets 0) in
  firstn (stop - start) (skipn start values).

(** ** The scheduler *)

(** The ELF image behind the input buffer: whether the two required
    sections are found, the units of [.debug_info] and the DWARF context
    built over the sections.  The image is one the ELF loader opens. *)
Record ElfImage : Type := mkElfImage {
  debug_info_section : bool;
  debug_abbrev_section : bool;
  info_section_units : list DWARFUnit;
  dwarf_context : DWARFContext
}.

(** What a format instance is constructed with. *)
Record Format : Type := mkFormat {
  in_ : ElfImage;
  header : list DwarfColumn;
  num_threads : nat
}.

(** Where a thread of the pool is: not yet at its [lock], decoding a unit
    with the mutex released, blocked in [wake_up_threads.wait], or past the
    end of its function. *)
Inductive Worker : Type :=
| NotStarted
| Decoding (unit : UnitState)
| Waiting
| Exited.

(** The members of the format instance the mutex guards, and the pool. *)
Record Scheduler : Type := mkScheduler {
  elf : option ElfImage;
  units_queue : list UnitState;
  delivery_queue : list (Chunk * Z);
  units_in_progress : Z;
  is_stopped : bool;
  background_exception : option Exception;
  approx_bytes_read_for_chunk : Z;
  pool : list Worker
}.

Definition new_scheduler : Scheduler :=
  mkScheduler None [] [] 0 false None 0 [].

Definition set_elf (e : option ElfImage) (s : Scheduler) : Scheduler :=
  mkScheduler e (units_queue s) (delivery_queue s) (units_in_progress s)
    (is_stopped s) (background_exception s) (approx_bytes_read_for_chunk s)
    (pool s).

Definition set_units_queue (q : list UnitState) (s : Scheduler) : Scheduler :=
  mkScheduler (elf s) q (delivery_queue s) (units_in_progress s)
    (is_stopped s) (background_exception s) (approx_bytes_read_for_chunk s)
    (pool s).

Definition set_delivery_queue (q : list (Chunk * Z)) (s : Scheduler)
  : Scheduler :=
  mkScheduler (elf s) (units_queue s) q (units_in_progress s)
    (is_stopped s) (background_exception s) (approx_bytes_read_for_chunk s)
    (pool s).

Definition set_units_in_progress (n : Z) (s : Scheduler) : Scheduler :=
  mkScheduler (elf s) (units_queue s) (delivery_queue s) n
    (is_stopped s) (background_exception s) (approx_bytes_read_for_chunk s)
    (pool s).

Definition set_is_stopped (v : bool) (s : Scheduler) : Scheduler :=
  mkScheduler (elf s) (units_queue s) (delivery_queue s) (units_in_progress s)
    v (background_exception s) (approx_bytes_read_for_chunk s) (pool s).

Definition set_background_exception (e : option Exception) (s : Scheduler)
  : Scheduler :=
  mkScheduler (elf s) (units_queue s) (delivery_queue s) (units_in_progress s)
    (is_stopped s) e (approx_bytes_read_for_chunk s) (pool s).

Definition set_approx_bytes_read_for_chunk (n : Z) (s : Scheduler)
  : Scheduler :=
  mkScheduler (elf s) (units_queue s) (delivery_queue s) (units_in_progress s)
    (is_stopped s) (background_exception s) n (pool s).

Definition set_pool (p : list Worker) (s : Scheduler) : Scheduler :=
  mkScheduler (elf s) (units_queue s) (delivery_queue s) (units_in_progress s)
    (is_stopped s) (background_exception s) (approx_bytes_read_for_chunk s) p.

(** Modelled from the spec: [Chunk]'s conversion to [bool] is the column
    library's; the spec's "non-empty chunk" is a chunk that has rows. *)
Definition chunk_nonempty (chunk : Chunk) : bool :=
  negb (Nat.eqb (getNumRows chunk) 0).

Definition empty {A : Type} (q : list A) : bool :=
  match q with [] => true | _ :: _ => false end.

(** *** initializeIfNeeded *)

(** The loop that constructs one [UnitState] per unit at the back of
    [units_queue]; a constructor that throws leaves the queue as it is. *)
Fixpoint enqueue_units (units : list DWARFUnit) (s : Scheduler)
  : option Exception * Scheduler :=
  match units with
  | [] => (None, s)
  | u :: rest =>
      match UnitState_ctor u with
      | inl e => (Some e, s)
      | inr unit =>
          enqueue_units rest (set_units_queue (units_queue s ++ [unit]) s)
      end
  end.

(** [initializeIfNeeded]: the exception it throws, if any, and the members
    as it leaves them. *)
Definition initializeIfNeeded (fmt : Format) (s : Scheduler)
  : option Exception * Scheduler :=
  match elf s with
  | Some _ => (None, s)
  | None =>
      let s := set_elf (Some (in_ fmt)) s in
      if is_stopped s then (None, s)
      else if negb (debug_info_section (in_ fmt)) then
        (Some (CANNOT_PARSE_ELF "No .debug_info section"), s)
      else if negb (debug_abbrev_section (in_ fmt)) then
        (Some (CANNOT_PARSE_ELF "No .debug_abbrev section"), s)
      else
        match enqueue_units (info_section_units (in_ fmt)) s with
        | (Some e, s) => (Some e, s)
        | (None, s) => (None, set_pool (repeat NotStarted (num_threads fmt)) s)
        end
  end.

(** *** The worker *)

(** The head of the worker's [while] loop, run with the mutex held: leave
    the loop, wait on [wake_up_threads], or take the front unit. *)
Definition worker_loop (fmt : Format) (s : Scheduler) : Worker * Scheduler :=
  match units_queue s with
  | [] => (Exited, s)
  | unit :: rest =>
      if is_stopped s then (Exited, s)
      else if (num_threads fmt <? length (delivery_queue s))%nat
      then (Waiting, s)
      else (Decoding unit,
            set_units_in_progress (units_in_progress s + 1)
              (set_units_queue rest s))
  end.

(** After [lock.lock()]: the count goes down, the chunk is delivered, the
    unit returns to the front of the queue when it is not at its end. *)
Definition publish (chunk : Chunk) (offset_before : Z) (unit : UnitState)
    (s : Scheduler) : Scheduler :=
  let offset_after := offset unit in
  let s := set_units_in_progress (units_in_progress s - 1) s in
  let s := if chunk_nonempty chunk
           then set_delivery_queue
                  (delivery_queue s
                   ++ [(chunk, to_UInt64 (offset_after - offset_before))]) s
           else s in
  if negb (eof unit) then set_units_queue (unit :: units_queue s) s else s.

(** One turn of a worker under the mutex: from its start or from a wait
    (a wait may end at any time) it runs the loop head; from decoding it
    publishes and runs the loop head, or stores the exception and ends. *)
Definition worker_step (fmt : Format) (w : Worker) (s : Scheduler)
  : option (Worker * Scheduler) :=
  match w with
  | NotStarted | Waiting => Some (worker_loop fmt s)
  | Decoding unit =>
      match parseEntries (dwarf_context (in_ fmt)) (header fmt) unit with
      | Ok (chunk, unit') =>
          Some (worker_loop fmt (publish chunk (offset unit) unit' s))
      | Throw e => Some (Exited, set_background_exception (Some e) s)
      | Undefined => None
      end
  | Exited => None
  end.

Fixpoint replace_nth {A : Type} (i : nat) (x : A) (l : list A) : list A :=
  match l, i with
  | [], _ => []
  | _ :: t, O => x :: t
  | h :: t, S j => h :: replace_nth j x t
  end.

(** *** generate *)

Inductive GenerateResult : Type :=
| ReturnChunk (chunk : Chunk)
| EndOfStream
| Throws (e : Exception)
| Blocked.

(** The scope guard of [generate]. *)
Definition scope_exit (ok : bool) (s : Scheduler) : Scheduler :=
  if ok then s else set_is_stopped true s.

(** The loop of [generate], with the mutex held and the guard armed.
    [Blocked] is the consumer inside [deliver_chunk.wait]: the function has
    not returned and the loop runs again once the wait ends. *)
Definition generate_loop (s : Scheduler) : GenerateResult * Scheduler :=
  if is_stopped s then (EndOfStream, scope_exit false s)
  else
    match background_exception s with
    | Some e => (Throws e, scope_exit false s)
    | None =>
        match delivery_queue s with
        | (chunk, bytes) :: rest =>
            (ReturnChunk chunk,
             scope_exit true
               (set_delivery_queue rest
                  (set_approx_bytes_read_for_chunk bytes s)))
        | [] =>
            if empty (units_queue s) && (units_in_progress s =? 0)
            then (EndOfStream, scope_exit false s)
            else (Blocked, s)
        end
    end.

(** [generate]: initialisation comes before the guard is declared. *)
Definition generate (fmt : Format) (s : Scheduler)
  : GenerateResult * Scheduler :=
  match initializeIfNeeded fmt s with
  | (Some e, s) => (Throws e, s)
  | (None, s) => generate_loop s
  end.

(** *** Interleavings *)

(** The atomic turns of a run: worker [i] takes the mutex, or the consumer
    calls [generate] (or, blocked in it, runs its loop again). *)
Inductive Action : Type :=
| WorkerTurn (i : nat)
| ConsumerTurn.

Definition exec (fmt : Format) (a : Action) (s : Scheduler)
  : option Scheduler :=
  match a with
  | WorkerTurn i =>
      match nth_error (pool s) i with
      | None => None
      | Some w =>
          match worker_step fmt w s with
          | None => None
          | Some (w', s') => Some (set_pool (replace_nth i w' (pool s')) s')
          end
      end
  | ConsumerTurn => Some (snd (generate fmt s))
  end.

Fixpoint run (fmt : Format) (trace : list Action) (s : Scheduler)
  : option Scheduler :=
  match trace with
  | [] => Some s
  | a :: rest =>
      match exec fmt a s with
      | None => None
      | Some s' => run fmt rest s'
      end
  end.

(** The states a format instance can be in. *)
Definition reachable (fmt : Format) (s : Scheduler) : Prop :=
  exists trace, run fmt trace new_scheduler = Some s.

Definition is_decoding (w : Worker) : bool :=
  match w with
  | Decoding _ => true
  | _ => false
  end.

(** The threads that hold a unit. *)
Definition count_decoding (p : list Worker) : nat :=
  length (filter is_decoding p).

(** ** Stopping and resetting *)

(** A trace of turns of the workers only. *)
Definition worker_turns (trace : list Action) : bool :=
  forallb (fun a => match a with
                    | WorkerTurn _ => true
                    | ConsumerTurn => false
                    end) trace.

Definition has_exited (w : Worker) : bool :=
  match w with
  | Exited => true
  | _ => false
  end.

(** [pool->wait()]: the threads take the mutex in the order of [trace]
    until each has left its function; a trace that leaves a thread inside
    is not one the call returns from. *)
Definition wait (fmt : Format) (trace : list Action) (s : Scheduler)
  : option Scheduler :=
  if worker_turns trace then
    match run fmt trace s with
    | Some s' => if forallb has_exited (pool s') then Some s' else None
    | None => None
    end
  else None.

(** [stopThreads]: the flag goes up under the mutex, the waiting threads
    are woken and the pool is joined. *)
Definition stopThreads (fmt : Format) (trace : list Action) (s : Scheduler)
  : option Scheduler :=
  wait fmt trace (set_is_stopped true s).

(** [resetParser], up to the call of the base class. *)
Definition resetParser (fmt : Format) (trace : list Action) (s : Scheduler)
  : option Scheduler :=
  match stopThreads fmt trace s with
  | None => None
  | Some s =>
      let s := set_pool [] s in
      let s := set_background_exception None s in
      let s := set_is_stopped false s in
      let s := set_units_queue [] s in
      let s := set_delivery_queue [] s in
      let s := set_units_in_progress 0 s in
      Some (set_elf None s)
  end.

(** ** The schema *)

(** The data types of the columns. *)
Inductive DataType : Type :=
| DataTypeUInt32
| DataTypeUInt64
| DataTypeString
| DataTypeLowCardinality (dictionary_type : DataType)
| DataTypeArray (nested : DataType).

(** The value of an enumerator of [DwarfColumn]. *)
Definition column_index (c : DwarfColumn) : nat :=
  match c with
  | COL_OFFSET => 0
  | COL_SIZE => 1
  | COL_TAG => 2
  | COL_UNIT_NAME => 3
  | COL_UNIT_OFFSET => 4
  | COL_ANCESTOR_TAGS => 5
  | COL_ANCESTOR_OFFSETS => 6
  | COL_NAME => 7
  | COL_LINKAGE_NAME => 8
  | COL_DECL_FILE => 9
  | COL_DECL_LINE => 10
  | COL_ATTR_NAME => 11
  | COL_ATTR_FORM => 12
  | COL_ATTR_INT => 13
  | COL_ATTR_STR => 14
  end.

Definition COL_COUNT : nat := 15.

(** A name and a type; the type of a pair constructed by default is null. *)
Definition NameAndTypePair : Type := (string * option DataType)%type.

(** [cols[c] = {name, type}]. *)
Definition set_column (c : DwarfColumn) (name : string) (type : DataType)
    (cols : list NameAndTypePair) : list NameAndTypePair :=
  replace_nth (column_index c) (name, Some type) cols.

(** [getHeaderForDWARF]: a vector of [COL_COUNT] pairs, assigned one by
    one at the index of an enumerator. *)
Definition getHeaderForDWARF : list NameAndTypePair :=
  let cols := repeat (EmptyString, None) COL_COUNT in
  let cols := set_column COL_OFFSET "offset" DataTypeUInt64 cols in
  let cols := set_column COL_SIZE "size" DataTypeUInt32 cols in
  let cols := set_column COL_TAG "tag"
                (DataTypeLowCardinality DataTypeString) cols in
  let cols := set_column COL_UNIT_NAME "unit_name"
                (DataTypeLowCardinality DataTypeString) cols in
  let cols := set_column COL_UNIT_OFFSET "unit_offset"
                (DataTypeLowCardinality DataTypeUInt64) cols in
  let cols := set_column COL_ANCESTOR_TAGS "ancestor_tags"
                (DataTypeArray (DataTypeLowCardinality DataTypeString))
                cols in
  let cols := set_column COL_ANCESTOR_OFFSETS "ancestor_offsets"
                (DataTypeArray DataTypeUInt64) cols in
  let cols := set_column COL_NAME "name" DataTypeString cols in
  let cols := set_column COL_LINKAGE_NAME "linkage_name" DataTypeString
                cols in
  let cols := set_column COL_DECL_FILE "decl_file"
                (DataTypeLowCardinality DataTypeString) cols in
  let cols := set_column COL_DECL_LINE "decl_line" DataTypeUInt32 cols in
  let cols := set_column COL_ATTR_NAME "attr_name"
                (DataTypeArray (DataTypeLowCardinality DataTypeString))
                cols in
  let cols := set_column COL_ATTR_FORM "attr_form"
                (DataTypeArray (DataTypeLowCardinality DataTypeString))
                cols in
  let cols := set_column COL_ATTR_INT "attr_int"
                (DataTypeArray DataTypeUInt64) cols in
  let cols := set_column COL_ATTR_STR "attr_str"
                (DataTypeArray (DataTypeLowCardinality DataTypeString))
                cols in
  cols.

(** [std::unordered_map<std::string, size_t>] as the list of its pairs;
    [at] of a name the map does not have throws. *)
Fixpoint at_ (map : list (string * nat)) (name : string) : option nat :=
  match map with
  | [] => None
  | (key, idx) :: rest =>
      if String.eqb name key then Some idx else at_ rest name
  end.

(** [emplace] inserts nothing where the key is present already. *)
Definition emplace (name : string) (idx : nat) (map : list (string * nat))
  : list (string * nat) :=
  match at_ map name with
  | Some _ => map
  | None => map ++ [(name, idx)]
  end.

(** The loop of [getColumnNameToIdx]. *)
Fixpoint fill_name_to_idx (cols : list NameAndTypePair) (i : nat)
    (map : list (string * nat)) : list (string * nat) :=
  match cols with
  | [] => map
  | c :: rest => fill_name_to_idx rest (S i) (emplace (fst c) i map)
  end.

Definition getColumnNameToIdx : list (string * nat) :=
  fill_name_to_idx getHeaderForDWARF 0 [].

(** The name of a column in the header. *)
Definition column_name (c : DwarfColumn) : string :=
  fst (nth (column_index c) getHeaderForDWARF (EmptyString, None)).

(** The header of a query, by names, and the flags [parseEntries] sets
    from it: [need[column_name_to_idx.at(name)] = true]; a name the map
    does not have makes [at] throw. *)
Fixpoint need_of_names (names : list string) : option (list nat) :=
  match names with
  | [] => Some []
  | name :: rest =>
      match at_ getColumnNameToIdx name, need_of_names rest with
      | Some idx, Some idxs => Some (idx :: idxs)
      | _, _ => None
      end
  end.

(** The enumerator with a given value. *)
Definition column_of_index (idx : nat) : option DwarfColumn :=
  match idx with
  | 0 => Some COL_OFFSET
  | 1 => Some COL_SIZE
  | 2 => Some COL_TAG
  | 3 => Some COL_UNIT_NAME
  | 4 => Some COL_UNIT_OFFSET
  | 5 => Some COL_ANCESTOR_TAGS
  | 6 => Some COL_ANCESTOR_OFFSETS
  | 7 => Some COL_NAME
  | 8 => Some COL_LINKAGE_NAME
  | 9 => Some COL_DECL_FILE
  | 10 => Some COL_DECL_LINE
  | 11 => Some COL_ATTR_NAME
  | 12 => Some COL_ATTR_FORM
  | 13 => Some COL_ATTR_INT
  | 14 => Some COL_ATTR_STR
  | _ => None
  end%nat.

Fixpoint header_of_indexes (idxs : list nat) : option (list DwarfColumn) :=
  match idxs with
  | [] => Some []
  | idx :: rest =>
      match column_of_index idx, header_of_indexes rest with
      | Some c, Some header => Some (c :: header)
      | _, _ => None
      end
  end.

(** [parseEntries] from the names of the header.  The first thing the call
    does is the loop [need[column_name_to_idx.at(name)] = true]: a name the
    map does not have makes [at] throw [std::out_of_range] before a row is
    read, and an index past the array would be written out of bounds.  The
    same lookups in chunk assembly then find every name. *)
Definition parseEntries_of_names (ctx : DWARFContext) (names : list string)
    (unit : UnitState) : Result (Chunk * UnitState) :=
  match need_of_names names with
  | None => Throw std_out_of_range
  | Some idxs =>
      match header_of_indexes idxs with
      | None => Undefined
      | Some header => parseEntries ctx header unit
      end
  end.

(** ** The registry dictionaries *)

Definition UINT16_MAX : Z := 65535.

(** One loop of the constructor: for each code from 0 to [UINT16_MAX], in
    order, the name LLVM gives the code, without its prefix. *)
Definition registry_names (name_of : Z -> string) (prefix_len : nat)
  : list string :=
  map (fun code => removePrefix (name_of (Z.of_nat code)) prefix_len)
    (seq 0 (S (Z.to_nat UINT16_MAX))).

(** ** Vocabulary of the statements *)

(** The spec's words, for comparison with the [switch]: the [attr_int]
    projection of the spec's table of form classes is the raw
    value for the integer forms, the resolved address (0 if none) for the
    address forms, the absolute target for the references (0 if none), the
    default for blocks, strings and anything else. *)
Definition spec_attr_int (u : DWARFUnit) (val : DWARFFormValue) : Z :=
  match form_group (getForm val) with
  | IntegerForm => getRawUValue val
  | AddressForm => match getAsAddress val with Some a => a | None => 0 end
  | ReferenceForm =>
      match getAsReference u val with Some r => r | None => 0 end
  | BlockForm | StringForm | DefaultForm => 0
  end.

(** The spec's words again: the [attr_str] projection of the table is the
    bytes of a block, the C string of a string, and the default for
    addresses, references and anything else; for the integer forms it is
    the entry [raw + 1] (a 64-bit sum) of the filename table for
    [DW_AT_decl_file] and [DW_AT_call_file] with [raw] below the size of the
    table, the stripped name of the language or of the encoding for
    [DW_AT_language] and [DW_AT_encoding], and the default otherwise. *)
Definition spec_attr_str (ctx : DWARFContext) (unit : UnitState)
    (attr : AttributeSpec) (val : DWARFFormValue) : string :=
  match form_group (getForm val) with
  | IntegerForm =>
      let raw := getRawUValue val in
      if ((Attr attr =? DW_AT_decl_file) || (Attr attr =? DW_AT_call_file))
         && (raw <? filename_table_size unit)
      then match filename_table unit with
           | Some table =>
               nth (Z.to_nat (to_UInt64 (raw + 1))) table EmptyString
           | None => EmptyString
           end
      else if Attr attr =? DW_AT_language
      then removePrefix (LanguageString ctx (to_UInt32 raw)) 8
      else if Attr attr =? DW_AT_encoding
      then removePrefix (AttributeEncodingString ctx (to_UInt32 raw)) 7
      else EmptyString
  | BlockForm =>
      string_of_list_byte (match getAsBlock val with
                           | Some bytes => bytes
                           | None => []
                           end)
  | StringForm =>
      match getAsCString val with
      | Some res => res
      | None => EmptyString
      end
  | AddressForm | ReferenceForm | DefaultForm => EmptyString
  end.

(** The forms whose payload is relative to the unit. *)
Definition unit_relative (f : Form) : bool :=
  match f with
  | DW_FORM_ref1 | DW_FORM_ref2 | DW_FORM_ref4 | DW_FORM_ref8
  | DW_FORM_ref_udata => true
  | _ => false
  end.

(** The extractors move forward: a LEB128 takes at least one byte, and no
    attribute moves the cursor back. *)
Definition advances (ctx : DWARFContext) : Prop :=
  (forall off v off', getULEB128 ctx off = Some (v, off') -> off < off') /\
  (forall u f init off val off',
      extractValue ctx u f init off = Some (val, off') -> off <= off').

(** The raw value of a form value is an unsigned 64-bit integer. *)
Definition unsigned_values (ctx : DWARFContext) : Prop :=
  forall u f init off val off',
    extractValue ctx u f init off = Some (val, off') ->
    0 <= getRawUValue val < 2 ^ 64.

(** No abbreviation of the unit declares [DW_AT_stmt_list]. *)
Definition no_stmt_list (unit : UnitState) : Prop :=
  forall code abbrev,
    abbrevs unit code = Some abbrev ->
    Forall (fun attr => Attr attr <> DW_AT_stmt_list) (attributes abbrev).

(** The numbers of a vector column. *)
Definition column_data (c : Column) : list Z :=
  match c with
  | ColumnVector data => data
  | _ => []
  end.

(** A value of a nested column, whatever its type. *)
Inductive Cell : Type :=
| IntCell (z : Z)
| StringCell (s : string).

Definition column_cells (c : Column) : list Cell :=
  match c with
  | ColumnVector data => map IntCell data
  | ColumnString data => map StringCell data
  | ColumnLowCardinality _ indexes => map IntCell indexes
  | ColumnLowCardinalityOwn values => map StringCell values
  | ColumnArray _ offsets => map IntCell offsets
  end.

(** The inner length of row [i] of an array column with these offsets. *)
Definition inner_length (offsets : list Z) (i : nat) : Z :=
  nth i offsets 0 - match i with O => 0 | S j => nth j offsets 0 end.

(** The sum of a column of numbers. *)
Definition sum (l : list Z) : Z := fold_right Z.add 0 l.

(** The distance from each offset of a column to the next one, the last
    row's to [next]: the cursor behind the last row. *)
Fixpoint gaps (offsets : list Z) (next : Z) : list Z :=
  match offsets with
  | [] => []
  | o :: rest =>
      (match rest with [] => next | o' :: _ => o' end - o) :: gaps rest next
  end.

(** The data of column [c] of a chunk ([[]] when it was not requested). *)
Definition chunk_column (header : list DwarfColumn) (chunk : Chunk)
    (c : DwarfColumn) : list Z :=
  match column_of header (getColumns chunk) c with
  | Some col => column_data col
  | None => []
  end.

(** A worker decoding a unit to its end: [parseEntries] again and again
    until [eof], as the unit goes back to the queue between two chunks. *)
Fixpoint decode_unit (ctx : DWARFContext) (header : list DwarfColumn)
    (fuel : nat) (unit : UnitState) : option (list Chunk * UnitState) :=
  match fuel with
  | O => None
  | S fuel' =>
      match parseEntries ctx header unit with
      | Ok (chunk, unit') =>
          if eof unit' then Some ([chunk], unit')
          else
            match decode_unit ctx header fuel' unit' with
            | Some (chunks, last) => Some (chunk :: chunks, last)
            | None => None
            end
      | _ => None
      end
  end.

(** ** Sample inputs *)

Fixpoint lookup {A : Type} (table : list (Z * A)) (k : Z) : option A :=
  match table with
  | [] => None
  | (k', a) :: rest => if k =? k' then Some a else lookup rest k
  end.

(** A context given by tables: what is read at each offset of
    [.debug_info], and the prologue at each offset of [.debug_line]. *)
Definition table_context (headers : list (Z * (Z * Z)))
    (values : list (Z * (DWARFFormValue * Z)))
    (prologues : list (Z * Prologue)) : DWARFContext :=
  mkContext (lookup headers)
    (fun _ _ _ off => lookup values off)
    true
    (fun _ off => lookup prologues off)
    (fun code => if code =? 4 then "DW_LANG_C_plus_plus"%string
                 else EmptyString)
    (fun _ => EmptyString).

Definition integer_value (f : Form) (raw : Z) : DWARFFormValue :=
  mkFormValue f raw None None None None.

Definition string_value (f : Form) (s : string) : DWARFFormValue :=
  mkFormValue f 0 None None None (Some s).

Definition attribute (a : Z) (f : Form) : AttributeSpec :=
  mkAttributeSpec a f false 0.

(** One compile unit at offset [0x1000]: the unit DIE with a name, a line
    table and a language, a subprogram below it, and the terminator. *)
Definition sample_abbrevs (code : Z) : option DWARFAbbreviationDeclaration :=
  if code =? 1 then
    Some (mkAbbrev DW_TAG_compile_unit true
            [attribute DW_AT_name DW_FORM_string;
             attribute DW_AT_stmt_list DW_FORM_sec_offset;
             attribute DW_AT_language DW_FORM_data2])
  else if code =? 2 then
    Some (mkAbbrev 0x2e false
            [attribute DW_AT_name DW_FORM_strp;
             attribute DW_AT_decl_file DW_FORM_data1;
             attribute DW_AT_decl_line DW_FORM_data1;
             attribute 0x49 DW_FORM_ref4;
             attribute 0x02 DW_FORM_indirect])
  else None.

Definition sample_context (version : Z) : DWARFContext :=
  table_context
    [(0x100b, (1, 0x100c)); (0x1016, (2, 0x1017)); (0x1023, (0, 0x1024))]
    [(0x100c, (string_value DW_FORM_string "a.c", 0x1010));
     (0x1010, (mkFormValue DW_FORM_sec_offset 0 (Some 0) None None None,
               0x1014));
     (0x1014, (integer_value DW_FORM_data2 4, 0x1016));
     (0x1017, (string_value DW_FORM_strp "main", 0x101b));
     (0x101b, (integer_value DW_FORM_data1 0, 0x101c));
     (0x101c, (integer_value DW_FORM_data1 7, 0x101d));
     (0x101d, (integer_value DW_FORM_ref4 0x10, 0x1021));
     (0x1021, (integer_value DW_FORM_data1 5, 0x1023))]
    [(0, mkPrologue version [Some "a.c"%string; Some "b.c"%string])].

Definition sample_dwarf_unit : DWARFUnit :=
  mkDWARFUnit 0x1000 11 0x1024 (Some sample_abbrevs) None.

Definition sample_unit : UnitState :=
  mkUnitState sample_dwarf_unit sample_abbrevs 0x1024 0x100b [] EmptyString None 0.

Definition all_columns : list DwarfColumn :=
  [COL_OFFSET; COL_SIZE; COL_TAG; COL_UNIT_NAME; COL_UNIT_OFFSET;
   COL_ANCESTOR_TAGS; COL_ANCESTOR_OFFSETS; COL_NAME; COL_LINKAGE_NAME;
   COL_DECL_FILE; COL_DECL_LINE; COL_ATTR_NAME; COL_ATTR_FORM; COL_ATTR_INT;
   COL_ATTR_STR].

(** Units of a single DIE without attributes and without children, twelve
    bytes each: an eleven-byte header and the one-byte DIE. *)
Definition bare_abbrevs (code : Z) : option DWARFAbbreviationDeclaration :=
  if code =? 1 then Some (mkAbbrev DW_TAG_compile_unit false []) else None.

Definition bare_dwarf_unit (start : Z) : DWARFUnit :=
  mkDWARFUnit start 11 (start + 12) (Some bare_abbrevs) None.

Definition bare_context : DWARFContext :=
  table_context
    [(11, (1, 12)); (23, (1, 24)); (35, (1, 36)); (47, (1, 48))] [] [].

Definition bare_unit : UnitState :=
  mkUnitState (bare_dwarf_unit 0) bare_abbrevs 12 11 [] EmptyString None 0.

(** A unit whose single DIE carries a block of [0xffffffff] bytes behind a
    four-byte length. *)
Definition huge_abbrevs (code : Z) : option DWARFAbbreviationDeclaration :=
  if code =? 1
  then Some (mkAbbrev 0x34 false [attribute 0x02 DW_FORM_block4])
  else None.

Definition huge_context : DWARFContext :=
  table_context [(11, (1, 12))]
    [(12, (mkFormValue DW_FORM_block4 0 None None (Some []) None,
           12 + 4 + 0xffffffff))]
    [].

Definition huge_unit : UnitState :=
  mkUnitState (mkDWARFUnit 0 11 (12 + 4 + 0xffffffff) (Some huge_abbrevs) None)
    huge_abbrevs (12 + 4 + 0xffffffff) 11 [] EmptyString None 0.

(** Four bare units read by two threads. *)
Definition four_units : Format :=
  mkFormat
    (mkElfImage true true
       [bare_dwarf_unit 0; bare_dwarf_unit 12; bare_dwarf_unit 24;
        bare_dwarf_unit 36]
       bare_context)
    [COL_OFFSET] 2.

Definition crowded_trace : list Action :=
  [ConsumerTurn; WorkerTurn 0; WorkerTurn 0; WorkerTurn 0; WorkerTurn 1;
   WorkerTurn 0; WorkerTurn 1].

(** An ELF image without a [.debug_info] section. *)
Definition no_debug_info : Format :=
  mkFormat (mkElfImage false true [] bare_context) [COL_OFFSET] 2.

(** An image whose second unit has no abbreviation set. *)
Definition broken_second_unit : Format :=
  mkFormat
    (mkElfImage true true
       [bare_dwarf_unit 0; mkDWARFUnit 12 11 24 None None] bare_context)
    [COL_OFFSET] 2.

(** Two units read by two threads: a bare unit, and a unit whose DIE names
    an abbreviation its set does not have, so that decoding it throws. *)
Definition unknown_abbrev_unit (start : Z) : DWARFUnit :=
  mkDWARFUnit start 11 (start + 12) (Some (fun _ => None)) None.

Definition faulty_units : Format :=
  mkFormat
    (mkElfImage true true [bare_dwarf_unit 0; unknown_abbrev_unit 12]
       bare_context)
    [COL_OFFSET] 2.

Definition faulty_trace : list Action :=
  [ConsumerTurn; WorkerTurn 0; WorkerTurn 1; WorkerTurn 0; WorkerTurn 1].

(** A unit longer than one chunk: the unit DIE, 65536 childless DIEs of one
    byte each below it, and the terminator. *)
Definition long_abbrevs (code : Z) : option DWARFAbbreviationDeclaration :=
  if code =? 1 then Some (mkAbbrev DW_TAG_compile_unit true [])
  else if code =? 2 then Some (mkAbbrev 0x34 false [])
  else None.

Definition long_context : DWARFContext :=
  mkContext
    (fun off => if off =? 11 then Some (1, 12)
                else if off <? 11 + 65537 then Some (2, off + 1)
                else Some (0, off + 1))
    (fun _ _ _ _ => None) true (fun _ _ => None)
    (fun _ => EmptyString) (fun _ => EmptyString).

Definition long_unit : UnitState :=
  mkUnitState (mkDWARFUnit 0 11 (11 + 65538) (Some long_abbrevs) None)
    long_abbrevs (11 + 65538) 11 [] EmptyString None 0.

(** Two calls of [parseEntries] in a row on one unit: the rows of each
    chunk, whether the unit is at its end after each, the last offset of the
    first chunk and the first offset of the second. *)
Definition two_calls (ctx : DWARFContext) (header : list DwarfColumn)
    (unit : UnitState) : option (Z * bool * Z * Z * Z * bool) :=
  match parseEntries ctx header unit with
  | Ok (chunk1, unit1) =>
      match parseEntries ctx header unit1 with
      | Ok (chunk2, unit2) =>
          Some (Z.of_nat (getNumRows chunk1), eof unit1,
                last (chunk_column header chunk1 COL_OFFSET) 0,
                hd 0 (chunk_column header chunk2 COL_OFFSET),
                Z.of_nat (getNumRows chunk2), eof unit2)
      | _ => None
      end
  | _ => None
  end.

(** ** Vocabulary of the proofs *)

(** The fields of the unit an attribute leaves alone once the cursor has
    moved: everything but [unit_name]. *)
Definition same_cursor (u u' : UnitState) : Prop :=
  dwarf_unit u' = dwarf_unit u /\ abbrevs u' = abbrevs u /\
  end_offset u' = end_offset u /\ offset u' = offset u /\
  stack u' = stack u /\ filename_table u' = filename_table u /\
  filename_table_size u' = filename_table_size u.

(** The columns no attribute writes to. *)
Definition same_rows (b b' : Builders) : Prop :=
  col_offset b' = col_offset b /\ col_size b' = col_size b /\
  col_tag b' = col_tag b /\
  col_ancestor_tags b' = col_ancestor_tags b /\
  col_ancestor_dwarf_offsets b' = col_ancestor_dwarf_offsets b /\
  col_ancestor_array_offsets b' = col_ancestor_array_offsets b /\
  col_attr_offsets b' = col_attr_offsets b.

(** What the [switch] appends to the two value columns. *)
Definition value_effect (need : Need) (u : DWARFUnit) (val : DWARFFormValue)
    (b b' : Builders) : Prop :=
  same_rows b b' /\
  col_attr_name b' = col_attr_name b /\
  col_attr_form b' = col_attr_form b /\
  col_attr_int b' =
    (if need COL_ATTR_INT then spec_attr_int u val :: col_attr_int b
     else col_attr_int b) /\
  length (col_attr_str b') =
    (if need COL_ATTR_STR then S (length (col_attr_str b))
     else length (col_attr_str b)).

(** The unit and the builders after one attribute, given the value the
    extractor returned and the offset it stopped at. *)
Definition attribute_effect (need : Need) (attr : AttributeSpec)
    (val : DWARFFormValue) (off : Z) (unit unit' : UnitState)
    (b b' : Builders) : Prop :=
  (dwarf_unit unit' = dwarf_unit unit /\ abbrevs unit' = abbrevs unit /\
   end_offset unit' = end_offset unit /\ offset unit' = off /\
   stack unit' = stack unit) /\
  same_rows b b' /\
  col_attr_name b' =
    (if need COL_ATTR_NAME then Attr attr :: col_attr_name b
     else col_attr_name b) /\
  col_attr_form b' =
    (if need COL_ATTR_FORM then form_code (Form_ attr) :: col_attr_form b
     else col_attr_form b) /\
  col_attr_int b' =
    (if need COL_ATTR_INT
     then spec_attr_int (dwarf_unit unit) val :: col_attr_int b
     else col_attr_int b) /\
  length (col_attr_str b') =
    (if need COL_ATTR_STR then S (length (col_attr_str b))
     else length (col_attr_str b)).

(** The builders before the abbreviation code is read: the offset and the
    ancestors of the row are in. *)
Definition row_head (need : Need) (unit : UnitState) (b : Builders)
  : Builders :=
  let b := if need COL_OFFSET then push_offset (offset unit) b else b in
  if need COL_ANCESTOR_TAGS then
    let b := push_ancestors need (stack unit) b in
    push_ancestor_array_offsets (Z.of_nat (length (col_ancestor_tags b))) b
  else b.

(** What the part of a row after its head does, [n] attributes long. *)
Definition row_tail_effect (need : Need) (die_offset : Z) (n : nat)
    (unit' : UnitState) (b b' : Builders) : Prop :=
  col_offset b' = col_offset b /\
  col_size b' =
    (if need COL_SIZE
     then to_UInt32 (offset unit' - die_offset) :: col_size b
     else col_size b) /\
  col_ancestor_tags b' = col_ancestor_tags b /\
  col_ancestor_dwarf_offsets b' = col_ancestor_dwarf_offsets b /\
  col_ancestor_array_offsets b' = col_ancestor_array_offsets b /\
  length (col_attr_name b') =
    (if need COL_ATTR_NAME then n + length (col_attr_name b)
     else length (col_attr_name b))%nat /\
  length (col_attr_form b') =
    (if need COL_ATTR_FORM then n + length (col_attr_form b)
     else length (col_attr_form b))%nat /\
  length (col_attr_int b') =
    (if need COL_ATTR_INT then n + length (col_attr_int b)
     else length (col_attr_int b))%nat /\
  length (col_attr_str b') =
    (if need COL_ATTR_STR then n + length (col_attr_str b)
     else length (col_attr_str b))%nat /\
  col_attr_offsets b' =
    (if need COL_ATTR_NAME
     then Z.of_nat (length (col_attr_name b')) :: col_attr_offsets b
     else col_attr_offsets b).

(** The distances from each offset to the next, for offsets listed newest
    first with the cursor after them. *)
Fixpoint dist (next : Z) (offsets : list Z) : list Z :=
  match offsets with
  | [] => []
  | o :: os => (next - o) :: dist o os
  end.

(** The offsets so far, newest first, each below the one after it. *)
Fixpoint below (next : Z) (offsets : list Z) : Prop :=
  match offsets with
  | [] => True
  | o :: os => o < next /\ below o os
  end.

(** The column chunk assembly builds for a header entry; for [decl_file]
    it is one only where the unit has its filename table. *)
Definition built_column (unit : UnitState) (b : Builders) (num_rows : nat)
    (c : DwarfColumn) : Column :=
  match assemble_column unit b num_rows c with
  | Ok col => col
  | _ => ColumnVector []
  end.

(** The two propagation rules, as a property of [need]. *)
Definition need_closed (need : Need) : Prop :=
  (need COL_ATTR_FORM = true -> need COL_ATTR_NAME = true) /\
  (need COL_ATTR_INT = true -> need COL_ATTR_NAME = true) /\
  (need COL_ATTR_STR = true -> need COL_ATTR_NAME = true) /\
  (need COL_ANCESTOR_OFFSETS = true -> need COL_ANCESTOR_TAGS = true).

(** An offsets vector, newest entry first: entries between 0 and [bound],
    none above the one after it. *)
Fixpoint bounded_desc (bound : Z) (offsets : list Z) : Prop :=
  match offsets with
  | [] => True
  | o :: rest => 0 <= o <= bound /\ bounded_desc o rest
  end.

(** The values of an array and its offsets vector agree: as many values where
    the column is requested as the owner has, and the offsets end at the
    owner's size. *)
Definition array_inv (wanted : bool) (owner values : nat) (offsets : list Z)
  : Prop :=
  values = (if wanted then owner else 0%nat) /\
  bounded_desc (Z.of_nat owner) offsets /\
  (offsets <> [] -> hd 0 offsets = Z.of_nat owner).

(** The invariant of the scheduler: before initialisation there is neither
    a pool nor a chunk; there are at most [num_threads] threads; the chunks
    delivered and the units held together number at most
    [2 * num_threads]. *)
Definition scheduler_inv (fmt : Format) (s : Scheduler) : Prop :=
  (elf s = None -> pool s = [] /\ delivery_queue s = []) /\
  (length (pool s) <= num_threads fmt)%nat /\
  (length (delivery_queue s) + count_decoding (pool s)
   <= 2 * num_threads fmt)%nat.

(** The size recorded for the filename table is the size of the table: 0
    while the pointer is null, the entries after the first otherwise. *)
Definition table_ok (unit : UnitState) : Prop :=
  match filename_table unit with
  | None => filename_table_size unit = 0
  | Some col => filename_table_size unit = Z.of_nat (length col) - 1
  end.

(** A unit keeps the filename table it has. *)
Definition keeps_table (unit unit' : UnitState) : Prop :=
  forall col, filename_table unit = Some col ->
              filename_table unit' = Some col.

(** What the attributes of a DIE do to a convenience column and to its
    pending flag: nothing, or the flag goes down as the column takes one
    value. *)
Definition fills_once {A : Type} (pending pending' : bool) (col col' : list A)
  : Prop :=
  (col' = col /\ pending' = pending) \/
  (pending = true /\ pending' = false /\ exists v, col' = v :: col).

Definition pending_effect (b b' : Builders) (p p' : Pending) : Prop :=
  col_tag b' = col_tag b /\
  fills_once (need_name p) (need_name p') (col_name b) (col_name b') /\
  fills_once (need_linkage_name p) (need_linkage_name p')
    (col_linkage_name b) (col_linkage_name b') /\
  fills_once (need_decl_file p) (need_decl_file p')
    (col_decl_file b) (col_decl_file b') /\
  fills_once (need_decl_line p) (need_decl_line p')
    (col_decl_line b) (col_decl_line b').

(** One value per row in the flat columns the row fills at its end. *)
Definition one_row (need : Need) (b b' : Builders) : Prop :=
  length (col_tag b') =
    (if need COL_TAG then S (length (col_tag b)) else length (col_tag b)) /\
  length (col_name b') =
    (if need COL_NAME then S (length (col_name b))
     else length (col_name b)) /\
  length (col_linkage_name b') =
    (if need COL_LINKAGE_NAME then S (length (col_linkage_name b))
     else length (col_linkage_name b)) /\
  length (col_decl_file b') =
    (if need COL_DECL_FILE then S (length (col_decl_file b))
     else length (col_decl_file b)) /\
  length (col_decl_line b') =
    (if need COL_DECL_LINE then S (length (col_decl_line b))
     else length (col_decl_line b)).

(** The flat columns of the builders hold [n] values each. *)
Definition flat_rows (need : Need) (n : nat) (b : Builders) : Prop :=
  length (col_tag b) = (if need COL_TAG then n else 0)%nat /\
  length (col_name b) = (if need COL_NAME then n else 0)%nat /\
  length (col_linkage_name b) = (if need COL_LINKAGE_NAME then n else 0)%nat /\
  length (col_decl_file b) = (if need COL_DECL_FILE then n else 0)%nat /\
  length (col_decl_line b) = (if need COL_DECL_LINE then n else 0)%nat.

(** The number of rows of a column: the entries of a flat column, the
    offsets of an array column. *)
Definition column_rows (c : Column) : nat :=
  match c with
  | ColumnVector data => length data
  | ColumnString data => length data
  | ColumnLowCardinality _ indexes => length indexes
  | ColumnLowCardinalityOwn values => length values
  | ColumnArray _ offsets => length offsets
  end.

(** The DIEs on the stack enclose the cursor: their offsets go down from
    the top of the stack, all of them before the cursor. *)
Definition enclosing (unit : UnitState) : Prop :=
  below (offset unit) (map StackEntry.offset (stack unit)).

(** The messages of the exceptions an attribute can raise. *)
Definition attribute_messages : list string :=
  ["Failed to parse attribute";
   "There are DW_AT_stmt_list but no .debug_line section";
   "Failed to parse .debug_line unit prologue";
   "Error parsing string attribute"]%string.

(** The messages of the exceptions [parseEntries] can raise. *)
Definition decoder_messages : list string :=
  ["Failed to parse DIE header"; "Stack underflow";
   "Abbrev code in DIE header is out of bounds";
   "Unexpected end of DIE tree"]%string ++ attribute_messages.

(** The builders of a call that fills the columns of [need] only, given the
    builders of a call that fills them all. *)
Definition restrict (need : Need) (b : Builders) : Builders :=
  mkBuilders
    (if need COL_OFFSET then col_offset b else [])
    (if need COL_SIZE then col_size b else [])
    (if need COL_TAG then col_tag b else [])
    (if need COL_ANCESTOR_TAGS then col_ancestor_tags b else [])
    (if need COL_ANCESTOR_TAGS && need COL_ANCESTOR_OFFSETS
     then col_ancestor_dwarf_offsets b else [])
    (if need COL_ANCESTOR_TAGS then col_ancestor_array_offsets b else [])
    (if need COL_NAME then col_name b else [])
    (if need COL_LINKAGE_NAME then col_linkage_name b else [])
    (if need COL_DECL_FILE then col_decl_file b else [])
    (if need COL_DECL_LINE then col_decl_line b else [])
    (if need COL_ATTR_NAME then col_attr_name b else [])
    (if need COL_ATTR_FORM then col_attr_form b else [])
    (if need COL_ATTR_INT then col_attr_int b else [])
    (if need COL_ATTR_STR then col_attr_str b else [])
    (if need COL_ATTR_NAME then col_attr_offsets b else []).

(** The pending flags of that call. *)
Definition restrict_pending (need : Need) (p : Pending) : Pending :=
  mkPending (need COL_NAME && need_name p)
    (need COL_LINKAGE_NAME && need_linkage_name p)
    (need COL_DECL_FILE && need_decl_file p)
    (need COL_DECL_LINE && need_decl_line p).

(** The state of a DIE in that call. *)
Definition restrict_state (need : Need) (st : DieState) : DieState :=
  let '(unit, b, p) := st in (unit, restrict need b, restrict_pending need p).

(** The first step of [project_string]: what a [DW_AT_name] does. *)
Definition name_stage (tag : Z) (attr : AttributeSpec) (res : string)
    (st : DieState) : DieState :=
  let '(unit, b, p) := st in
  if Attr attr =? DW_AT_name then
    let '(b, p) :=
      if need_name p
      then (push_name res b,
            mkPending false (need_linkage_name p) (need_decl_file p)
              (need_decl_line p))
      else (b, p) in
    let unit := if tag =? DW_TAG_compile_unit
                then set_unit_name res unit else unit in
    (unit, b, p)
  else (unit, b, p).

Definition worker_ok (w : Worker) : Prop :=
  match w with
  | Decoding unit => table_ok unit
  | _ => True
  end.

(** Every unit in the queue or in the hands of a worker has a filename
    table of the size recorded for it. *)
Definition units_ok (s : Scheduler) : Prop :=
  Forall table_ok (units_queue s) /\ Forall worker_ok (pool s).

(** The threads of a pool that have not ended. *)
Definition live (p : list Worker) : nat :=
  length (filter (fun w => negb (has_exited w)) p).

(** While no worker has failed, [units_in_progress] counts the threads
    that hold a unit. *)
Definition progress_inv (s : Scheduler) : Prop :=
  background_exception s = None ->
  units_in_progress s = Z.of_nat (count_decoding (pool s)).

(** A table of tag names that has [DW_TAG_null] at 0. *)
Definition sample_TagString (code : Z) : string :=
  if code =? 0 then "DW_TAG_null"%string
  else if code =? 0x11 then "DW_TAG_compile_unit"%string
  else EmptyString.

(** Two units that both fail, read by two threads: the first names an
    abbreviation its set does not have, the second begins where the section
    has no DIE header to read. *)
Definition two_faulty_units : Format :=
  mkFormat
    (mkElfImage true true
       [unknown_abbrev_unit 0; mkDWARFUnit 100 11 112 (Some bare_abbrevs) None]
       bare_context)
    [COL_OFFSET] 2.

(** * Properties *)

Arguments to_UInt32 : simpl never.
Arguments to_UInt64 : simpl never.
Arguments MAX_ROWS : simpl never.
Arguments in_row_order : simpl never.

Lemma in_row_order_rev {A : Type} (builder : list A) :
  in_row_order builder = rev builder.
Proof. unfold in_row_order. symmetry. apply rev_alt. Qed.

Lemma MAX_ROWS_value : Z.of_nat MAX_ROWS = 65536.
Proof. unfold MAX_ROWS. apply Z2Nat.id. lia. Qed.

Opaque MAX_ROWS.

(** ** Tactics and arithmetic *)

Ltac inv H := inversion H; subst; clear H.

(** Split a hypothesis on every test the code makes on the way to [Ok]. *)
Ltac cases_in H :=
  repeat (cbv beta iota zeta in H;
          match type of H with
          | Throw _ = Ok _ => discriminate H
          | Undefined = Ok _ => discriminate H
          | context [match ?x with _ => _ end] =>
              lazymatch x with
              | context [match _ with _ => _ end] => fail
              | _ => destruct x eqn:?
              end
          | bind ?r _ = Ok _ => destruct r eqn:?; unfold bind in H
          end).

Lemma to_UInt32_of_UInt64 (x : Z) : to_UInt32 (to_UInt64 x) = x mod 2 ^ 32.
Proof.
  unfold to_UInt32, to_UInt64.
  rewrite Z.mod_mod_divide; [reflexivity|].
  exists (2 ^ 32). reflexivity.
Qed.

Lemma bind_Ok {A B : Type} (r : Result A) (k : A -> Result B) (y : B) :
  bind r k = Ok y -> exists x, r = Ok x /\ k x = Ok y.
Proof.
  destruct r; simpl; intros H; try discriminate. eauto.
Qed.

(** ** What one attribute does to the unit and to the builders *)

Ltac solve_effect :=
  unfold value_effect, same_rows, same_cursor; simpl;
  repeat match goal with |- _ /\ _ => split end;
  try reflexivity.

Lemma project_integer_effect ctx need attr val unit b p unit' b' p' :
  form_group (getForm val) = IntegerForm ->
  project_integer ctx need attr val (unit, b, p) = Ok (unit', b', p') ->
  unit' = unit /\ value_effect need (dwarf_unit unit) val b b'.
Proof.
  intros Hg H. unfold project_integer in H.
  assert (Hs : spec_attr_int (dwarf_unit unit) val = getRawUValue val)
    by (unfold spec_attr_int; rewrite Hg; reflexivity).
  unfold value_effect. rewrite Hs.
  cases_in H; inv H; split; try reflexivity; solve_effect.
Qed.

Lemma project_address_effect need val unit b p unit' b' p' :
  form_group (getForm val) = AddressForm ->
  project_address need val (unit, b, p) = Ok (unit', b', p') ->
  unit' = unit /\ p' = p /\ value_effect need (dwarf_unit unit) val b b'.
Proof.
  intros Hg H. unfold project_address in H. inv H.
  split; [reflexivity|]. split; [reflexivity|].
  unfold value_effect, spec_attr_int; rewrite Hg.
  destruct (need COL_ATTR_INT), (need COL_ATTR_STR); solve_effect.
Qed.

Lemma project_block_effect need val unit b p unit' b' p' :
  form_group (getForm val) = BlockForm ->
  project_block need val (unit, b, p) = Ok (unit', b', p') ->
  unit' = unit /\ p' = p /\ value_effect need (dwarf_unit unit) val b b'.
Proof.
  intros Hg H. unfold project_block in H. inv H.
  split; [reflexivity|]. split; [reflexivity|].
  unfold value_effect, spec_attr_int; rewrite Hg.
  destruct (need COL_ATTR_INT), (need COL_ATTR_STR); solve_effect.
Qed.

Lemma project_string_effect need tag attr val unit b p unit' b' p' :
  form_group (getForm val) = StringForm ->
  project_string need tag attr val (unit, b, p) = Ok (unit', b', p') ->
  same_cursor unit unit' /\ value_effect need (dwarf_unit unit) val b b'.
Proof.
  intros Hg H. unfold project_string in H.
  assert (Hs : spec_attr_int (dwarf_unit unit) val = 0)
    by (unfold spec_attr_int; rewrite Hg; reflexivity).
  unfold value_effect. rewrite Hs.
  cases_in H; inv H; split; solve_effect.
Qed.

Lemma project_reference_effect need val unit b p unit' b' p' :
  form_group (getForm val) = ReferenceForm ->
  project_reference need val (unit, b, p) = Ok (unit', b', p') ->
  unit' = unit /\ p' = p /\ value_effect need (dwarf_unit unit) val b b'.
Proof.
  intros Hg H. unfold project_reference in H. inv H.
  split; [reflexivity|]. split; [reflexivity|].
  unfold value_effect, spec_attr_int; rewrite Hg.
  destruct (need COL_ATTR_INT), (need COL_ATTR_STR); solve_effect.
Qed.

Lemma project_default_effect need val unit b p unit' b' p' :
  form_group (getForm val) = DefaultForm ->
  project_default need (unit, b, p) = Ok (unit', b', p') ->
  unit' = unit /\ p' = p /\ value_effect need (dwarf_unit unit) val b b'.
Proof.
  intros Hg H. unfold project_default in H. inv H.
  split; [reflexivity|]. split; [reflexivity|].
  unfold value_effect, spec_attr_int; rewrite Hg.
  destruct (need COL_ATTR_INT), (need COL_ATTR_STR); solve_effect.
Qed.

Lemma same_cursor_refl u : same_cursor u u.
Proof. unfold same_cursor; repeat split. Qed.

Lemma project_value_effect ctx need tag attr val unit b p unit' b' p' :
  project_value ctx need tag attr val (unit, b, p) = Ok (unit', b', p') ->
  same_cursor unit unit' /\ value_effect need (dwarf_unit unit) val b b'.
Proof.
  unfold project_value. intros H.
  destruct (form_group (getForm val)) eqn:Hg.
  - apply project_integer_effect in H as [-> ?]; auto using same_cursor_refl.
  - apply project_address_effect in H as (-> & _ & ?);
      auto using same_cursor_refl.
  - apply project_block_effect in H as (-> & _ & ?);
      auto using same_cursor_refl.
  - apply project_string_effect in H; auto.
  - apply project_reference_effect in H as (-> & _ & ?);
      auto using same_cursor_refl.
  - apply (project_default_effect need val) in H as (-> & _ & ?);
      auto using same_cursor_refl.
Qed.

Lemma parseFilenameTable_fields ctx unit o unit' :
  parseFilenameTable ctx unit o = Ok unit' ->
  dwarf_unit unit' = dwarf_unit unit /\ abbrevs unit' = abbrevs unit /\
  end_offset unit' = end_offset unit /\ offset unit' = offset unit /\
  stack unit' = stack unit /\ unit_name unit' = unit_name unit.
Proof.
  unfold parseFilenameTable. intros H.
  cases_in H; inv H; simpl; repeat split.
Qed.

Lemma parseAttribute_effect ctx need tag attr unit b p unit' b' p' :
  parseAttribute ctx need tag attr (unit, b, p) = Ok (unit', b', p') ->
  exists val off,
    extractValue ctx (dwarf_unit unit) (Form_ attr)
      (if isImplicitConst attr then getImplicitConstValue attr else 0)
      (offset unit) = Some (val, off) /\
    attribute_effect need attr val off unit unit' b b'.
Proof.
  unfold parseAttribute. intros H.
  destruct (extractValue _ _ _ _ _) as [[val off]|] eqn:He;
    [|discriminate].
  exists val, off. split; [reflexivity|].
  apply bind_Ok in H as (unit1 & H1 & H2).
  apply project_value_effect in H2 as [Hc Hv].
  assert (Hu : dwarf_unit unit1 = dwarf_unit unit /\
               abbrevs unit1 = abbrevs unit /\
               end_offset unit1 = end_offset unit /\ offset unit1 = off /\
               stack unit1 = stack unit).
  { cases_in H1;
      first [ apply parseFilenameTable_fields in H1; simpl in H1;
              intuition congruence
            | inv H1; simpl; repeat split ]. }
  destruct Hu as (Hu1 & Hu2 & Hu3 & Hu4 & Hu5).
  destruct Hc as (Hc1 & Hc2 & Hc3 & Hc4 & Hc5 & _).
  unfold attribute_effect. split; [intuition congruence|].
  rewrite Hu1 in Hv.
  unfold value_effect, same_rows in *.
  destruct Hv as ((? & ? & ? & ? & ? & ? & ?) & Hn & Hf & Hi & Hs).
  destruct (need COL_ATTR_NAME), (need COL_ATTR_FORM); simpl in *;
    repeat split; congruence.
Qed.

(** The whole attribute list of a DIE. *)
Lemma parseAttributes_effect ctx need tag attrs :
  forall unit b p unit' b' p',
    parseAttributes ctx need tag attrs (unit, b, p) = Ok (unit', b', p') ->
    (dwarf_unit unit' = dwarf_unit unit /\ abbrevs unit' = abbrevs unit /\
     end_offset unit' = end_offset unit /\ stack unit' = stack unit) /\
    same_rows b b' /\
    col_attr_name b' =
      (if need COL_ATTR_NAME then rev (map Attr attrs) ++ col_attr_name b
       else col_attr_name b) /\
    col_attr_form b' =
      (if need COL_ATTR_FORM
       then rev (map (fun a => form_code (Form_ a)) attrs) ++ col_attr_form b
       else col_attr_form b) /\
    length (col_attr_int b') =
      (if need COL_ATTR_INT then length attrs + length (col_attr_int b)
       else length (col_attr_int b))%nat /\
    length (col_attr_str b') =
      (if need COL_ATTR_STR then length attrs + length (col_attr_str b)
       else length (col_attr_str b))%nat /\
    (advances ctx -> offset unit <= offset unit').
Proof.
  induction attrs as [|attr rest IH]; intros unit b p unit' b' p' H.
  - simpl in H. inv H. unfold same_rows.
    destruct (need COL_ATTR_NAME), (need COL_ATTR_FORM),
      (need COL_ATTR_INT), (need COL_ATTR_STR); simpl;
      repeat split; try reflexivity; lia.
  - simpl in H. apply bind_Ok in H as ([[unit1 b1] p1] & H1 & H2).
    apply parseAttribute_effect in H1 as (val & off & He & Hu & Hr & Hn & Hf
                                          & Hi & Hs).
    apply IH in H2 as (Hu' & Hr' & Hn' & Hf' & Hi' & Hs' & Ha').
    destruct Hu as (? & ? & ? & Hoff & ?). destruct Hu' as (? & ? & ? & ?).
    split; [intuition congruence|].
    split; [unfold same_rows in *; intuition congruence|].
    rewrite Hn', Hf', Hi', Hs', Hn, Hf, Hi, Hs.
    destruct (need COL_ATTR_NAME), (need COL_ATTR_FORM),
      (need COL_ATTR_INT), (need COL_ATTR_STR); simpl;
      rewrite <- ?app_assoc; simpl; repeat split; try reflexivity; try lia;
      intros [Hl Hx]; specialize (Ha' (conj Hl Hx));
      apply Hx in He; lia.
Qed.

(** ** What one row does *)

Lemma push_ancestors_effect need st :
  forall b,
    let b' := push_ancestors need st b in
    col_ancestor_tags b' = rev (map StackEntry.tag st) ++ col_ancestor_tags b /\
    col_ancestor_dwarf_offsets b' =
      (if need COL_ANCESTOR_OFFSETS
       then rev (map StackEntry.offset st) ++ col_ancestor_dwarf_offsets b
       else col_ancestor_dwarf_offsets b) /\
    col_ancestor_array_offsets b' = col_ancestor_array_offsets b /\
    col_offset b' = col_offset b /\ col_size b' = col_size b /\
    col_decl_file b' = col_decl_file b /\
    col_attr_name b' = col_attr_name b /\ col_attr_form b' = col_attr_form b /\
    col_attr_int b' = col_attr_int b /\ col_attr_str b' = col_attr_str b /\
    col_attr_offsets b' = col_attr_offsets b.
Proof.
  unfold push_ancestors.
  induction st as [|e st IH]; intros b; simpl.
  - destruct (need COL_ANCESTOR_OFFSETS); repeat split.
  - specialize (IH (if need COL_ANCESTOR_OFFSETS
                    then push_ancestor_dwarf_offsets (StackEntry.offset e)
                           (push_ancestor_tags (StackEntry.tag e) b)
                    else push_ancestor_tags (StackEntry.tag e) b)).
    simpl in IH.
    destruct IH as (H1 & H2 & H3 & H4 & H5 & H6 & H7 & H8 & H9 & H10 & H11).
    rewrite H1, H2, H3, H4, H5, H6, H7, H8, H9, H10, H11.
    destruct (need COL_ANCESTOR_OFFSETS); simpl;
      rewrite <- ?app_assoc; repeat split.
Qed.

Lemma parseEntry_inv ctx need unit b unit' b' :
  parseEntry ctx need unit b = Ok (unit', b') ->
  exists code off,
    getULEB128 ctx (offset unit) = Some (code, off) /\
    ((code = 0 /\
      parseNull need (offset unit) (set_offset off unit)
        (row_head need unit b) = Ok (unit', b')) \/
     (code <> 0 /\
      parseDIE ctx need (offset unit) code (set_offset off unit)
        (row_head need unit b) = Ok (unit', b'))).
Proof.
  unfold parseEntry. fold (row_head need unit b). intros H.
  destruct (getULEB128 ctx (offset unit)) as [[code off]|]; [|discriminate].
  exists code, off. split; [reflexivity|].
  destruct (code =? 0) eqn:E.
  - left. apply Z.eqb_eq in E. auto.
  - right. apply Z.eqb_neq in E. auto.
Qed.

Lemma row_head_effect need unit b :
  let b' := row_head need unit b in
  col_offset b' =
    (if need COL_OFFSET then offset unit :: col_offset b else col_offset b) /\
  col_size b' = col_size b /\
  col_decl_file b' = col_decl_file b /\
  col_attr_name b' = col_attr_name b /\ col_attr_form b' = col_attr_form b /\
  col_attr_int b' = col_attr_int b /\ col_attr_str b' = col_attr_str b /\
  col_attr_offsets b' = col_attr_offsets b /\
  length (col_ancestor_tags b') =
    (if need COL_ANCESTOR_TAGS
     then length (stack unit) + length (col_ancestor_tags b)
     else length (col_ancestor_tags b))%nat /\
  length (col_ancestor_dwarf_offsets b') =
    (if need COL_ANCESTOR_TAGS && need COL_ANCESTOR_OFFSETS
     then length (stack unit) + length (col_ancestor_dwarf_offsets b)
     else length (col_ancestor_dwarf_offsets b))%nat /\
  col_ancestor_array_offsets b' =
    (if need COL_ANCESTOR_TAGS
     then Z.of_nat (length (col_ancestor_tags b'))
          :: col_ancestor_array_offsets b
     else col_ancestor_array_offsets b).
Proof.
  unfold row_head.
  destruct (need COL_ANCESTOR_TAGS) eqn:Et; cbv zeta.
  - pose proof (push_ancestors_effect need (stack unit)
                  (if need COL_OFFSET then push_offset (offset unit) b
                   else b)) as H.
    cbv zeta in H.
    destruct H as (H1 & H2 & H3 & H4 & H5 & H6 & H7 & H8 & H9 & H10 & H11).
    simpl. rewrite H1, H2, H3, H4, H5, H6, H7, H8, H9, H10, H11.
    destruct (need COL_OFFSET), (need COL_ANCESTOR_OFFSETS); simpl;
      rewrite ?length_app, ?length_rev, ?length_map;
      repeat split; reflexivity.
  - destruct (need COL_OFFSET); simpl; repeat split.
Qed.

Lemma to_UInt32_size (x : Z) : to_UInt32 (to_UInt64 x) = to_UInt32 x.
Proof. apply to_UInt32_of_UInt64. Qed.

Lemma parseNull_effect need die_offset unit b unit' b' :
  parseNull need die_offset unit b = Ok (unit', b') ->
  (exists e, stack unit = e :: stack unit') /\
  unit' = set_stack (stack unit') unit /\
  row_tail_effect need die_offset 0 unit' b b'.
Proof.
  unfold parseNull. intros H.
  destruct (stack unit) as [|e rest] eqn:Es; [discriminate|].
  inv H. split; [eauto|]. split; [reflexivity|].
  unfold row_tail_effect. rewrite !to_UInt32_size.
  destruct (need COL_SIZE), (need COL_TAG), (need COL_NAME),
    (need COL_LINKAGE_NAME), (need COL_DECL_FILE), (need COL_DECL_LINE),
    (need COL_ATTR_NAME), (need COL_ATTR_FORM), (need COL_ATTR_INT),
    (need COL_ATTR_STR); simpl; repeat split.
Qed.

Lemma parseDIE_effect ctx need die_offset code unit b unit' b' :
  parseDIE ctx need die_offset code unit b = Ok (unit', b') ->
  exists abbrev,
    abbrevs unit (to_UInt32 code) = Some abbrev /\
    (dwarf_unit unit' = dwarf_unit unit /\ abbrevs unit' = abbrevs unit /\
     end_offset unit' = end_offset unit) /\
    stack unit' =
      (if hasChildren abbrev
       then StackEntry.mk die_offset (getTag abbrev) :: stack unit
       else stack unit) /\
    (advances ctx -> offset unit <= offset unit') /\
    row_tail_effect need die_offset (length (attributes abbrev)) unit' b b'.
Proof.
  unfold parseDIE. intros H.
  destruct (abbrevs unit (to_UInt32 code)) as [abbrev|]; [|discriminate].
  destruct (code >? UINT32_MAX); [discriminate|].
  exists abbrev. split; [reflexivity|].
  apply bind_Ok in H as ([[unit1 b1] p1] & H1 & H2).
  apply parseAttributes_effect in H1
    as ((Hu1 & Hu2 & Hu3 & Hu4) & Hr & Hn & Hf & Hi & Hs & Ha).
  inv H2.
  split; [destruct (hasChildren abbrev); simpl; auto|].
  split; [destruct (hasChildren abbrev); simpl; congruence|].
  split; [destruct (hasChildren abbrev); simpl; auto|].
  assert (Ho : forall st, offset (if hasChildren abbrev
                                  then set_stack st unit1 else unit1)
                          = offset unit1)
    by (intros; destruct (hasChildren abbrev); reflexivity).
  unfold row_tail_effect. rewrite Ho, to_UInt32_size.
  apply (f_equal (@length Z)) in Hn, Hf.
  destruct Hr as (R1 & R2 & R3 & R4 & R5 & R6 & R7).
  assert (Hn' : length (col_attr_name b1) =
                (if need COL_ATTR_NAME
                 then length (attributes abbrev) + length (col_attr_name b)
                 else length (col_attr_name b))%nat).
  { rewrite Hn. destruct (need COL_ATTR_NAME), (need COL_TAG); simpl;
      rewrite ?length_app, ?length_rev, ?length_map; reflexivity. }
  assert (Hf' : length (col_attr_form b1) =
                (if need COL_ATTR_FORM
                 then length (attributes abbrev) + length (col_attr_form b)
                 else length (col_attr_form b))%nat).
  { rewrite Hf. destruct (need COL_ATTR_FORM), (need COL_TAG); simpl;
      rewrite ?length_app, ?length_rev, ?length_map; reflexivity. }
  assert (Hi' : length (col_attr_int b1) =
                (if need COL_ATTR_INT
                 then length (attributes abbrev) + length (col_attr_int b)
                 else length (col_attr_int b))%nat).
  { rewrite Hi. destruct (need COL_TAG); reflexivity. }
  assert (Hs' : length (col_attr_str b1) =
                (if need COL_ATTR_STR
                 then length (attributes abbrev) + length (col_attr_str b)
                 else length (col_attr_str b))%nat).
  { rewrite Hs. destruct (need COL_TAG); reflexivity. }
  assert (R : col_offset b1 = col_offset b /\ col_size b1 = col_size b /\
              col_ancestor_tags b1 = col_ancestor_tags b /\
              col_ancestor_dwarf_offsets b1 = col_ancestor_dwarf_offsets b /\
              col_ancestor_array_offsets b1 = col_ancestor_array_offsets b /\
              col_attr_offsets b1 = col_attr_offsets b).
  { rewrite R1, R2, R4, R5, R6, R7. destruct (need COL_TAG); repeat split. }
  clear R1 R2 R3 R4 R5 R6 R7 Hn Hf Hi Hs.
  destruct R as (R1 & R2 & R4 & R5 & R6 & R7).
  rewrite <- Hn', <- Hf', <- Hi', <- Hs', <- R1, <- R2, <- R4, <- R5, <- R6,
    <- R7.
  destruct (need COL_SIZE), (need COL_ATTR_NAME), (need_name p1),
    (need_linkage_name p1), (need_decl_file p1), (need_decl_line p1);
    simpl; repeat split; reflexivity.
Qed.

(** ** The loop *)

(** A property of the row count, the unit and the builders that every row
    keeps holds when the loop ends. *)
Lemma parse_rows_invariant ctx need
    (P : nat -> UnitState -> Builders -> Prop) :
  (forall n unit b unit' b',
      P n unit b -> parseEntry ctx need unit b = Ok (unit', b') ->
      P (S n) unit' b') ->
  forall fuel n unit b n' unit' b',
    parse_rows ctx need fuel n unit b = Ok (n', unit', b') ->
    P n unit b -> P n' unit' b'.
Proof.
  intros Hstep. induction fuel as [|fuel IH]; intros n unit b n' unit' b' H HP.
  - simpl in H. inv H. exact HP.
  - simpl in H. apply bind_Ok in H as ([unit1 b1] & H1 & H2).
    specialize (Hstep _ _ _ _ _ HP H1).
    destruct (stack unit1) eqn:Es.
    + destruct (eof unit1); [|discriminate]. inv H2. exact Hstep.
    + eapply IH; eauto.
Qed.

(** How the loop ends: within the fuel, after at least one row, and before
    the fuel is spent only with an empty stack at the end of the unit. *)
Lemma parse_rows_exit ctx need :
  forall fuel n unit b n' unit' b',
    parse_rows ctx need fuel n unit b = Ok (n', unit', b') ->
    (n <= n' <= n + fuel)%nat /\
    ((0 < fuel)%nat -> (n < n')%nat) /\
    ((n' < n + fuel)%nat -> stack unit' = [] /\ eof unit' = true).
Proof.
  induction fuel as [|fuel IH]; intros n unit b n' unit' b' H.
  - simpl in H. inv H. repeat split; lia.
  - simpl in H. apply bind_Ok in H as ([unit1 b1] & H1 & H2).
    destruct (stack unit1) eqn:Es.
    + destruct (eof unit1) eqn:Ee; [|discriminate]. inv H2.
      repeat split; auto; lia.
    + apply IH in H2 as (A & B & C).
      split; [lia|]. split; [lia|].
      intros Hlt. apply C. lia.
Qed.

Lemma parseEntry_unit ctx need unit b unit' b' :
  parseEntry ctx need unit b = Ok (unit', b') ->
  dwarf_unit unit' = dwarf_unit unit /\ abbrevs unit' = abbrevs unit /\
  end_offset unit' = end_offset unit /\
  (advances ctx -> offset unit < offset unit').
Proof.
  intros H. apply parseEntry_inv in H as (code & off & Hl & [[-> H]|[Hc H]]).
  - apply parseNull_effect in H as (_ & -> & _). simpl.
    repeat split. intros [Hu _]. apply Hu in Hl. exact Hl.
  - apply parseDIE_effect in H as (abbrev & _ & (A & B & C) & _ & Ha & _).
    simpl in *. repeat split; auto.
    intros Hadv. specialize (Ha Hadv). destruct Hadv as [Hu _].
    apply Hu in Hl. lia.
Qed.

(** The head and the tail of a row, put together. *)
Lemma parseEntry_effect ctx need unit b unit' b' :
  parseEntry ctx need unit b = Ok (unit', b') ->
  exists n, row_tail_effect need (offset unit) n unit' (row_head need unit b) b'.
Proof.
  intros H. apply parseEntry_inv in H as (code & off & Hl & [[-> H]|[Hc H]]).
  - apply parseNull_effect in H as (_ & _ & H). eauto.
  - apply parseDIE_effect in H as (abbrev & _ & _ & _ & _ & H). eauto.
Qed.

(** *** Offsets and sizes *)

Lemma parseEntry_offset_size ctx need unit b unit' b' :
  parseEntry ctx need unit b = Ok (unit', b') ->
  col_offset b' =
    (if need COL_OFFSET then offset unit :: col_offset b else col_offset b) /\
  col_size b' =
    (if need COL_SIZE
     then to_UInt32 (offset unit' - offset unit) :: col_size b
     else col_size b).
Proof.
  intros H. apply parseEntry_effect in H as (n & H1 & H2 & _).
  pose proof (row_head_effect need unit b) as (E1 & E2 & _).
  rewrite H1, H2, E1, E2. split; reflexivity.
Qed.

Lemma parse_rows_sizes ctx need fuel n unit b n' unit' b' :
  need COL_OFFSET = true -> need COL_SIZE = true ->
  parse_rows ctx need fuel n unit b = Ok (n', unit', b') ->
  col_size b = map to_UInt32 (dist (offset unit) (col_offset b)) ->
  col_size b' = map to_UInt32 (dist (offset unit') (col_offset b')).
Proof.
  intros No Ns H.
  apply (parse_rows_invariant ctx need
           (fun _ u b =>
              col_size b = map to_UInt32 (dist (offset u) (col_offset b))))
    with (2 := H).
  intros ? u0 b0 u1 b1 HP H1.
  apply parseEntry_offset_size in H1 as [E1 E2].
  rewrite E1, E2, No, Ns. simpl. congruence.
Qed.

(** The first row of a call is at the cursor the call starts from. *)
Lemma parse_rows_first ctx need fuel n unit b n' unit' b' (start : Z) :
  need COL_OFFSET = true ->
  parse_rows ctx need fuel n unit b = Ok (n', unit', b') ->
  last (offset unit :: col_offset b) 0 = start ->
  last (offset unit' :: col_offset b') 0 = start.
Proof.
  intros No H.
  apply (parse_rows_invariant ctx need
           (fun _ u b => last (offset u :: col_offset b) 0 = start))
    with (2 := H).
  intros ? u0 b0 u1 b1 HP H1.
  apply parseEntry_offset_size in H1 as [E1 _].
  rewrite E1, No. exact HP.
Qed.

Lemma parse_rows_below ctx need fuel n unit b n' unit' b' :
  advances ctx -> need COL_OFFSET = true ->
  parse_rows ctx need fuel n unit b = Ok (n', unit', b') ->
  below (offset unit) (col_offset b) ->
  below (offset unit') (col_offset b').
Proof.
  intros Ha No H.
  apply (parse_rows_invariant ctx need
           (fun _ u b => below (offset u) (col_offset b))) with (2 := H).
  intros ? u0 b0 u1 b1 HP H1.
  pose proof (parseEntry_unit _ _ _ _ _ _ H1) as (_ & _ & _ & Hlt).
  apply parseEntry_offset_size in H1 as [E1 _].
  rewrite E1, No. simpl. auto.
Qed.

Lemma parse_rows_start ctx need fuel n unit b n' unit' b' (start : Z) :
  advances ctx ->
  parse_rows ctx need fuel n unit b = Ok (n', unit', b') ->
  start <= offset unit /\ Forall (fun o => start <= o) (col_offset b) ->
  start <= offset unit' /\ Forall (fun o => start <= o) (col_offset b').
Proof.
  intros Ha H.
  apply (parse_rows_invariant ctx need
           (fun _ u b => start <= offset u /\
                         Forall (fun o => start <= o) (col_offset b)))
    with (2 := H).
  intros ? u0 b0 u1 b1 [HP1 HP2] H1.
  pose proof (parseEntry_unit _ _ _ _ _ _ H1) as (_ & _ & _ & Hlt).
  apply parseEntry_offset_size in H1 as [E1 _].
  specialize (Hlt Ha). rewrite E1. split; [lia|].
  destruct (need COL_OFFSET); auto.
Qed.

Lemma parse_rows_unit ctx need fuel n unit b n' unit' b' :
  parse_rows ctx need fuel n unit b = Ok (n', unit', b') ->
  dwarf_unit unit' = dwarf_unit unit /\ abbrevs unit' = abbrevs unit /\
  end_offset unit' = end_offset unit.
Proof.
  intros H.
  apply (parse_rows_invariant ctx need
           (fun _ u _ => dwarf_unit u = dwarf_unit unit /\
                         abbrevs u = abbrevs unit /\
                         end_offset u = end_offset unit)) with (2 := H);
    [|repeat split].
  intros ? u0 b0 u1 b1 (A & B & C) H1.
  apply parseEntry_unit in H1 as (A' & B' & C' & _).
  repeat split; congruence.
Qed.

(** One value per row in every column that has one value per row. *)
Lemma parse_rows_count ctx need fuel n unit b n' unit' b' :
  parse_rows ctx need fuel n unit b = Ok (n', unit', b') ->
  length (col_offset b) = (if need COL_OFFSET then n else 0)%nat /\
  length (col_size b) = (if need COL_SIZE then n else 0)%nat /\
  length (col_attr_offsets b) = (if need COL_ATTR_NAME then n else 0)%nat /\
  length (col_ancestor_array_offsets b) =
    (if need COL_ANCESTOR_TAGS then n else 0)%nat ->
  length (col_offset b') = (if need COL_OFFSET then n' else 0)%nat /\
  length (col_size b') = (if need COL_SIZE then n' else 0)%nat /\
  length (col_attr_offsets b') = (if need COL_ATTR_NAME then n' else 0)%nat /\
  length (col_ancestor_array_offsets b') =
    (if need COL_ANCESTOR_TAGS then n' else 0)%nat.
Proof.
  intros H.
  apply (parse_rows_invariant ctx need
           (fun n _ b =>
              length (col_offset b) = (if need COL_OFFSET then n else 0)%nat /\
              length (col_size b) = (if need COL_SIZE then n else 0)%nat /\
              length (col_attr_offsets b) =
                (if need COL_ATTR_NAME then n else 0)%nat /\
              length (col_ancestor_array_offsets b) =
                (if need COL_ANCESTOR_TAGS then n else 0)%nat))
    with (2 := H).
  intros k u0 b0 u1 b1 (A & B & C & D) H1.
  pose proof (parseEntry_offset_size _ _ _ _ _ _ H1) as [E1 E2].
  apply parseEntry_effect in H1
    as (m & _ & _ & _ & _ & T5 & _ & _ & _ & _ & T10).
  pose proof (row_head_effect need u0 b0)
    as (_ & _ & _ & _ & _ & _ & _ & R8 & _ & _ & R11).
  cbv zeta in R8, R11.
  rewrite E1, E2, T10, T5, R8, R11.
  destruct (need COL_OFFSET), (need COL_SIZE), (need COL_ATTR_NAME),
    (need COL_ANCESTOR_TAGS); simpl; repeat split; congruence.
Qed.

(** ** From the builders to the chunk *)

Lemma DwarfColumn_eqb_eq (a b : DwarfColumn) :
  DwarfColumn_eqb a b = true <-> a = b.
Proof.
  split.
  - destruct a, b; simpl; intros H; try discriminate; reflexivity.
  - intros ->. destruct b; reflexivity.
Qed.

Lemma column_of_map (f : DwarfColumn -> Column) header c :
  In c header -> column_of header (map f header) c = Some (f c).
Proof.
  induction header as [|h rest IH]; simpl; intros H; [contradiction|].
  destruct (DwarfColumn_eqb c h) eqn:E.
  - apply DwarfColumn_eqb_eq in E. subst. reflexivity.
  - destruct H as [->|H]; [|auto].
    assert (DwarfColumn_eqb c c = true) by (apply DwarfColumn_eqb_eq; auto).
    congruence.
Qed.

Lemma need_of_header_In header c :
  need_of_header header c = true <-> In c header.
Proof.
  unfold need_of_header. rewrite existsb_exists. split.
  - intros (x & Hx & E). apply DwarfColumn_eqb_eq in E. subst. exact Hx.
  - intros H. exists c. split; [exact H|]. apply DwarfColumn_eqb_eq. auto.
Qed.

Lemma propagate_need_In header c :
  In c header -> propagate_need (need_of_header header) c = true.
Proof.
  intros H. apply need_of_header_In in H.
  unfold propagate_need.
  destruct c; try exact H; rewrite H;
    repeat match goal with |- context [if ?x then _ else _] => destruct x end;
    reflexivity.
Qed.

Arguments built_column unit b num_rows !c /.

Lemma assemble_column_cases unit b n c :
  (c = COL_DECL_FILE /\ filename_table unit = None /\
   assemble_column unit b n c = Undefined) \/
  ((c = COL_DECL_FILE -> exists table, filename_table unit = Some table) /\
   assemble_column unit b n c = Ok (built_column unit b n c)).
Proof.
  destruct c; try (right; split; [discriminate|reflexivity]).
  unfold built_column. simpl.
  destruct (filename_table unit) as [table|].
  - right. split; [eauto|reflexivity].
  - left. auto.
Qed.

Lemma assemble_columns_cases unit b n header :
  (In COL_DECL_FILE header /\ filename_table unit = None /\
   assemble_columns unit b n header = Undefined) \/
  ((In COL_DECL_FILE header -> exists table, filename_table unit = Some table)
   /\ assemble_columns unit b n header
      = Ok (map (built_column unit b n) header)).
Proof.
  induction header as [|c rest IH]; [right; split; [contradiction|reflexivity]|].
  cbn [assemble_columns map].
  destruct (assemble_column_cases unit b n c) as [(Ec & Ht & ->)|[Hc ->]].
  - left. split; [left; exact Ec|]. split; [exact Ht|reflexivity].
  - destruct IH as [(Hi & Ht & ->)|[Hr ->]].
    + left. split; [right; exact Hi|]. split; [exact Ht|reflexivity].
    + right. split; [|reflexivity].
      intros [E|Hi]; [apply Hc; exact E|apply Hr; exact Hi].
Qed.

Lemma parseEntries_inv ctx header unit chunk unit' :
  parseEntries ctx header unit = Ok (chunk, unit') ->
  exists n b,
    parse_rows ctx (propagate_need (need_of_header header)) MAX_ROWS 0 unit
      empty_builders = Ok (n, unit', b) /\
    chunk = mkChunk (map (built_column unit' b n) header) n.
Proof.
  unfold parseEntries. intros H.
  apply bind_Ok in H as ([[n u] b] & H1 & H2).
  destruct (assemble_columns_cases u b n header) as [(_ & _ & E)|[_ E]];
    rewrite E in H2; simpl in H2; [discriminate|].
  inv H2. eauto.
Qed.

(** A call that returns with [decl_file] requested has the filename table
    of the unit. *)
Lemma parseEntries_table ctx header unit chunk unit' :
  parseEntries ctx header unit = Ok (chunk, unit') ->
  In COL_DECL_FILE header ->
  exists table, filename_table unit' = Some table.
Proof.
  unfold parseEntries. intros H Hi.
  apply bind_Ok in H as ([[n u] b] & H1 & H2).
  destruct (assemble_columns_cases u b n header) as [(_ & _ & E)|[Ht E]];
    rewrite E in H2; simpl in H2; [discriminate|].
  inv H2. auto.
Qed.

(** The distances of a column in row order. *)
Lemma gaps_snoc offsets o next :
  gaps (offsets ++ [o]) next = gaps offsets o ++ [next - o].
Proof.
  induction offsets as [|a rest IH]; simpl; [reflexivity|].
  rewrite IH. destruct rest; reflexivity.
Qed.

Lemma gaps_rev next offsets :
  gaps (rev offsets) next = rev (dist next offsets).
Proof.
  revert next. induction offsets as [|o os IH]; intros next; simpl;
    [reflexivity|].
  rewrite gaps_snoc, IH. reflexivity.
Qed.

Lemma gaps_app l1 l2 next :
  l2 <> [] -> gaps (l1 ++ l2) next = gaps l1 (hd 0 l2) ++ gaps l2 next.
Proof.
  intros Hne. induction l1 as [|a rest IH]; simpl; [reflexivity|].
  rewrite IH. destruct rest; simpl; [|reflexivity].
  destruct l2; [contradiction|reflexivity].
Qed.

Lemma sum_app l1 l2 : sum (l1 ++ l2) = sum l1 + sum l2.
Proof.
  unfold sum. induction l1; simpl; lia.
Qed.

Lemma sum_gaps o rest next : sum (gaps (o :: rest) next) = next - o.
Proof.
  revert o. induction rest as [|a rest IH]; intros o.
  - unfold sum. simpl. lia.
  - change (sum (gaps (o :: a :: rest) next))
      with ((a - o) + sum (gaps (a :: rest) next)).
    rewrite IH. lia.
Qed.

Lemma map_to_UInt32_short l :
  Forall (fun d => 0 <= d < 2 ^ 32) l -> map to_UInt32 l = l.
Proof.
  induction 1 as [|d l Hd _ IH]; simpl; [reflexivity|].
  rewrite IH. f_equal. unfold to_UInt32. apply Z.mod_small. exact Hd.
Qed.

Lemma hd_rev_last (l : list Z) : hd 0 (rev l) = last l 0.
Proof.
  induction l as [|a l IH]; simpl; [reflexivity|].
  destruct l as [|b l]; [reflexivity|].
  simpl in *. destruct (rev l ++ [b]) eqn:E; simpl in *.
  - destruct (rev l); discriminate.
  - exact IH.
Qed.

Lemma empty_counts (need : Need) :
  length (col_offset empty_builders) = (if need COL_OFFSET then 0 else 0)%nat /\
  length (col_size empty_builders) = (if need COL_SIZE then 0 else 0)%nat /\
  length (col_attr_offsets empty_builders) =
    (if need COL_ATTR_NAME then 0 else 0)%nat /\
  length (col_ancestor_array_offsets empty_builders) =
    (if need COL_ANCESTOR_TAGS then 0 else 0)%nat.
Proof.
  destruct (need COL_OFFSET), (need COL_SIZE), (need COL_ATTR_NAME),
    (need COL_ANCESTOR_TAGS); repeat split.
Qed.

(** The offset and size columns of a chunk, read off the builders. *)
Lemma parseEntries_offset_size ctx header unit chunk unit' :
  In COL_OFFSET header -> In COL_SIZE header ->
  parseEntries ctx header unit = Ok (chunk, unit') ->
  exists offsets,
    column_of header (getColumns chunk) COL_OFFSET =
      Some (ColumnVector offsets) /\
    column_of header (getColumns chunk) COL_SIZE =
      Some (ColumnVector (map to_UInt32 (gaps offsets (offset unit')))) /\
    length offsets = getNumRows chunk /\
    (1 <= getNumRows chunk)%nat /\
    hd 0 offsets = offset unit /\
    end_offset unit' = end_offset unit.
Proof.
  intros Io Is H.
  apply parseEntries_inv in H as (n & b & H & ->).
  pose proof (propagate_need_In _ _ Io) as No.
  pose proof (propagate_need_In _ _ Is) as Ns.
  exists (rev (col_offset b)). simpl.
  rewrite !column_of_map by assumption. simpl.
  rewrite !in_row_order_rev.
  pose proof (parse_rows_sizes _ _ _ _ _ _ _ _ _ No Ns H eq_refl) as Hs.
  pose proof (parse_rows_first _ _ _ _ _ _ _ _ _ (offset unit) No H eq_refl)
    as Hf.
  pose proof (parse_rows_count _ _ _ _ _ _ _ _ _ H (empty_counts _)) as Hc.
  rewrite No in Hc. destruct Hc as (Hc & _).
  pose proof (parse_rows_exit _ _ _ _ _ _ _ _ _ H) as (_ & Hpos & _).
  pose proof (parse_rows_unit _ _ _ _ _ _ _ _ _ H) as (_ & _ & He).
  assert (Hn : (1 <= n)%nat).
  { pose proof MAX_ROWS_value. lia. }
  split; [reflexivity|].
  split; [rewrite Hs, gaps_rev, map_rev; reflexivity|].
  split; [rewrite length_rev; exact Hc|].
  split; [exact Hn|]. split; [|exact He].
  rewrite hd_rev_last.
  destruct (col_offset b) as [|o os] eqn:Eo; [simpl in Hc; lia|].
  exact Hf.
Qed.

Lemma parseEntries_chunk_columns ctx header unit chunk unit' :
  In COL_OFFSET header -> In COL_SIZE header ->
  parseEntries ctx header unit = Ok (chunk, unit') ->
  let offsets := chunk_column header chunk COL_OFFSET in
  let sizes := chunk_column header chunk COL_SIZE in
  length offsets = getNumRows chunk /\
  (1 <= getNumRows chunk)%nat /\
  hd 0 offsets = offset unit /\
  sizes = map to_UInt32 (gaps offsets (offset unit')) /\
  end_offset unit' = end_offset unit.
Proof.
  intros Io Is H.
  destruct (parseEntries_offset_size _ _ _ _ _ Io Is H)
    as (offsets & E1 & E2 & Hl & Hn & Hh & He).
  unfold chunk_column. rewrite E1, E2. simpl. auto.
Qed.

Lemma eof_offset unit : eof unit = true -> offset unit = end_offset unit.
Proof. unfold eof. apply Z.eqb_eq. Qed.

Lemma decode_unit_step ctx header fuel unit :
  decode_unit ctx header (S fuel) unit =
  match parseEntries ctx header unit with
  | Ok (chunk, unit') =>
      if eof unit' then Some ([chunk], unit')
      else
        match decode_unit ctx header fuel unit' with
        | Some (chunks, final) => Some (chunk :: chunks, final)
        | None => None
        end
  | _ => None
  end.
Proof. reflexivity. Qed.

(** All the chunks of a unit decoded to its end. *)
Lemma decode_unit_columns ctx header :
  In COL_OFFSET header -> In COL_SIZE header ->
  forall fuel unit chunks final,
    decode_unit ctx header fuel unit = Some (chunks, final) ->
    let offsets := flat_map (fun c => chunk_column header c COL_OFFSET) chunks in
    let sizes := flat_map (fun c => chunk_column header c COL_SIZE) chunks in
    offsets <> [] /\ hd 0 offsets = offset unit /\
    sizes = map to_UInt32 (gaps offsets (end_offset unit)) /\
    eof final = true /\ end_offset final = end_offset unit.
Proof.
  intros Io Is. induction fuel as [|fuel IH]; intros unit chunks final H;
    [discriminate|].
  rewrite decode_unit_step in H.
  destruct (parseEntries ctx header unit) as [[chunk unit1]| |] eqn:Hp;
    try discriminate.
  destruct (parseEntries_chunk_columns _ _ _ _ _ Io Is Hp)
    as (Hl & Hn & Hh & Hs & He).
  assert (Hne : chunk_column header chunk COL_OFFSET <> []).
  { intros E. rewrite E in Hl. simpl in Hl. lia. }
  destruct (eof unit1) eqn:Ee.
  - inv H. simpl. rewrite !app_nil_r.
    apply eof_offset in Ee. rewrite Hs, Ee, He.
    repeat split; auto. unfold eof. apply Z.eqb_eq. congruence.
  - destruct (decode_unit ctx header fuel unit1) as [[chunks1 final1]|] eqn:Hd;
      [|discriminate].
    inv H. apply IH in Hd as (Hne1 & Hh1 & Hs1 & Hf & He1).
    simpl. split.
    { intros E. apply app_eq_nil in E as [E _]. contradiction. }
    split.
    { destruct (chunk_column header chunk COL_OFFSET); [contradiction|].
      exact Hh. }
    split; [|split; congruence].
    rewrite gaps_app by assumption.
    rewrite map_app, Hs, Hs1, Hh1, He. reflexivity.
Qed.

(** ** C5: the size column *)

(** C5 (as amended).  With the offset and size columns requested, every
    row's [size] is the distance from its offset to the next offset, cut to
    32 bits: the next row's offset inside the chunk, the cursor behind the
    chunk for its last row, which is the unit's [end_offset] once the unit is
    at its end.  For a unit decoded to its end the sizes of all its rows are
    these distances up to [end_offset], and they add up to
    [end_offset - first DIE offset] when every distance is below [2 ^ 32]. *)
Theorem size_is_distance_mod_2_32 ctx header unit chunk unit' :
  In COL_OFFSET header -> In COL_SIZE header ->
  parseEntries ctx header unit = Ok (chunk, unit') ->
  (let offsets := chunk_column header chunk COL_OFFSET in
   let sizes := chunk_column header chunk COL_SIZE in
   length offsets = getNumRows chunk /\
   hd 0 offsets = offset unit /\
   sizes = map to_UInt32 (gaps offsets (offset unit')) /\
   (eof unit' = true -> offset unit' = end_offset unit)) /\
  (forall fuel chunks final,
      decode_unit ctx header fuel unit = Some (chunks, final) ->
      let offsets :=
        flat_map (fun c => chunk_column header c COL_OFFSET) chunks in
      let sizes := flat_map (fun c => chunk_column header c COL_SIZE) chunks in
      sizes = map to_UInt32 (gaps offsets (end_offset unit)) /\
      (Forall (fun d => 0 <= d < 2 ^ 32) (gaps offsets (end_offset unit)) ->
       sizes = gaps offsets (end_offset unit) /\
       sum sizes = end_offset unit - offset unit)).
Proof.
  intros Io Is H. split.
  - destruct (parseEntries_chunk_columns _ _ _ _ _ Io Is H)
      as (Hl & Hn & Hh & Hs & He).
    cbv zeta. repeat split; auto.
    intros Ee. apply eof_offset in Ee. congruence.
  - intros fuel chunks final Hd.
    destruct (decode_unit_columns _ _ Io Is _ _ _ _ Hd)
      as (Hne & Hh & Hs & _ & _).
    cbv zeta. split; [exact Hs|].
    intros Hshort. rewrite Hs, map_to_UInt32_short by assumption.
    split; [reflexivity|].
    destruct (flat_map (fun c => chunk_column header c COL_OFFSET) chunks)
      as [|o rest]; [contradiction|].
    rewrite sum_gaps. simpl in Hh. lia.
Qed.

(** ** C9: the row cap and the order of offsets *)

Lemma StronglySorted_snoc (l : list Z) (x : Z) :
  StronglySorted Z.lt l -> Forall (fun o => o < x) l ->
  StronglySorted Z.lt (l ++ [x]).
Proof.
  induction 1 as [|a l Hs IH Ha]; intros Hx; simpl.
  - constructor; constructor.
  - inv Hx. constructor; [auto|].
    apply Forall_app. split; [exact Ha|]. constructor; [assumption|constructor].
Qed.

Lemma below_sorted next offsets :
  below next offsets ->
  StronglySorted Z.lt (rev offsets) /\ Forall (fun o => o < next) offsets.
Proof.
  revert next. induction offsets as [|o os IH]; intros next H; simpl.
  - split; constructor.
  - destruct H as [Hlt Hb]. apply IH in Hb as [Hs Hf]. split.
    + apply StronglySorted_snoc; [exact Hs|].
      apply Forall_rev. exact Hf.
    + constructor; [exact Hlt|].
      eapply Forall_impl; [|exact Hf]. simpl. intros; lia.
Qed.

Lemma parseEntries_offsets_window ctx header unit chunk unit' :
  advances ctx -> In COL_OFFSET header ->
  parseEntries ctx header unit = Ok (chunk, unit') ->
  let offsets := chunk_column header chunk COL_OFFSET in
  length offsets = getNumRows chunk /\
  StronglySorted Z.lt offsets /\
  Forall (fun o => offset unit <= o < offset unit') offsets.
Proof.
  intros Ha Io H.
  apply parseEntries_inv in H as (n & b & H & ->).
  pose proof (propagate_need_In _ _ Io) as No.
  unfold chunk_column. simpl. rewrite column_of_map by assumption. simpl.
  rewrite in_row_order_rev.
  pose proof (parse_rows_below _ _ _ _ _ _ _ _ _ Ha No H I) as Hb.
  apply below_sorted in Hb as [Hs Hf].
  destruct (parse_rows_start _ _ _ _ _ _ _ _ _ (offset unit) Ha H)
    as [_ Hst]; [split; [lia|constructor]|].
  pose proof (parse_rows_count _ _ _ _ _ _ _ _ _ H (empty_counts _)) as Hc.
  rewrite No in Hc. destruct Hc as (Hc & _).
  split; [rewrite length_rev; exact Hc|]. split; [exact Hs|].
  apply Forall_rev. rewrite Forall_forall in *.
  intros o Ho. specialize (Hf o Ho). specialize (Hst o Ho).
  cbv beta in Hf, Hst. lia.
Qed.

(** C9.  A call of [parseEntries] that returns gives a chunk of at least one
    and at most 65536 rows; it stops before the cap only with the stack
    empty and the unit at its end; behind the lock the worker puts a unit
    that is not at its end back at the front of the queue; the offsets of the
    chunk increase strictly between the cursor the call started from and the
    cursor it left, so the rows of the next chunk of the unit, which starts
    from that cursor, all come after them. *)
Theorem chunks_of_a_unit ctx header unit chunk unit' :
  advances ctx ->
  parseEntries ctx header unit = Ok (chunk, unit') ->
  (1 <= Z.of_nat (getNumRows chunk) <= 65536) /\
  (Z.of_nat (getNumRows chunk) < 65536 ->
   stack unit' = [] /\ eof unit' = true) /\
  (forall before s,
      units_queue (publish chunk before unit' s) =
      if eof unit' then units_queue s else unit' :: units_queue s) /\
  (In COL_OFFSET header ->
   let offsets := chunk_column header chunk COL_OFFSET in
   length offsets = getNumRows chunk /\
   StronglySorted Z.lt offsets /\
   Forall (fun o => offset unit <= o < offset unit') offsets /\
   forall chunk2 unit2,
     parseEntries ctx header unit' = Ok (chunk2, unit2) ->
     forall o1 o2,
       In o1 offsets -> In o2 (chunk_column header chunk2 COL_OFFSET) ->
       o1 < o2).
Proof.
  intros Ha H.
  pose proof H as H0.
  apply parseEntries_inv in H0 as (n & b & Hr & ->). simpl.
  pose proof (parse_rows_exit _ _ _ _ _ _ _ _ _ Hr) as (Hle & Hpos & Hend).
  pose proof MAX_ROWS_value as HM.
  split; [lia|]. split; [intros Hlt; apply Hend; lia|]. split.
  - intros before s. unfold publish.
    destruct (eof unit'); simpl;
      destruct (chunk_nonempty _); reflexivity.
  - intros Io.
    destruct (parseEntries_offsets_window _ _ _ _ _ Ha Io H) as (A & B & C).
    cbv zeta. repeat split; auto.
    intros chunk2 unit2 H2 o1 o2 I1 I2.
    destruct (parseEntries_offsets_window _ _ _ _ _ Ha Io H2) as (_ & _ & C2).
    rewrite Forall_forall in C, C2.
    specialize (C _ I1). specialize (C2 _ I2). cbv beta in C, C2. lia.
Qed.

(** ** The sample inputs are well formed *)

Lemma lookup_In {A : Type} (table : list (Z * A)) k a :
  lookup table k = Some a -> In (k, a) table.
Proof.
  induction table as [|[k' a'] rest IH]; simpl; [discriminate|].
  destruct (k =? k') eqn:E.
  - intros H. inv H. apply Z.eqb_eq in E. subst. auto.
  - auto.
Qed.

Lemma table_context_advances headers values prologues :
  Forall (fun e => fst e < snd (snd e)) headers ->
  Forall (fun e => fst e <= snd (snd e)) values ->
  advances (table_context headers values prologues).
Proof.
  intros Hh Hv. rewrite Forall_forall in Hh, Hv. split; simpl.
  - intros off v off' H. apply lookup_In in H. apply Hh in H. exact H.
  - intros _ _ _ off val off' H. apply lookup_In in H. apply Hv in H. exact H.
Qed.

Lemma sample_context_advances version : advances (sample_context version).
Proof.
  apply table_context_advances; repeat constructor; simpl; lia.
Qed.

Lemma bare_context_advances : advances bare_context.
Proof.
  apply table_context_advances; repeat constructor; simpl; lia.
Qed.

Lemma size_is_distance_mod_2_32_witness :
  exists chunk unit',
    parseEntries (sample_context 5) all_columns sample_unit
      = Ok (chunk, unit') /\
    In COL_OFFSET all_columns /\ In COL_SIZE all_columns /\
    chunk_column all_columns chunk COL_OFFSET = [0x100b; 0x1016; 0x1023] /\
    chunk_column all_columns chunk COL_SIZE = [11; 13; 1] /\
    decode_unit (sample_context 5) all_columns 1 sample_unit
      = Some ([chunk], unit') /\
    sum (chunk_column all_columns chunk COL_SIZE) = 0x1024 - 0x100b.
Proof.
  eexists. eexists.
  match goal with
  | |- ?A /\ _ => assert (Hp : A) by (vm_compute; reflexivity)
  end.
  assert (Io : In COL_OFFSET all_columns) by (simpl; auto).
  assert (Is : In COL_SIZE all_columns) by (simpl; tauto).
  split; [exact Hp|]. split; [exact Io|]. split; [exact Is|].
  destruct (size_is_distance_mod_2_32 _ _ _ _ _ Io Is Hp)
    as [(_ & _ & Hs & _) Hu].
  split; [vm_compute; reflexivity|].
  split; [rewrite Hs; vm_compute; reflexivity|].
  match goal with
  | |- ?A /\ _ => assert (Hd : A) by (vm_compute; reflexivity)
  end.
  split; [exact Hd|].
  assert (Hshort : Forall (fun d => 0 <= d < 2 ^ 32) [11; 13; 1])
    by (repeat constructor; lia).
  exact (proj2 (proj2 (Hu _ _ _ Hd) Hshort)).
Defined.

(** The claim as written fails on a DIE of four gigabytes: the last row of
    the unit has size 4, its distance to [end_offset] is [2 ^ 32 + 4]. *)
Lemma size_is_distance_counterexample :
  exists chunk unit',
    parseEntries huge_context [COL_OFFSET; COL_SIZE] huge_unit
      = Ok (chunk, unit') /\
    eof unit' = true /\
    chunk_column [COL_OFFSET; COL_SIZE] chunk COL_OFFSET = [11] /\
    chunk_column [COL_OFFSET; COL_SIZE] chunk COL_SIZE = [4] /\
    4 <> end_offset huge_unit - 11.
Proof.
  eexists. eexists.
  split; [vm_compute; reflexivity|].
  repeat split; try (vm_compute; congruence).
Qed.

Lemma chunks_of_a_unit_witness :
  exists chunk unit',
    advances (sample_context 5) /\
    parseEntries (sample_context 5) all_columns sample_unit
      = Ok (chunk, unit') /\
    getNumRows chunk = 3%nat /\
    StronglySorted Z.lt (chunk_column all_columns chunk COL_OFFSET) /\
    stack unit' = [] /\ eof unit' = true.
Proof.
  eexists. eexists.
  pose proof (sample_context_advances 5) as Ha.
  split; [exact Ha|].
  match goal with
  | |- ?A /\ _ => assert (Hp : A) by (vm_compute; reflexivity)
  end.
  split; [exact Hp|].
  destruct (chunks_of_a_unit _ _ _ _ _ Ha Hp) as (_ & He & _ & Ho).
  split; [reflexivity|].
  destruct Ho as (_ & Hs & _); [simpl; auto|].
  split; [exact Hs|]. apply He. simpl. lia.
Defined.

(** A unit of 65538 rows comes out as a chunk of 65536 rows, which leaves
    the unit short of its end, and a chunk of the last two rows, whose
    offsets follow those of the first. *)
Example long_unit_two_chunks :
  two_calls long_context [COL_OFFSET] long_unit
  = Some (65536, false, 11 + 65535, 11 + 65536, 2, true).
Proof. with_strategy transparent [MAX_ROWS] lazy. reflexivity. Qed.

(** The sample unit, all columns requested: three rows, the subprogram
    below the unit DIE, then the terminator. *)
Example sample_unit_rows :
  exists chunk unit',
    parseEntries (sample_context 5) all_columns sample_unit
      = Ok (chunk, unit') /\
    getNumRows chunk = 3%nat /\
    column_of all_columns (getColumns chunk) COL_TAG
      = Some (ColumnLowCardinality (Some tag_dict_column)
                [DW_TAG_compile_unit; 0x2e; 0]) /\
    column_of all_columns (getColumns chunk) COL_NAME
      = Some (ColumnString ["a.c"; "main"; EmptyString]%string) /\
    column_of all_columns (getColumns chunk) COL_ANCESTOR_OFFSETS
      = Some (ColumnArray (ColumnVector [0x100b; 0x100b]) [0; 1; 2]) /\
    column_of all_columns (getColumns chunk) COL_ATTR_INT
      = Some (ColumnArray (ColumnVector [0; 0; 4; 0; 0; 7; 0x1010; 5])
                [3; 8; 8]) /\
    unit_name unit' = "a.c"%string.
Proof.
  eexists. eexists.
  split; [vm_compute; reflexivity|].
  repeat split; reflexivity.
Qed.

(** ** C7: the terminator row *)

Lemma push_ancestors_frame need st :
  forall b,
    let b' := push_ancestors need st b in
    col_tag b' = col_tag b /\ col_name b' = col_name b /\
    col_linkage_name b' = col_linkage_name b /\
    col_decl_line b' = col_decl_line b.
Proof.
  unfold push_ancestors.
  induction st as [|e st IH]; intros b; simpl; [repeat split|].
  specialize (IH (if need COL_ANCESTOR_OFFSETS
                  then push_ancestor_dwarf_offsets (StackEntry.offset e)
                         (push_ancestor_tags (StackEntry.tag e) b)
                  else push_ancestor_tags (StackEntry.tag e) b)).
  simpl in IH. destruct IH as (H1 & H2 & H3 & H4).
  rewrite H1, H2, H3, H4.
  destruct (need COL_ANCESTOR_OFFSETS); repeat split.
Qed.

Lemma row_head_frame need unit b :
  let b' := row_head need unit b in
  col_tag b' = col_tag b /\ col_name b' = col_name b /\
  col_linkage_name b' = col_linkage_name b /\
  col_decl_line b' = col_decl_line b.
Proof.
  unfold row_head.
  destruct (need COL_ANCESTOR_TAGS); cbv zeta.
  - pose proof (push_ancestors_frame need (stack unit)
                  (if need COL_OFFSET then push_offset (offset unit) b
                   else b)) as H.
    cbv zeta in H. destruct H as (H1 & H2 & H3 & H4).
    simpl. rewrite H1, H2, H3, H4.
    destruct (need COL_OFFSET); repeat split.
  - destruct (need COL_OFFSET); repeat split.
Qed.

(** C7.  When the abbreviation code read is 0, the row is the terminator:
    tag 0, empty name and linkage name, [decl_file] index 0, [decl_line] 0,
    and an attribute slot that ends where it starts, the attribute columns
    untouched and the cursor just behind the code; then the stack is popped,
    and the call throws "Stack underflow" exactly when the stack is empty. *)
Theorem terminator_row ctx need unit b off :
  getULEB128 ctx (offset unit) = Some (0, off) ->
  (parseEntry ctx need unit b = Throw (CANNOT_PARSE_DWARF "Stack underflow")
   <-> stack unit = []) /\
  (forall e rest,
      stack unit = e :: rest ->
      exists b',
        parseEntry ctx need unit b
          = Ok (set_stack rest (set_offset off unit), b') /\
        col_tag b' = (if need COL_TAG then 0 :: col_tag b else col_tag b) /\
        col_name b' =
          (if need COL_NAME then EmptyString :: col_name b else col_name b) /\
        col_linkage_name b' =
          (if need COL_LINKAGE_NAME then EmptyString :: col_linkage_name b
           else col_linkage_name b) /\
        col_decl_file b' =
          (if need COL_DECL_FILE then 0 :: col_decl_file b
           else col_decl_file b) /\
        col_decl_line b' =
          (if need COL_DECL_LINE then 0 :: col_decl_line b
           else col_decl_line b) /\
        col_size b' =
          (if need COL_SIZE then to_UInt32 (off - offset unit) :: col_size b
           else col_size b) /\
        (col_attr_name b' = col_attr_name b /\
         col_attr_form b' = col_attr_form b /\
         col_attr_int b' = col_attr_int b /\
         col_attr_str b' = col_attr_str b) /\
        col_attr_offsets b' =
          (if need COL_ATTR_NAME
           then Z.of_nat (length (col_attr_name b)) :: col_attr_offsets b
           else col_attr_offsets b)).
Proof.
  intros Hl.
  assert (Hp : parseEntry ctx need unit b =
               parseNull need (offset unit) (set_offset off unit)
                 (row_head need unit b)).
  { unfold parseEntry. fold (row_head need unit b). rewrite Hl.
    reflexivity. }
  rewrite Hp. unfold parseNull. simpl stack. split.
  - destruct (stack unit); split; intros H;
      try reflexivity; discriminate.
  - intros e rest ->. eexists. split; [reflexivity|].
    pose proof (row_head_effect need unit b)
      as (_ & E2 & E3 & E4 & E5 & E6 & E7 & E8 & _).
    pose proof (row_head_frame need unit b) as (F1 & F2 & F3 & F4).
    cbv zeta in *. rewrite to_UInt32_size. simpl offset.
    destruct (need COL_SIZE), (need COL_TAG), (need COL_NAME),
      (need COL_LINKAGE_NAME), (need COL_DECL_FILE), (need COL_DECL_LINE),
      (need COL_ATTR_NAME); simpl;
      rewrite ?E2, ?E3, ?E4, ?E5, ?E6, ?E7, ?E8, ?F1, ?F2, ?F3, ?F4;
      repeat split; reflexivity.
Qed.

Lemma terminator_row_witness :
  getULEB128 (sample_context 5) 0x1023 = Some (0, 0x1024) /\
  exists b',
    parseEntry (sample_context 5) (need_of_header all_columns)
      (set_stack [StackEntry.mk 0x100b DW_TAG_compile_unit]
         (set_offset 0x1023 sample_unit))
      empty_builders
    = Ok (set_stack [] (set_offset 0x1024 sample_unit), b') /\
    col_tag b' = [0] /\ col_name b' = [EmptyString] /\
    col_decl_file b' = [0] /\ col_attr_name b' = [] /\
    col_attr_offsets b' = [0].
Proof.
  assert (Hl : getULEB128 (sample_context 5) 0x1023 = Some (0, 0x1024))
    by reflexivity.
  split; [exact Hl|].
  destruct (terminator_row (sample_context 5) (need_of_header all_columns)
              (set_stack [StackEntry.mk 0x100b DW_TAG_compile_unit]
                 (set_offset 0x1023 sample_unit))
              empty_builders 0x1024 Hl) as [_ H].
  destruct (H (StackEntry.mk 0x100b DW_TAG_compile_unit) [] eq_refl)
    as (b' & Hp & Ht & Hn & _ & Hf & _ & _ & (Ha & _) & Ho).
  exists b'. repeat split; assumption.
Defined.

(** ** C6: declared form, extracted value *)

Lemma getDataAt_nth table idx s :
  getDataAt table idx = Ok s ->
  match table with
  | Some col => nth (Z.to_nat idx) col EmptyString
  | None => EmptyString
  end = s.
Proof.
  unfold getDataAt. destruct table as [col|]; [|discriminate].
  destruct (nth_error col (Z.to_nat idx)) as [x|] eqn:E; [|discriminate].
  intros H. inv H. apply nth_error_nth. exact E.
Qed.

(** What the [switch] appends to [attr_str]. *)
Lemma project_value_attr_str ctx need tag attr val unit b p unit' b' p' :
  project_value ctx need tag attr val (unit, b, p) = Ok (unit', b', p') ->
  col_attr_str b' =
    (if need COL_ATTR_STR
     then spec_attr_str ctx unit attr val :: col_attr_str b
     else col_attr_str b).
Proof.
  unfold project_value, spec_attr_str. intros H.
  destruct (form_group (getForm val)).
  - unfold project_integer in H. cbv zeta.
    destruct (((Attr attr =? DW_AT_decl_file)
               || (Attr attr =? DW_AT_call_file))
              && (getRawUValue val <? filename_table_size unit)).
    + destruct (need COL_ATTR_STR).
      * destruct (getDataAt (filename_table unit)
                    (to_UInt64 (getRawUValue val + 1))) as [data| |] eqn:Eg;
          cases_in H; inv H; simpl;
          rewrite (getDataAt_nth _ _ _ Eg); cases_in Eg;
          destruct (need COL_ATTR_INT); reflexivity.
      * cases_in H; inv H; destruct (need COL_ATTR_INT); reflexivity.
    + destruct (need COL_ATTR_STR);
        cases_in H; inv H; destruct (need COL_ATTR_INT); reflexivity.
  - unfold project_address in H. inv H.
    destruct (need COL_ATTR_INT), (need COL_ATTR_STR); reflexivity.
  - unfold project_block in H. inv H.
    destruct (need COL_ATTR_INT), (need COL_ATTR_STR); reflexivity.
  - unfold project_string in H.
    destruct (getAsCString val) as [res|]; [|discriminate].
    cases_in H; inv H;
      destruct (need COL_ATTR_INT), (need COL_ATTR_STR); reflexivity.
  - unfold project_reference in H. inv H.
    destruct (need COL_ATTR_INT), (need COL_ATTR_STR); reflexivity.
  - unfold project_default in H. inv H.
    destruct (need COL_ATTR_INT), (need COL_ATTR_STR); reflexivity.
Qed.

(** C6.  For every attribute the decoder gets through, [attr_form] receives
    the code of the form the abbreviation declares, whatever the form of the
    extracted value, while the two value columns are filled by the [switch]
    on the form of the value extracted, whatever form was declared:
    [attr_int] and [attr_str] receive the projections of the spec's table
    for the form class of the extracted value. *)
Theorem attr_form_is_declared_form ctx need tag attr unit b p unit' b' p' :
  parseAttribute ctx need tag attr (unit, b, p) = Ok (unit', b', p') ->
  exists val off,
    extractValue ctx (dwarf_unit unit) (Form_ attr)
      (if isImplicitConst attr then getImplicitConstValue attr else 0)
      (offset unit) = Some (val, off) /\
    col_attr_form b' =
      (if need COL_ATTR_FORM then form_code (Form_ attr) :: col_attr_form b
       else col_attr_form b) /\
    col_attr_int b' =
      (if need COL_ATTR_INT
       then spec_attr_int (dwarf_unit unit) val :: col_attr_int b
       else col_attr_int b) /\
    col_attr_str b' =
      (if need COL_ATTR_STR
       then spec_attr_str ctx unit' attr val :: col_attr_str b
       else col_attr_str b).
Proof.
  intros H.
  pose proof (parseAttribute_effect _ _ _ _ _ _ _ _ _ _ H)
    as (val & off & He & _ & _ & _ & Hf & Hi & _).
  exists val, off. split; [exact He|]. split; [exact Hf|]. split; [exact Hi|].
  unfold parseAttribute in H. rewrite He in H.
  apply bind_Ok in H as (unit1 & _ & H).
  pose proof (project_value_effect _ _ _ _ _ _ _ _ _ _ _ H)
    as ((_ & _ & _ & _ & _ & Et & Es) & _).
  apply project_value_attr_str in H. rewrite H.
  unfold spec_attr_str. rewrite Et, Es.
  destruct (need COL_ATTR_STR), (need COL_ATTR_NAME), (need COL_ATTR_FORM);
    reflexivity.
Qed.

(** Two attributes declared [DW_FORM_indirect]: one whose value has form
    [DW_FORM_data1], where the form column gets 0x16, the integer column 5
    and the string column the default; one whose value has form
    [DW_FORM_string], where the form column gets 0x16 again, the integer
    column the default and the string column the string. *)
Lemma attr_form_is_declared_form_witness :
  (exists unit' b' p',
      parseAttribute (sample_context 5) (need_of_header all_columns) 0x2e
        (attribute 0x02 DW_FORM_indirect)
        (set_offset 0x1021 sample_unit, empty_builders,
         mkPending true true true true) = Ok (unit', b', p') /\
      col_attr_form b' = [0x16] /\ col_attr_int b' = [5] /\
      col_attr_str b' = [EmptyString]) /\
  (exists unit' b' p',
      parseAttribute (sample_context 5) (need_of_header all_columns) 0x2e
        (attribute 0x02 DW_FORM_indirect)
        (set_offset 0x100c sample_unit, empty_builders,
         mkPending true true true true) = Ok (unit', b', p') /\
      col_attr_form b' = [0x16] /\ col_attr_int b' = [0] /\
      col_attr_str b' = ["a.c"%string]).
Proof.
  split.
  - eexists. eexists. eexists.
    match goal with
    | |- ?A /\ _ => assert (Hp : A) by (vm_compute; reflexivity)
    end.
    split; [exact Hp|].
    destruct (attr_form_is_declared_form _ _ _ _ _ _ _ _ _ _ Hp)
      as (val & off & He & Hf & Hi & Hs).
    split; [exact Hf|].
    vm_compute in He. inv He. split; [exact Hi|exact Hs].
  - eexists. eexists. eexists.
    match goal with
    | |- ?A /\ _ => assert (Hp : A) by (vm_compute; reflexivity)
    end.
    split; [exact Hp|].
    destruct (attr_form_is_declared_form _ _ _ _ _ _ _ _ _ _ Hp)
      as (val & off & He & Hf & Hi & Hs).
    split; [exact Hf|].
    vm_compute in He. inv He. split; [exact Hi|exact Hs].
Defined.

(** ** C4: references *)

Lemma reference_target (u : DWARFUnit) (val : DWARFFormValue) :
  form_group (getForm val) = ReferenceForm ->
  getAsReference u val =
    Some (if unit_relative (getForm val)
          then to_UInt64 (getOffset u + getRawUValue val)
          else getRawUValue val).
Proof.
  unfold getAsReference, unit_relative.
  destruct (getForm val); simpl; intros H; try discriminate; reflexivity.
Qed.

(** C4.  For an attribute whose extracted form is one of the ten reference
    forms, [attr_int] receives the target as [getAsReference] gives it: the
    payload plus the offset of the unit for the unit-relative forms, the
    payload itself for the others; [attr_str] receives the default. *)
Theorem reference_is_absolute ctx need tag attr unit b p val off unit' b' p' :
  extractValue ctx (dwarf_unit unit) (Form_ attr)
    (if isImplicitConst attr then getImplicitConstValue attr else 0)
    (offset unit) = Some (val, off) ->
  form_group (getForm val) = ReferenceForm ->
  parseAttribute ctx need tag attr (unit, b, p) = Ok (unit', b', p') ->
  let target := if unit_relative (getForm val)
                then to_UInt64 (getOffset (dwarf_unit unit) + getRawUValue val)
                else getRawUValue val in
  getAsReference (dwarf_unit unit) val = Some target /\
  col_attr_int b' =
    (if need COL_ATTR_INT then target :: col_attr_int b else col_attr_int b) /\
  col_attr_str b' =
    (if need COL_ATTR_STR then EmptyString :: col_attr_str b
     else col_attr_str b).
Proof.
  intros He Hg H. cbv zeta.
  pose proof (reference_target (dwarf_unit unit) val Hg) as Ht.
  split; [exact Ht|].
  pose proof (parseAttribute_effect _ _ _ _ _ _ _ _ _ _ H)
    as (val' & off' & He' & _ & _ & _ & _ & Hi & _).
  rewrite He in He'. inv He'.
  split.
  - rewrite Hi. unfold spec_attr_int. rewrite Hg, Ht. reflexivity.
  - unfold parseAttribute in H. rewrite He in H.
    apply bind_Ok in H as (unit1 & _ & H).
    unfold project_value in H. rewrite Hg in H.
    unfold project_reference in H. inv H.
    destruct (need COL_ATTR_NAME), (need COL_ATTR_FORM),
      (need COL_ATTR_INT), (need COL_ATTR_STR); reflexivity.
Qed.

(** A [DW_FORM_ref4] of payload [0x10] in the unit at [0x1000]. *)
Lemma reference_is_absolute_witness :
  exists unit' b' p',
    extractValue (sample_context 5) sample_dwarf_unit DW_FORM_ref4 0 0x101d
      = Some (integer_value DW_FORM_ref4 0x10, 0x1021) /\
    form_group DW_FORM_ref4 = ReferenceForm /\
    parseAttribute (sample_context 5) (need_of_header all_columns) 0x2e
      (attribute 0x49 DW_FORM_ref4)
      (set_offset 0x101d sample_unit, empty_builders,
       mkPending true true true true) = Ok (unit', b', p') /\
    col_attr_int b' = [0x1010] /\ col_attr_str b' = [EmptyString].
Proof.
  eexists. eexists. eexists.
  assert (He : extractValue (sample_context 5) sample_dwarf_unit DW_FORM_ref4
                 0 0x101d
               = Some (integer_value DW_FORM_ref4 0x10, 0x1021))
    by reflexivity.
  assert (Hg : form_group DW_FORM_ref4 = ReferenceForm) by reflexivity.
  split; [exact He|]. split; [exact Hg|].
  match goal with
  | |- ?A /\ _ => assert (Hp : A) by (vm_compute; reflexivity)
  end.
  split; [exact Hp|].
  destruct (reference_is_absolute (sample_context 5)
              (need_of_header all_columns) 0x2e (attribute 0x49 DW_FORM_ref4)
              (set_offset 0x101d sample_unit) empty_builders
              (mkPending true true true true)
              (integer_value DW_FORM_ref4 0x10) 0x1021 _ _ _ He Hg Hp)
    as (_ & Hi & Hs).
  split; [exact Hi|exact Hs].
Defined.

(** ** C2: the index of [decl_file] *)

Lemma parseFilenameTable_table ctx unit o unit' :
  parseFilenameTable ctx unit o = Ok unit' ->
  exists prologue,
    prologue_parse ctx (dwarf_unit unit) o = Some prologue /\
    let table :=
      (if getVersion prologue <=? 4 then [EmptyString; EmptyString]
       else [EmptyString])
      ++ map file_name_c_str (FileNames prologue) in
    filename_table unit' = Some table /\
    filename_table_size unit' = Z.of_nat (length table) - 1.
Proof.
  unfold parseFilenameTable. intros H.
  destruct (negb (debug_line_extractor ctx)); [discriminate|].
  destruct (prologue_parse ctx (dwarf_unit unit) o) as [prologue|];
    [|discriminate].
  exists prologue. split; [reflexivity|].
  inv H. cbv zeta. destruct (getVersion prologue <=? 4); simpl; auto.
Qed.

(** C2 (as amended).  In a unit whose filename table was built from a
    prologue of version [version] with file names [names], an integer-form
    [DW_AT_decl_file] of raw value [raw] fills [decl_file] with [raw + 1]
    when [raw] is below [filename_table_size] and no earlier attribute of
    the DIE filled the column; otherwise it leaves the column and the
    pending flag as they are.  Index [raw + 1] of the dictionary is file
    [raw - 1] (the reserved empty entry for [raw = 0]) under version at most
    4, and file [raw] under version 5 and later: for [raw = 0] the index is 1
    under every version. *)
Theorem decl_file_index ctx need tag attr unit b p val off version names :
  let table :=
    (if version <=? 4 then [EmptyString; EmptyString] else [EmptyString])
    ++ map file_name_c_str names in
  let raw := getRawUValue val in
  Attr attr = DW_AT_decl_file ->
  extractValue ctx (dwarf_unit unit) (Form_ attr)
    (if isImplicitConst attr then getImplicitConstValue attr else 0)
    (offset unit) = Some (val, off) ->
  form_group (getForm val) = IntegerForm ->
  filename_table unit = Some table ->
  filename_table_size unit = Z.of_nat (length table) - 1 ->
  0 <= raw < 2 ^ 64 - 1 ->
  exists b' p',
    parseAttribute ctx need tag attr (unit, b, p)
      = Ok (set_offset off unit, b', p') /\
    (if (raw <? filename_table_size unit) && need_decl_file p
     then col_decl_file b' = (raw + 1) :: col_decl_file b /\
          need_decl_file p' = false
     else col_decl_file b' = col_decl_file b /\
          need_decl_file p' = need_decl_file p) /\
    dictionary_string (Some (StringDictionary table)) (raw + 1) =
      (if version <=? 4
       then (if raw =? 0 then Some EmptyString
             else nth_error (map file_name_c_str names) (Z.to_nat (raw - 1)))
       else nth_error (map file_name_c_str names) (Z.to_nat raw)).
Proof.
  intros table raw Ha He Hg Ht Hs Hr.
  assert (Hidx : to_UInt64 (raw + 1) = raw + 1)
    by (unfold to_UInt64; apply Z.mod_small; lia).
  assert (Hdict :
            dictionary_string (Some (StringDictionary table)) (raw + 1) =
            (if version <=? 4
             then (if raw =? 0 then Some EmptyString
                   else nth_error (map file_name_c_str names)
                          (Z.to_nat (raw - 1)))
             else nth_error (map file_name_c_str names) (Z.to_nat raw))).
  { unfold dictionary_string, table.
    destruct (version <=? 4).
    - destruct (raw =? 0) eqn:E0.
      + apply Z.eqb_eq in E0. rewrite E0. reflexivity.
      + apply Z.eqb_neq in E0.
        replace (Z.to_nat (raw + 1)) with (S (S (Z.to_nat (raw - 1)))) by lia.
        reflexivity.
    - replace (Z.to_nat (raw + 1)) with (S (Z.to_nat raw)) by lia.
      reflexivity. }
  unfold parseAttribute. rewrite He.
  replace (Attr attr =? DW_AT_stmt_list) with false
    by (rewrite Ha; reflexivity).
  simpl bind. unfold project_value. rewrite Hg.
  unfold project_integer. fold raw.
  replace (Attr attr =? DW_AT_decl_line) with false
    by (rewrite Ha; reflexivity).
  replace (Attr attr =? DW_AT_decl_file) with true
    by (rewrite Ha; reflexivity).
  replace (Attr attr =? DW_AT_language) with false
    by (rewrite Ha; reflexivity).
  replace (Attr attr =? DW_AT_encoding) with false
    by (rewrite Ha; reflexivity).
  simpl andb. simpl orb. cbv beta iota zeta.
  change (filename_table_size (set_offset off unit))
    with (filename_table_size unit).
  change (filename_table (set_offset off unit)) with (filename_table unit).
  destruct (raw <? filename_table_size unit) eqn:El.
  - apply Z.ltb_lt in El.
    assert (Hd : exists data,
               getDataAt (filename_table unit) (to_UInt64 (raw + 1)) = Ok data).
    { rewrite Ht, Hidx. unfold getDataAt.
      destruct (nth_error table (Z.to_nat (raw + 1))) eqn:En; [eauto|].
      apply nth_error_None in En. lia. }
    destruct Hd as [data Hd]. rewrite Hd, Hidx.
    destruct (need_decl_file p) eqn:Ep; cbv beta iota; simpl bind;
      destruct (need COL_ATTR_STR), (need COL_ATTR_INT),
        (need COL_ATTR_NAME), (need COL_ATTR_FORM);
      eexists; eexists; (split; [reflexivity|]);
      (split; [simpl; auto|exact Hdict]).
  - simpl andb. cbv beta iota.
    destruct (need COL_ATTR_STR), (need COL_ATTR_INT),
      (need COL_ATTR_NAME), (need COL_ATTR_FORM);
      eexists; eexists; (split; [reflexivity|]);
      (split; [simpl; auto|exact Hdict]).
Qed.

(** The subprogram of the sample unit, [DW_AT_decl_file = 0], after the line
    table of a version 5 prologue with two files was built: index 1, the
    first file. *)
Lemma decl_file_index_witness :
  exists b' p',
    Attr (attribute DW_AT_decl_file DW_FORM_data1) = DW_AT_decl_file /\
    extractValue (sample_context 5) sample_dwarf_unit DW_FORM_data1 0 0x101b
      = Some (integer_value DW_FORM_data1 0, 0x101c) /\
    parseAttribute (sample_context 5) (need_of_header all_columns) 0x2e
      (attribute DW_AT_decl_file DW_FORM_data1)
      (set_filename_table [EmptyString; "a.c"; "b.c"]%string
         (set_offset 0x101b sample_unit),
       empty_builders, mkPending true true true true)
    = Ok (set_offset 0x101c
            (set_filename_table [EmptyString; "a.c"; "b.c"]%string
               (set_offset 0x101b sample_unit)), b', p') /\
    col_decl_file b' = [1] /\
    dictionary_string (Some (StringDictionary [EmptyString; "a.c"; "b.c"]%string)) 1
      = Some "a.c"%string.
Proof.
  destruct (decl_file_index (sample_context 5) (need_of_header all_columns)
              0x2e (attribute DW_AT_decl_file DW_FORM_data1)
              (set_filename_table [EmptyString; "a.c"; "b.c"]%string
                 (set_offset 0x101b sample_unit))
              empty_builders (mkPending true true true true)
              (integer_value DW_FORM_data1 0) 0x101c 5
              [Some "a.c"%string; Some "b.c"%string]
              eq_refl eq_refl eq_refl eq_refl eq_refl
              (conj (Z.le_refl 0) eq_refl))
    as (b' & p' & Hp & Hc & Hd).
  exists b', p'.
  split; [reflexivity|]. split; [reflexivity|]. split; [exact Hp|].
  split; [exact (proj1 Hc)|exact Hd].
Defined.

(** The claim as written fails under version 5: the DIE of the sample unit
    with [DW_AT_decl_file = 0] gets index 1, not 2; index 1 is the first
    real filename there. *)
Lemma decl_file_index_counterexample :
  exists chunk unit' indexes,
    parseEntries (sample_context 5) [COL_DECL_FILE] sample_unit
      = Ok (chunk, unit') /\
    column_of [COL_DECL_FILE] (getColumns chunk) COL_DECL_FILE
      = Some (ColumnLowCardinality
                (Some (StringDictionary [EmptyString; "a.c"; "b.c"]%string)) indexes) /\
    nth 1 indexes 0 = 1 /\ nth 1 indexes 0 <> 2.
Proof.
  eexists. eexists. eexists.
  split; [vm_compute; reflexivity|].
  split; [vm_compute; reflexivity|].
  split; [reflexivity|]. simpl. lia.
Qed.

(** ** C1: a unit without [DW_AT_stmt_list] *)

Lemma project_value_no_table ctx need tag attr val unit b p unit' b' p' :
  0 <= getRawUValue val -> filename_table_size unit = 0 ->
  project_value ctx need tag attr val (unit, b, p) = Ok (unit', b', p') ->
  col_decl_file b' = col_decl_file b /\
  need_decl_file p' = need_decl_file p.
Proof.
  intros Hr Hs H. unfold project_value in H.
  destruct (form_group (getForm val)).
  - unfold project_integer in H. rewrite Hs in H.
    replace (getRawUValue val <? 0) with false in H
      by (symmetry; apply Z.ltb_ge; exact Hr).
    rewrite andb_false_r in H.
    cases_in H; inv H; simpl; auto.
  - unfold project_address in H. inv H.
    destruct (need COL_ATTR_INT), (need COL_ATTR_STR); auto.
  - unfold project_block in H. inv H.
    destruct (need COL_ATTR_INT), (need COL_ATTR_STR); auto.
  - unfold project_string in H. cases_in H; inv H; simpl; auto.
  - unfold project_reference in H. inv H.
    destruct (need COL_ATTR_INT), (need COL_ATTR_STR); auto.
  - unfold project_default in H. inv H.
    destruct (need COL_ATTR_INT), (need COL_ATTR_STR); auto.
Qed.

Lemma parseAttribute_no_table ctx need tag attr unit b p unit' b' p' :
  unsigned_values ctx -> Attr attr <> DW_AT_stmt_list ->
  filename_table unit = None -> filename_table_size unit = 0 ->
  parseAttribute ctx need tag attr (unit, b, p) = Ok (unit', b', p') ->
  filename_table unit' = None /\ filename_table_size unit' = 0 /\
  col_decl_file b' = col_decl_file b /\
  need_decl_file p' = need_decl_file p.
Proof.
  intros Hu Ha Ht Hs H. unfold parseAttribute in H.
  destruct (extractValue _ _ _ _ _) as [[val off]|] eqn:He; [|discriminate].
  apply Hu in He.
  replace (Attr attr =? DW_AT_stmt_list) with false in H
    by (symmetry; apply Z.eqb_neq; exact Ha).
  simpl in H.
  pose proof (project_value_effect _ _ _ _ _ _ _ _ _ _ _ H)
    as ((_ & _ & _ & _ & _ & Et & Es) & _).
  apply project_value_no_table in H as [Hd Hp]; [|lia|exact Hs].
  simpl in Et, Es. split; [congruence|]. split; [congruence|].
  split; [|exact Hp].
  rewrite Hd. destruct (need COL_ATTR_NAME), (need COL_ATTR_FORM); reflexivity.
Qed.

Lemma parseAttributes_no_table ctx need tag attrs :
  unsigned_values ctx ->
  Forall (fun attr => Attr attr <> DW_AT_stmt_list) attrs ->
  forall unit b p unit' b' p',
    filename_table unit = None -> filename_table_size unit = 0 ->
    parseAttributes ctx need tag attrs (unit, b, p) = Ok (unit', b', p') ->
    filename_table unit' = None /\ filename_table_size unit' = 0 /\
    col_decl_file b' = col_decl_file b /\
    need_decl_file p' = need_decl_file p.
Proof.
  intros Hu Hf. induction Hf as [|attr rest Ha _ IH];
    intros unit b p unit' b' p' Ht Hs H; simpl in H.
  - inv H. auto.
  - apply bind_Ok in H as ([[unit1 b1] p1] & H1 & H2).
    apply parseAttribute_no_table in H1 as (Ht1 & Hs1 & Hd1 & Hp1); auto.
    apply IH in H2 as (Ht2 & Hs2 & Hd2 & Hp2); auto.
    repeat split; congruence.
Qed.

Lemma parseEntry_no_table ctx need unit b unit' b' :
  unsigned_values ctx -> no_stmt_list unit ->
  filename_table unit = None -> filename_table_size unit = 0 ->
  parseEntry ctx need unit b = Ok (unit', b') ->
  filename_table unit' = None /\ filename_table_size unit' = 0 /\
  col_decl_file b' =
    (if need COL_DECL_FILE then 0 :: col_decl_file b else col_decl_file b).
Proof.
  intros Hu Hn Ht Hs H.
  pose proof (row_head_effect need unit b) as (_ & _ & Ed & _).
  cbv zeta in Ed.
  apply parseEntry_inv in H as (code & off & Hl & [[-> H]|[Hc H]]).
  - unfold parseNull in H. simpl in H.
    destruct (stack unit); [discriminate|]. inv H. simpl.
    split; [exact Ht|]. split; [exact Hs|].
    destruct (need COL_SIZE), (need COL_TAG), (need COL_NAME),
      (need COL_LINKAGE_NAME), (need COL_DECL_FILE), (need COL_DECL_LINE),
      (need COL_ATTR_NAME); simpl; rewrite Ed; reflexivity.
  - unfold parseDIE in H. simpl abbrevs in H.
    destruct (abbrevs unit (to_UInt32 code)) as [abbrev|] eqn:Ea;
      [|discriminate].
    destruct (code >? UINT32_MAX); [discriminate|].
    apply bind_Ok in H as ([[unit1 b1] p1] & H1 & H2).
    apply parseAttributes_no_table in H1 as (Ht1 & Hs1 & Hd1 & Hp1);
      eauto.
    simpl in Hp1. inv H2.
    split; [destruct (hasChildren abbrev); exact Ht1|].
    split; [destruct (hasChildren abbrev); exact Hs1|].
    rewrite Hp1.
    assert (Hd : col_decl_file b1 = col_decl_file b).
    { rewrite Hd1. destruct (need COL_TAG); simpl; exact Ed. }
    destruct (need COL_SIZE), (need COL_ATTR_NAME), (need_name p1),
      (need_linkage_name p1), (need COL_DECL_FILE), (need_decl_line p1);
      simpl; rewrite Hd; reflexivity.
Qed.

Lemma parse_rows_no_table ctx need fuel n unit b n' unit' b' :
  unsigned_values ctx -> no_stmt_list unit ->
  parse_rows ctx need fuel n unit b = Ok (n', unit', b') ->
  filename_table unit = None /\ filename_table_size unit = 0 /\
  col_decl_file b = repeat 0 (if need COL_DECL_FILE then n else 0%nat) ->
  filename_table unit' = None /\ filename_table_size unit' = 0 /\
  col_decl_file b' = repeat 0 (if need COL_DECL_FILE then n' else 0%nat).
Proof.
  intros Hu Hn H [Ht [Hs Hd]].
  assert (G : abbrevs unit' = abbrevs unit /\
              filename_table unit' = None /\ filename_table_size unit' = 0 /\
              col_decl_file b' =
                repeat 0 (if need COL_DECL_FILE then n' else 0%nat));
    [|tauto].
  apply (parse_rows_invariant ctx need
           (fun k u c =>
              abbrevs u = abbrevs unit /\
              filename_table u = None /\ filename_table_size u = 0 /\
              col_decl_file c =
                repeat 0 (if need COL_DECL_FILE then k else 0%nat)))
    with (2 := H); [|auto].
  intros k u0 b0 u1 b1 (Ea & Ht0 & Hs0 & Hd0) H1.
  pose proof (parseEntry_unit _ _ _ _ _ _ H1) as (_ & Ea1 & _).
  apply parseEntry_no_table in H1 as (Ht1 & Hs1 & Hd1); auto.
  - split; [congruence|]. split; [exact Ht1|]. split; [exact Hs1|].
    rewrite Hd1, Hd0. destruct (need COL_DECL_FILE); reflexivity.
  - unfold no_stmt_list in *. rewrite Ea. exact Hn.
Qed.

(** C1 (what the code does).  In a unit none of whose abbreviations
    declares [DW_AT_stmt_list], a call with [decl_file] requested never
    returns a chunk.  When its rows are all read, every row has index 0 in
    the builder of [decl_file], but the unit's filename table is still the
    null pointer, and chunk assembly hands it to
    [ColumnLowCardinality::create]: the call ends in an undefined access,
    not in a column of empty strings. *)
Theorem decl_file_without_stmt_list ctx header unit :
  unsigned_values ctx -> no_stmt_list unit ->
  filename_table unit = None -> filename_table_size unit = 0 ->
  In COL_DECL_FILE header ->
  (forall chunk unit', parseEntries ctx header unit <> Ok (chunk, unit')) /\
  (forall n unit' b,
      parse_rows ctx (propagate_need (need_of_header header)) MAX_ROWS 0 unit
        empty_builders = Ok (n, unit', b) ->
      col_decl_file b = repeat 0 n /\
      filename_table unit' = None /\
      assemble_column unit' b n COL_DECL_FILE = Undefined /\
      parseEntries ctx header unit = Undefined).
Proof.
  intros Hu Hn Ht Hs Hi.
  pose proof (propagate_need_In _ _ Hi) as Nd.
  assert (Hrows : forall n unit' b,
             parse_rows ctx (propagate_need (need_of_header header)) MAX_ROWS
               0 unit empty_builders = Ok (n, unit', b) ->
             col_decl_file b = repeat 0 n /\ filename_table unit' = None).
  { intros n unit' b H.
    apply parse_rows_no_table in H as (Ht' & _ & Hd); auto.
    - rewrite Nd in Hd. auto.
    - split; [exact Ht|]. split; [exact Hs|]. rewrite Nd. reflexivity. }
  split.
  - intros chunk unit' H.
    destruct (parseEntries_table _ _ _ _ _ H Hi) as [table Hsome].
    apply parseEntries_inv in H as (n & b & H & _).
    apply Hrows in H as [_ Hnone]. congruence.
  - intros n unit' b H.
    destruct (Hrows _ _ _ H) as [Hd Hnone].
    split; [exact Hd|]. split; [exact Hnone|].
    split; [simpl; rewrite Hnone; reflexivity|].
    unfold parseEntries. rewrite H. cbn [bind].
    destruct (assemble_columns_cases unit' b n header)
      as [(_ & _ & ->)|[Hsome _]]; [reflexivity|].
    destruct (Hsome Hi) as [table Hsome']. congruence.
Qed.

Lemma bare_context_unsigned : unsigned_values bare_context.
Proof. intros u f init off val off' H. discriminate H. Qed.

Lemma bare_unit_no_stmt_list : no_stmt_list bare_unit.
Proof.
  intros code abbrev H. simpl in H. unfold bare_abbrevs in H.
  destruct (code =? 1); inv H. constructor.
Qed.

(** The failing input: a unit of one DIE without attributes. *)
Lemma decl_file_without_stmt_list_witness :
  exists unit' b,
    parse_rows bare_context (propagate_need (need_of_header [COL_DECL_FILE]))
      MAX_ROWS 0 bare_unit empty_builders = Ok (1%nat, unit', b) /\
    col_decl_file b = [0] /\
    filename_table unit' = None /\
    parseEntries bare_context [COL_DECL_FILE] bare_unit = Undefined.
Proof.
  eexists. eexists.
  match goal with
  | |- ?A /\ _ => assert (Hp : A) by (vm_compute; reflexivity)
  end.
  split; [exact Hp|].
  destruct (decl_file_without_stmt_list bare_context [COL_DECL_FILE] bare_unit
              bare_context_unsigned bare_unit_no_stmt_list eq_refl eq_refl
              (or_introl eq_refl)) as [_ Hr].
  destruct (Hr _ _ _ Hp) as (Hd & Ht & _ & Hu).
  split; [exact Hd|]. split; [exact Ht|exact Hu].
Defined.

(** ** C8: parallel arrays *)

(** What a row adds to the array columns and to their offsets vectors. *)
Lemma parseEntry_arrays ctx need unit b unit' b' :
  parseEntry ctx need unit b = Ok (unit', b') ->
  exists m,
    length (col_attr_name b') =
      (if need COL_ATTR_NAME then m + length (col_attr_name b)
       else length (col_attr_name b))%nat /\
    length (col_attr_form b') =
      (if need COL_ATTR_FORM then m + length (col_attr_form b)
       else length (col_attr_form b))%nat /\
    length (col_attr_int b') =
      (if need COL_ATTR_INT then m + length (col_attr_int b)
       else length (col_attr_int b))%nat /\
    length (col_attr_str b') =
      (if need COL_ATTR_STR then m + length (col_attr_str b)
       else length (col_attr_str b))%nat /\
    col_attr_offsets b' =
      (if need COL_ATTR_NAME
       then Z.of_nat (length (col_attr_name b')) :: col_attr_offsets b
       else col_attr_offsets b) /\
    length (col_ancestor_tags b') =
      (if need COL_ANCESTOR_TAGS
       then length (stack unit) + length (col_ancestor_tags b)
       else length (col_ancestor_tags b))%nat /\
    length (col_ancestor_dwarf_offsets b') =
      (if need COL_ANCESTOR_TAGS && need COL_ANCESTOR_OFFSETS
       then length (stack unit) + length (col_ancestor_dwarf_offsets b)
       else length (col_ancestor_dwarf_offsets b))%nat /\
    col_ancestor_array_offsets b' =
      (if need COL_ANCESTOR_TAGS
       then Z.of_nat (length (col_ancestor_tags b'))
            :: col_ancestor_array_offsets b
       else col_ancestor_array_offsets b).
Proof.
  intros H.
  apply parseEntry_effect in H
    as (m & _ & _ & T3 & T4 & T5 & T6 & T7 & T8 & T9 & T10).
  pose proof (row_head_effect need unit b)
    as (_ & _ & _ & R4 & R5 & R6 & R7 & R8 & R9 & R10 & R11).
  cbv zeta in *. exists m.
  split; [rewrite T6, R4; reflexivity|].
  split; [rewrite T7, R5; reflexivity|].
  split; [rewrite T8, R6; reflexivity|].
  split; [rewrite T9, R7; reflexivity|].
  split; [rewrite T10, R8; reflexivity|].
  split; [rewrite T3, R9; reflexivity|].
  split; [rewrite T4, R10; reflexivity|].
  rewrite T5, R11, T3. reflexivity.
Qed.

Lemma propagate_need_closed need : need_closed (propagate_need need).
Proof.
  unfold need_closed, propagate_need.
  destruct (need COL_ATTR_FORM), (need COL_ATTR_INT), (need COL_ATTR_STR),
    (need COL_ANCESTOR_OFFSETS); simpl; repeat split; auto; discriminate.
Qed.

Lemma bounded_desc_weaken bound bound' offsets :
  bound <= bound' -> bounded_desc bound offsets ->
  bounded_desc bound' offsets.
Proof.
  destruct offsets; simpl; [auto|]. intros Hle [H1 H2]. split; [lia|exact H2].
Qed.

Lemma parse_rows_arrays ctx need fuel n unit b n' unit' b' :
  need_closed need ->
  parse_rows ctx need fuel n unit b = Ok (n', unit', b') ->
  b = empty_builders ->
  let names := length (col_attr_name b') in
  let tags := length (col_ancestor_tags b') in
  array_inv (need COL_ATTR_NAME) names names (col_attr_offsets b') /\
  array_inv (need COL_ATTR_FORM) names (length (col_attr_form b'))
    (col_attr_offsets b') /\
  array_inv (need COL_ATTR_INT) names (length (col_attr_int b'))
    (col_attr_offsets b') /\
  array_inv (need COL_ATTR_STR) names (length (col_attr_str b'))
    (col_attr_offsets b') /\
  array_inv (need COL_ANCESTOR_TAGS) tags tags
    (col_ancestor_array_offsets b') /\
  array_inv (need COL_ANCESTOR_OFFSETS) tags
    (length (col_ancestor_dwarf_offsets b'))
    (col_ancestor_array_offsets b').
Proof.
  intros (C1 & C2 & C3 & C4) H Hb. cbv zeta.
  apply (parse_rows_invariant ctx need
           (fun _ _ c =>
              let names := length (col_attr_name c) in
              let tags := length (col_ancestor_tags c) in
              array_inv (need COL_ATTR_NAME) names names (col_attr_offsets c) /\
              array_inv (need COL_ATTR_FORM) names (length (col_attr_form c))
                (col_attr_offsets c) /\
              array_inv (need COL_ATTR_INT) names (length (col_attr_int c))
                (col_attr_offsets c) /\
              array_inv (need COL_ATTR_STR) names (length (col_attr_str c))
                (col_attr_offsets c) /\
              array_inv (need COL_ANCESTOR_TAGS) tags tags
                (col_ancestor_array_offsets c) /\
              array_inv (need COL_ANCESTOR_OFFSETS) tags
                (length (col_ancestor_dwarf_offsets c))
                (col_ancestor_array_offsets c)))
    with (2 := H).
  - clear H Hb. intros _ u0 b0 u1 b1 HP H1. cbv zeta in *.
    apply parseEntry_arrays in H1
      as (m & A1 & A2 & A3 & A4 & A5 & A6 & A7 & A8).
    unfold array_inv in *.
    destruct HP as ((N1 & N2 & N3) & (F1 & _) & (I1 & _) & (S1 & _)
                    & (G1 & G2 & G3) & (D1 & _)).
    rewrite A5, A8, A2, A3, A4, A7. rewrite A1, A6.
    rewrite F1, I1, S1, D1.
    destruct (need COL_ATTR_NAME) eqn:En, (need COL_ATTR_FORM) eqn:Ef,
      (need COL_ATTR_INT) eqn:Ei, (need COL_ATTR_STR) eqn:Es,
      (need COL_ANCESTOR_TAGS) eqn:Et, (need COL_ANCESTOR_OFFSETS) eqn:Eo;
      try (specialize (C1 eq_refl); discriminate);
      try (specialize (C2 eq_refl); discriminate);
      try (specialize (C3 eq_refl); discriminate);
      try (specialize (C4 eq_refl); discriminate);
      simpl; repeat split; auto; try lia;
      try (eapply bounded_desc_weaken; [|eassumption]; lia);
      try (intros _; reflexivity).
  - subst b. unfold array_inv. simpl.
    destruct (need COL_ATTR_NAME), (need COL_ATTR_FORM),
      (need COL_ATTR_INT), (need COL_ATTR_STR),
      (need COL_ANCESTOR_TAGS), (need COL_ANCESTOR_OFFSETS);
      repeat split; auto; intros []; reflexivity.
Qed.

Lemma bounded_desc_forward offsets :
  forall bound,
    bounded_desc bound offsets ->
    forall i,
      (i < length offsets)%nat ->
      0 <= nth i (rev offsets) 0 <= bound /\
      match i with
      | O => True
      | S j => nth j (rev offsets) 0 <= nth i (rev offsets) 0
      end.
Proof.
  induction offsets as [|o os IH]; intros bound H i Hi; simpl in *; [lia|].
  destruct H as [Ho Hb].
  assert (Hl : length (rev os) = length os) by apply length_rev.
  destruct (Nat.eq_dec i (length os)) as [->|Hne].
  - rewrite app_nth2 by lia. rewrite Hl, Nat.sub_diag. simpl.
    split; [lia|].
    destruct (length os) as [|j] eqn:El; [exact I|].
    rewrite app_nth1 by lia.
    destruct (IH o Hb j) as [Hj _]; lia.
  - rewrite app_nth1 by lia.
    destruct (IH o Hb i) as [Hr Hs]; [lia|]. split; [lia|].
    destruct i as [|j]; [exact I|].
    rewrite app_nth1 by lia. exact Hs.
Qed.

Lemma array_row_length {A : Type} (values : list A) offsets i :
  bounded_desc (Z.of_nat (length values)) offsets ->
  (i < length offsets)%nat ->
  Z.of_nat (length (array_row values (rev offsets) i))
  = inner_length (rev offsets) i.
Proof.
  intros Hb Hi. unfold array_row, inner_length.
  rewrite length_firstn, length_skipn.
  destruct (bounded_desc_forward _ _ Hb i Hi) as [Hr Hs].
  destruct i as [|j].
  - lia.
  - destruct (bounded_desc_forward _ _ Hb j) as [Hj _]; lia.
Qed.

(** C8.  In a chunk [parseEntries] returns, the array columns requested
    among [attr_name], [attr_form], [attr_int], [attr_str] are built over
    one and the same offsets vector, with one entry per row, and row by row
    each holds as many values as the vector says; the same holds of
    [ancestor_tags] and [ancestor_offsets] over their vector.  Requesting any
    of the four turns [need[COL_ATTR_NAME]] on, requesting either of the two
    turns [need[COL_ANCESTOR_TAGS]] on. *)
Theorem parallel_arrays ctx header unit chunk unit' :
  parseEntries ctx header unit = Ok (chunk, unit') ->
  let need := propagate_need (need_of_header header) in
  exists attr_offsets ancestor_offsets,
    (forall c,
        In c [COL_ATTR_NAME; COL_ATTR_FORM; COL_ATTR_INT; COL_ATTR_STR] ->
        In c header ->
        need COL_ATTR_NAME = true /\
        length attr_offsets = getNumRows chunk /\
        exists nested,
          column_of header (getColumns chunk) c
            = Some (ColumnArray nested attr_offsets) /\
          forall i,
            (i < getNumRows chunk)%nat ->
            Z.of_nat (length (array_row (column_cells nested) attr_offsets i))
            = inner_length attr_offsets i) /\
    (forall c,
        In c [COL_ANCESTOR_TAGS; COL_ANCESTOR_OFFSETS] ->
        In c header ->
        need COL_ANCESTOR_TAGS = true /\
        length ancestor_offsets = getNumRows chunk /\
        exists nested,
          column_of header (getColumns chunk) c
            = Some (ColumnArray nested ancestor_offsets) /\
          forall i,
            (i < getNumRows chunk)%nat ->
            Z.of_nat
              (length (array_row (column_cells nested) ancestor_offsets i))
            = inner_length ancestor_offsets i).
Proof.
  intros H need.
  apply parseEntries_inv in H as (n & b & H & ->). fold need in H.
  pose proof (propagate_need_closed (need_of_header header)) as Hc.
  fold need in Hc.
  pose proof (parse_rows_arrays _ _ _ _ _ _ _ _ _ Hc H eq_refl)
    as ((N1 & N2 & _) & (F1 & _) & (I1 & _) & (S1 & _)
        & (T1 & T2 & _) & (D1 & _)).
  pose proof (parse_rows_count _ _ _ _ _ _ _ _ _ H (empty_counts _))
    as (_ & _ & L1 & L2).
  destruct Hc as (C1 & C2 & C3 & C4).
  exists (rev (col_attr_offsets b)), (rev (col_ancestor_array_offsets b)).
  simpl getNumRows. simpl getColumns. split.
  - intros c Hc Hh.
    assert (Nc : need c = true) by (apply propagate_need_In; exact Hh).
    assert (Nn : need COL_ATTR_NAME = true).
    { simpl in Hc. destruct Hc as [<-|[<-|[<-|[<-|[]]]]]; auto. }
    rewrite Nn in L1.
    split; [exact Nn|]. split; [rewrite length_rev; exact L1|].
    rewrite column_of_map by assumption.
    unfold built_column, assemble_column; rewrite !in_row_order_rev.
    simpl in Hc. destruct Hc as [<-|[<-|[<-|[<-|[]]]]];
      (eexists; split; [reflexivity|]); intros i Hi;
      apply array_row_length; try lia; simpl column_cells;
      rewrite length_map, length_rev.
    + exact N2.
    + rewrite F1, Nc. exact N2.
    + rewrite I1, Nc. exact N2.
    + rewrite S1, Nc. exact N2.
  - intros c Hc Hh.
    assert (Nc : need c = true) by (apply propagate_need_In; exact Hh).
    assert (Nn : need COL_ANCESTOR_TAGS = true).
    { simpl in Hc. destruct Hc as [<-|[<-|[]]]; auto. }
    rewrite Nn in L2.
    split; [exact Nn|]. split; [rewrite length_rev; exact L2|].
    rewrite column_of_map by assumption.
    unfold built_column, assemble_column; rewrite !in_row_order_rev.
    simpl in Hc. destruct Hc as [<-|[<-|[]]];
      (eexists; split; [reflexivity|]); intros i Hi;
      apply array_row_length; try lia; simpl column_cells;
      rewrite length_map, length_rev.
    + exact T2.
    + rewrite D1, Nc. exact T2.
Qed.

Lemma parallel_arrays_witness :
  exists chunk unit' nested,
    parseEntries (sample_context 5) [COL_ATTR_INT; COL_ATTR_STR] sample_unit
      = Ok (chunk, unit') /\
    column_of [COL_ATTR_INT; COL_ATTR_STR] (getColumns chunk) COL_ATTR_STR
      = Some (ColumnArray nested [3; 8; 8]) /\
    Z.of_nat (length (array_row (column_cells nested) [3; 8; 8] 1)) = 5.
Proof.
  eexists. eexists. eexists.
  match goal with
  | |- ?A /\ _ => assert (Hp : A) by (vm_compute; reflexivity)
  end.
  split; [exact Hp|].
  destruct (parallel_arrays _ _ _ _ _ Hp) as (offs & anc & Ha & _).
  destruct (Ha COL_ATTR_STR) as (_ & _ & nested & Hn & Hr);
    [simpl; tauto|simpl; tauto|].
  vm_compute in Hn. inv Hn.
  split; [reflexivity|]. apply (Hr 1%nat). simpl. lia.
Defined.

(** ** The scheduler *)

Lemma length_replace_nth {A : Type} (l : list A) i x :
  length (replace_nth i x l) = length l.
Proof.
  revert i. induction l as [|h t IH]; intros [|i]; simpl; auto.
Qed.

Lemma count_decoding_le p : (count_decoding p <= length p)%nat.
Proof. unfold count_decoding. apply filter_length_le. Qed.

Lemma count_decoding_replace p :
  forall i w w',
    nth_error p i = Some w ->
    (count_decoding (replace_nth i w' p) + (if is_decoding w then 1 else 0)
     = count_decoding p + (if is_decoding w' then 1 else 0))%nat.
Proof.
  unfold count_decoding.
  induction p as [|h t IH]; intros [|i] w w' H; simpl in H; try discriminate.
  - inv H. simpl. destruct (is_decoding w), (is_decoding w'); simpl; lia.
  - simpl. specialize (IH _ _ w' H).
    destruct (is_decoding h); simpl; lia.
Qed.

Lemma count_decoding_idle p :
  forall i w,
    nth_error p i = Some w -> is_decoding w = false ->
    (count_decoding p < length p)%nat.
Proof.
  unfold count_decoding.
  induction p as [|h t IH]; intros [|i] w H Hw; simpl in H; try discriminate.
  - inv H. simpl. rewrite Hw.
    pose proof (filter_length_le is_decoding t). lia.
  - simpl. specialize (IH _ _ H Hw).
    destruct (is_decoding h); simpl; lia.
Qed.

(** What the loop head can do. *)
Lemma worker_loop_cases fmt s w s' :
  worker_loop fmt s = (w, s') ->
  pool s' = pool s /\ delivery_queue s' = delivery_queue s /\
  elf s' = elf s /\ is_stopped s' = is_stopped s /\
  (is_stopped s = true -> w = Exited) /\
  (is_decoding w = true ->
   (length (delivery_queue s) <= num_threads fmt)%nat).
Proof.
  unfold worker_loop. intros H.
  destruct (units_queue s) as [|unit rest].
  - inv H. repeat split; auto. discriminate.
  - destruct (is_stopped s) eqn:Es.
    + inv H. repeat split; auto. discriminate.
    + destruct (num_threads fmt <? length (delivery_queue s))%nat eqn:El.
      * inv H. repeat split; auto; discriminate.
      * inv H. simpl. repeat split; auto; try discriminate.
        intros _. apply Nat.ltb_ge in El. exact El.
Qed.

Lemma publish_fields chunk before unit s :
  let s' := publish chunk before unit s in
  pool s' = pool s /\ elf s' = elf s /\ is_stopped s' = is_stopped s /\
  (length (delivery_queue s') <= S (length (delivery_queue s)))%nat.
Proof.
  unfold publish. cbv zeta.
  destruct (chunk_nonempty chunk), (negb (eof unit)); simpl;
    rewrite ?length_app; simpl; repeat split; lia.
Qed.

(** What a turn of a worker can do. *)
Lemma worker_step_cases fmt w s w' s' :
  worker_step fmt w s = Some (w', s') ->
  pool s' = pool s /\ elf s' = elf s /\ is_stopped s' = is_stopped s /\
  (is_stopped s = true -> w' = Exited) /\
  (if is_decoding w
   then (length (delivery_queue s') <= S (length (delivery_queue s)))%nat
   else delivery_queue s' = delivery_queue s) /\
  (is_decoding w' = true ->
   (length (delivery_queue s') <= num_threads fmt)%nat).
Proof.
  unfold worker_step. intros H.
  destruct w as [|unit| |]; try discriminate.
  - injection H as H.
    apply worker_loop_cases in H as (A & B & C & D & E & F).
    simpl. rewrite B. repeat split; auto.
  - destruct (parseEntries _ _ unit) as [[chunk unit1]|e|]; try discriminate.
    + injection H as H.
      pose proof (publish_fields chunk (offset unit) unit1 s)
        as (P1 & P2 & P3 & P4).
      cbv zeta in *.
      apply worker_loop_cases in H as (A & B & C & D & E & F).
      simpl. rewrite B. repeat split; try congruence; try assumption.
      intros Hs. apply E. congruence.
    + inv H. simpl. repeat split; auto. discriminate.
  - injection H as H.
    apply worker_loop_cases in H as (A & B & C & D & E & F).
    simpl. rewrite B. repeat split; auto.
Qed.

Lemma enqueue_units_fields units :
  forall s e s',
    enqueue_units units s = (e, s') ->
    elf s' = elf s /\ pool s' = pool s /\
    delivery_queue s' = delivery_queue s /\ is_stopped s' = is_stopped s.
Proof.
  induction units as [|u rest IH]; intros s e s' H; simpl in H.
  - inv H. auto.
  - destruct (UnitState_ctor u) as [err|unit].
    + inv H. auto.
    + apply IH in H. simpl in H. exact H.
Qed.

(** What initialisation can do. *)
Lemma initializeIfNeeded_cases fmt s e s' :
  initializeIfNeeded fmt s = (e, s') ->
  is_stopped s' = is_stopped s /\
  delivery_queue s' = delivery_queue s /\
  (elf s <> None -> e = None /\ s' = s) /\
  (elf s = None ->
   elf s' <> None /\
   (pool s' = pool s \/ pool s' = repeat NotStarted (num_threads fmt))).
Proof.
  unfold initializeIfNeeded. intros H.
  destruct (elf s) eqn:Ee.
  - inv H. repeat split; auto; discriminate.
  - assert (Hnn : forall x : ElfImage, Some x <> None) by discriminate.
    destruct (is_stopped (set_elf (Some (in_ fmt)) s)) eqn:Es;
      [inv H; simpl; repeat split; auto; contradiction|].
    destruct (negb (debug_info_section (in_ fmt)));
      [inv H; simpl; repeat split; auto; contradiction|].
    destruct (negb (debug_abbrev_section (in_ fmt)));
      [inv H; simpl; repeat split; auto; contradiction|].
    destruct (enqueue_units _ _) as [[err|] s1] eqn:Eq;
      apply enqueue_units_fields in Eq as (A & B & C & D); simpl in *;
      inv H; simpl; repeat split; auto; try contradiction;
      rewrite A; auto.
Qed.

Lemma generate_loop_cases s r s' :
  generate_loop s = (r, s') ->
  pool s' = pool s /\ elf s' = elf s /\
  (length (delivery_queue s') <= length (delivery_queue s))%nat /\
  match r with
  | ReturnChunk _ => is_stopped s = false /\ is_stopped s' = false
  | Blocked => s' = s
  | EndOfStream | Throws _ => is_stopped s' = true
  end.
Proof.
  unfold generate_loop. intros H.
  destruct (is_stopped s) eqn:Es; [inv H; simpl; auto|].
  destruct (background_exception s); [inv H; simpl; auto|].
  destruct (delivery_queue s) as [|[chunk bytes] rest] eqn:Ed.
  - destruct (empty (units_queue s) && (units_in_progress s =? 0)).
    + inv H. simpl. rewrite Ed. auto.
    + inv H. rewrite Ed. auto.
  - inv H. simpl. auto.
Qed.

Lemma scheduler_inv_exec fmt a s s' :
  scheduler_inv fmt s -> exec fmt a s = Some s' -> scheduler_inv fmt s'.
Proof.
  intros (I1 & I2 & I3) H. destruct a as [i|]; simpl in H.
  - destruct (nth_error (pool s) i) as [w|] eqn:En; [|discriminate].
    destruct (worker_step fmt w s) as [[w' s1]|] eqn:Ew; [|discriminate].
    inv H.
    apply worker_step_cases in Ew as (A & B & C & D & E & F).
    rewrite A.
    pose proof (count_decoding_replace _ _ _ w' En) as Hc.
    pose proof (count_decoding_le (pool s)) as Hle.
    unfold scheduler_inv. simpl.
    rewrite length_replace_nth.
    split.
    { intros He. rewrite B in He. destruct (I1 He) as [Hp _].
      rewrite Hp in En. destruct i; discriminate. }
    split; [exact I2|].
    destruct (is_decoding w) eqn:Dw, (is_decoding w') eqn:Dw';
      try specialize (F eq_refl); try rewrite E in *;
      try pose proof (count_decoding_idle _ _ _ En Dw); lia.
  - inv H. unfold generate.
    destruct (initializeIfNeeded fmt s) as [[e|] s1] eqn:Ei;
      apply initializeIfNeeded_cases in Ei as (A & B & C & D).
    + simpl. unfold scheduler_inv.
      destruct (elf s) eqn:Ee.
      * destruct C as [C _]; [discriminate|discriminate].
      * destruct (D eq_refl) as [D1 D2]. destruct (I1 eq_refl) as [Hp Hq].
        rewrite B, Hq. simpl.
        split; [intros; contradiction|].
        destruct D2 as [->| ->].
        -- rewrite Hp. unfold count_decoding. simpl. split; lia.
        -- rewrite repeat_length.
           split; [lia|].
           pose proof (count_decoding_le (repeat NotStarted (num_threads fmt)))
             as Hle.
           rewrite repeat_length in Hle. lia.
    + assert (I' : scheduler_inv fmt s1).
      { unfold scheduler_inv. destruct (elf s) eqn:Ee.
        - destruct C as [_ ->]; [discriminate|].
          rewrite Ee. repeat split; try assumption; discriminate.
        - destruct (D eq_refl) as [D1 D2]. destruct (I1 eq_refl) as [Hp Hq].
          rewrite B, Hq. simpl.
          split; [intros; contradiction|].
          destruct D2 as [->| ->].
          + rewrite Hp. unfold count_decoding. simpl. split; lia.
          + rewrite repeat_length. split; [lia|].
            pose proof (count_decoding_le
                          (repeat NotStarted (num_threads fmt))) as Hle.
            rewrite repeat_length in Hle. lia. }
      destruct (generate_loop s1) as [r s2] eqn:Eg. simpl.
      apply generate_loop_cases in Eg as (G1 & G2 & G3 & _).
      destruct I' as (J1 & J2 & J3).
      unfold scheduler_inv. rewrite G1, G2.
      split.
      { intros He. destruct (J1 He) as [Hp Hq]. split; [exact Hp|].
        rewrite Hq in G3. destruct (delivery_queue s2); [reflexivity|].
        simpl in G3. lia. }
      split; [exact J2|lia].
Qed.

Lemma scheduler_inv_run fmt trace :
  forall s s',
    scheduler_inv fmt s -> run fmt trace s = Some s' -> scheduler_inv fmt s'.
Proof.
  induction trace as [|a rest IH]; intros s s' Hi H; simpl in H.
  - inv H. exact Hi.
  - destruct (exec fmt a s) as [s1|] eqn:Ee; [|discriminate].
    eapply IH; [|exact H]. eapply scheduler_inv_exec; eauto.
Qed.

Lemma scheduler_inv_new fmt : scheduler_inv fmt new_scheduler.
Proof.
  unfold scheduler_inv, count_decoding. simpl.
  split; [auto|split; lia].
Qed.

(** ** C3: back-pressure *)

(** C3 (as amended).  In every reachable state the chunks in the delivery
    queue and the units in the hands of workers number at most
    [2 * num_threads] together, so the queue holds at most [2 * num_threads]
    chunks; and a worker that finds more than [num_threads] chunks in the
    queue at the head of its loop waits and takes no unit. *)
Theorem delivery_queue_bound fmt s :
  reachable fmt s ->
  (length (delivery_queue s) + count_decoding (pool s)
   <= 2 * num_threads fmt)%nat /\
  (length (delivery_queue s) <= 2 * num_threads fmt)%nat /\
  (units_queue s <> [] -> is_stopped s = false ->
   (num_threads fmt < length (delivery_queue s))%nat ->
   worker_loop fmt s = (Waiting, s)).
Proof.
  intros [trace H].
  pose proof (scheduler_inv_run _ _ _ _ (scheduler_inv_new fmt) H)
    as (_ & _ & I3).
  split; [exact I3|]. split; [lia|].
  intros Hq Hs Hl. unfold worker_loop.
  destruct (units_queue s); [contradiction|].
  rewrite Hs. apply Nat.ltb_lt in Hl. rewrite Hl. reflexivity.
Qed.

Lemma delivery_queue_bound_witness :
  exists s,
    reachable four_units s /\
    length (delivery_queue s) = 4%nat /\
    (length (delivery_queue s) <= 2 * num_threads four_units)%nat.
Proof.
  eexists.
  match goal with
  | |- ?A /\ _ =>
      assert (Hr : A) by (exists crowded_trace; vm_compute; reflexivity)
  end.
  split; [exact Hr|].
  split; [reflexivity|].
  exact (proj1 (proj2 (delivery_queue_bound _ _ Hr))).
Defined.

(** The claim as written fails with two threads: four chunks wait in the
    delivery queue, more than [num_threads + 1 = 3]. *)
Lemma delivery_queue_bound_counterexample :
  exists s,
    reachable four_units s /\
    (num_threads four_units + 1 < length (delivery_queue s))%nat.
Proof.
  eexists. split.
  - exists crowded_trace. vm_compute. reflexivity.
  - vm_compute. lia.
Qed.

(** ** C10: the scope guard of [generate] *)

Lemma set_is_stopped_id s : is_stopped s = true -> set_is_stopped true s = s.
Proof. destruct s; simpl; intros ->; reflexivity. Qed.

(** Once the instance is initialised and stopped, [generate] returns
    end-of-stream and changes nothing. *)
Lemma generate_stopped fmt s :
  elf s <> None -> is_stopped s = true ->
  generate fmt s = (EndOfStream, s).
Proof.
  intros He Hs. unfold generate, initializeIfNeeded.
  destruct (elf s); [|contradiction].
  unfold generate_loop. rewrite Hs. unfold scope_exit.
  rewrite set_is_stopped_id by exact Hs. reflexivity.
Qed.

Lemma stopped_exec fmt a s s' :
  elf s <> None -> is_stopped s = true -> exec fmt a s = Some s' ->
  elf s' <> None /\ is_stopped s' = true.
Proof.
  intros He Hs H. destruct a as [i|]; simpl in H.
  - destruct (nth_error (pool s) i) as [w|]; [|discriminate].
    destruct (worker_step fmt w s) as [[w' s1]|] eqn:Ew; [|discriminate].
    inv H. apply worker_step_cases in Ew as (_ & B & C & _).
    simpl. split; congruence.
  - inv H. rewrite generate_stopped by assumption. simpl. auto.
Qed.

Lemma stopped_run fmt trace :
  forall s s',
    elf s <> None -> is_stopped s = true -> run fmt trace s = Some s' ->
    elf s' <> None /\ is_stopped s' = true.
Proof.
  induction trace as [|a rest IH]; intros s s' He Hs H; simpl in H.
  - inv H. auto.
  - destruct (exec fmt a s) as [s1|] eqn:Ee; [|discriminate].
    destruct (stopped_exec _ _ _ _ He Hs Ee) as [He1 Hs1].
    eapply IH; eauto.
Qed.

(** C10 (as amended).  When [initializeIfNeeded] throws nothing, a call of
    [generate] that returns end-of-stream or rethrows the background
    exception leaves [is_stopped] set, a worker that runs the head of its
    loop from then on leaves the loop, and after any further turns of the
    workers and the consumer [generate] returns end-of-stream at once and
    changes nothing, whatever waits in the delivery queue and whatever
    exception is stored; a call that returns a chunk found [is_stopped]
    clear and leaves it clear. *)
Theorem generate_scope_guard fmt s r s' :
  fst (initializeIfNeeded fmt s) = None ->
  generate fmt s = (r, s') ->
  match r with
  | ReturnChunk _ => is_stopped s = false /\ is_stopped s' = false
  | Blocked => is_stopped s' = is_stopped s
  | EndOfStream | Throws _ =>
      is_stopped s' = true /\
      forall trace s'',
        run fmt trace s' = Some s'' ->
        fst (worker_loop fmt s'') = Exited /\
        generate fmt s'' = (EndOfStream, s'')
  end.
Proof.
  intros Hi H. unfold generate in H.
  destruct (initializeIfNeeded fmt s) as [e s1] eqn:Ei.
  simpl in Hi. subst e.
  pose proof (initializeIfNeeded_cases _ _ _ _ Ei) as (A & _ & C & D).
  assert (He1 : elf s1 <> None).
  { destruct (elf s) eqn:Ee.
    - destruct C as [_ ->]; [discriminate|]. rewrite Ee. discriminate.
    - apply D. reflexivity. }
  pose proof (generate_loop_cases _ _ _ H) as (_ & G2 & _ & G4).
  assert (Hafter : is_stopped s' = true ->
                   forall trace s'',
                     run fmt trace s' = Some s'' ->
                     fst (worker_loop fmt s'') = Exited /\
                     generate fmt s'' = (EndOfStream, s'')).
  { intros Hs trace s'' Hr.
    destruct (stopped_run fmt trace s' s'') as [He2 Hs2];
      [congruence|exact Hs|exact Hr|].
    split; [|apply generate_stopped; assumption].
    destruct (worker_loop fmt s'') as [w s3] eqn:Ew.
    apply worker_loop_cases in Ew as (_ & _ & _ & _ & E & _).
    simpl. auto. }
  destruct r.
  - destruct G4 as [G4 G5]. split; [congruence|exact G5].
  - split; [exact G4|exact (Hafter G4)].
  - split; [exact G4|exact (Hafter G4)].
  - subst s'. exact A.
Qed.

(** One chunk is delivered and the other unit throws in its worker: the
    call rethrows the exception and stops the pool with the chunk still in
    the queue; the next call returns end-of-stream. *)
Lemma generate_scope_guard_witness :
  exists s e s',
    run faulty_units faulty_trace new_scheduler = Some s /\
    fst (initializeIfNeeded faulty_units s) = None /\
    generate faulty_units s = (Throws e, s') /\
    length (delivery_queue s') = 1%nat /\
    is_stopped s' = true /\
    generate faulty_units s' = (EndOfStream, s').
Proof.
  eexists. eexists. eexists.
  split; [vm_compute; reflexivity|].
  match goal with
  | |- ?A /\ _ => assert (Hi : A) by reflexivity
  end.
  split; [exact Hi|].
  match goal with
  | |- ?A /\ _ => assert (Hg : A) by (vm_compute; reflexivity)
  end.
  split; [exact Hg|].
  pose proof (generate_scope_guard _ _ _ _ Hi Hg) as [Hs Ha].
  split; [reflexivity|]. split; [exact Hs|].
  exact (proj2 (Ha [] _ eq_refl)).
Defined.

(** The claim as written fails for an exception thrown by initialisation,
    which leaves [generate] before the guard is declared: on an image
    without [.debug_info] the call throws and [is_stopped] stays clear; on an
    image whose second unit has no abbreviation set the call throws and the
    next call, far from returning end-of-stream, waits for a chunk. *)
Lemma generate_scope_guard_counterexample :
  (exists e s',
      generate no_debug_info new_scheduler = (Throws e, s') /\
      is_stopped s' = false) /\
  (exists e s',
      generate broken_second_unit new_scheduler = (Throws e, s') /\
      is_stopped s' = false /\
      generate broken_second_unit s' = (Blocked, s')).
Proof.
  split.
  - eexists. eexists. split; [vm_compute; reflexivity|reflexivity].
  - eexists. eexists. split; [vm_compute; reflexivity|].
    split; [reflexivity|vm_compute; reflexivity].
Qed.
(** ** The filename table of a unit *)

Ltac undefined_in H :=
  repeat (cbv beta iota zeta in H;
          match type of H with
          | Ok _ = Undefined => discriminate H
          | Throw _ = Undefined => discriminate H
          | context [match ?x with _ => _ end] =>
              lazymatch x with
              | context [match _ with _ => _ end] => fail
              | _ => destruct x eqn:?
              end
          | bind ?r _ = Undefined => destruct r eqn:?; unfold bind in H
          end).

Lemma getDataAt_defined unit raw :
  table_ok unit -> 0 <= raw < filename_table_size unit ->
  getDataAt (filename_table unit) (to_UInt64 (raw + 1)) <> Undefined.
Proof.
  unfold table_ok, getDataAt. intros Ht Hr.
  destruct (filename_table unit) as [col|]; [|lia].
  assert (Hi : 0 <= to_UInt64 (raw + 1) <= raw + 1).
  { unfold to_UInt64. split.
    - apply Z.mod_pos_bound. lia.
    - apply Z.mod_le; lia. }
  destruct (nth_error col (Z.to_nat (to_UInt64 (raw + 1)))) eqn:E;
    [discriminate|].
  apply nth_error_None in E. lia.
Qed.

Lemma project_value_defined ctx need tag attr val unit b p :
  0 <= getRawUValue val -> table_ok unit ->
  project_value ctx need tag attr val (unit, b, p) <> Undefined.
Proof.
  intros Hr Ht H. unfold project_value in H.
  destruct (form_group (getForm val)).
  - unfold project_integer in H.
    destruct ((Attr attr =? DW_AT_decl_file) || (Attr attr =? DW_AT_call_file))
      eqn:Ea; simpl in H.
    + destruct (getRawUValue val <? filename_table_size unit) eqn:El.
      * apply Z.ltb_lt in El.
        pose proof (getDataAt_defined unit (getRawUValue val) Ht
                      (conj Hr El)) as Hd.
        undefined_in H; congruence.
      * undefined_in H.
    + undefined_in H.
  - unfold project_address in H. undefined_in H.
  - unfold project_block in H. undefined_in H.
  - unfold project_string in H. undefined_in H.
  - unfold project_reference in H. undefined_in H.
  - unfold project_default in H. undefined_in H.
Qed.

Lemma parseFilenameTable_defined ctx unit o :
  parseFilenameTable ctx unit o <> Undefined /\
  forall unit',
    parseFilenameTable ctx unit o = Ok unit' ->
    table_ok unit' /\ filename_table unit' <> None.
Proof.
  unfold parseFilenameTable. split.
  - intros H. undefined_in H.
  - intros unit' H. cases_in H; inv H; unfold table_ok; simpl;
      (split; [reflexivity|discriminate]).
Qed.

Lemma parseAttribute_defined ctx need tag attr unit b p :
  unsigned_values ctx -> table_ok unit ->
  parseAttribute ctx need tag attr (unit, b, p) <> Undefined /\
  forall unit' b' p',
    parseAttribute ctx need tag attr (unit, b, p) = Ok (unit', b', p') ->
    table_ok unit' /\ keeps_table unit unit'.
Proof.
  intros Hu Ht. unfold parseAttribute.
  destruct (extractValue _ _ _ _ _) as [[val off]|] eqn:He;
    [|split; [discriminate|intros ? ? ? H; discriminate H]].
  apply Hu in He.
  assert (Ht0 : table_ok (set_offset off unit)) by exact Ht.
  set (r := if (Attr attr =? DW_AT_stmt_list)
               && is_null (filename_table (set_offset off unit))
            then match getAsSectionOffset val with
                 | Some o => parseFilenameTable ctx (set_offset off unit) o
                 | None => Ok (set_offset off unit)
                 end
            else Ok (set_offset off unit)).
  assert (Hr : r <> Undefined /\
               forall unit1, r = Ok unit1 ->
                 table_ok unit1 /\ keeps_table unit unit1).
  { subst r.
    destruct ((Attr attr =? DW_AT_stmt_list)
              && is_null (filename_table (set_offset off unit))) eqn:E.
    - apply andb_true_iff in E as [_ En]. simpl in En.
      assert (Hn : filename_table unit = None)
        by (destruct (filename_table unit); [discriminate|reflexivity]).
      destruct (getAsSectionOffset val) as [o|].
      + destruct (parseFilenameTable_defined ctx (set_offset off unit) o)
          as [Hd Hk].
        split; [exact Hd|]. intros unit1 H1. apply Hk in H1 as [H1 _].
        split; [exact H1|]. intros col Hc. congruence.
      + split; [discriminate|]. intros unit1 H1. inv H1.
        split; [exact Ht0|]. intros col Hc. exact Hc.
    - split; [discriminate|]. intros unit1 H1. inv H1.
      split; [exact Ht0|]. intros col Hc. exact Hc. }
  destruct Hr as [Hr1 Hr2]. destruct r as [unit1| |] eqn:Er.
  - destruct (Hr2 unit1 eq_refl) as [Ht1 Hk1]. simpl. split.
    + apply project_value_defined; [lia|exact Ht1].
    + intros unit' b' p' H.
      apply project_value_effect in H as [(_ & _ & _ & _ & _ & Hf & Hs) _].
      split.
      * unfold table_ok in *. rewrite Hf, Hs. exact Ht1.
      * intros col Hc. rewrite Hf. auto.
  - simpl. split; [discriminate|]. intros ? ? ? H. discriminate H.
  - congruence.
Qed.

Lemma parseAttributes_cons ctx need tag attr rest st :
  parseAttributes ctx need tag (attr :: rest) st =
  bind (parseAttribute ctx need tag attr st)
    (fun st' => parseAttributes ctx need tag rest st').
Proof. reflexivity. Qed.

Lemma parse_rows_step ctx need fuel n unit b :
  parse_rows ctx need (S fuel) n unit b =
  bind (parseEntry ctx need unit b)
    (fun x => match x with
              | (unit, b) =>
                  match stack unit with
                  | [] =>
                      if eof unit then Ok (S n, unit, b)
                      else Throw (CANNOT_PARSE_DWARF
                                    "Unexpected end of DIE tree")
                  | _ :: _ => parse_rows ctx need fuel (S n) unit b
                  end
              end).
Proof. reflexivity. Qed.

Lemma parseAttributes_defined ctx need tag attrs :
  unsigned_values ctx ->
  forall unit b p,
    table_ok unit ->
    parseAttributes ctx need tag attrs (unit, b, p) <> Undefined /\
    forall unit' b' p',
      parseAttributes ctx need tag attrs (unit, b, p) = Ok (unit', b', p') ->
      table_ok unit' /\ keeps_table unit unit'.
Proof.
  intros Hu. induction attrs as [|attr rest IH]; intros unit b p Ht.
  - simpl. split; [discriminate|]. intros ? ? ? H. inv H.
    split; [exact Ht|]. intros col Hc. exact Hc.
  - rewrite parseAttributes_cons.
    destruct (parseAttribute_defined ctx need tag attr unit b p Hu Ht)
      as [Hd Hk].
    destruct (parseAttribute ctx need tag attr (unit, b, p))
      as [[[unit1 b1] p1]| |]; simpl.
    + destruct (Hk _ _ _ eq_refl) as [Ht1 Hk1].
      destruct (IH unit1 b1 p1 Ht1) as [Hd2 Hk2].
      split; [exact Hd2|]. intros unit' b' p' H.
      apply Hk2 in H as [H1 H2]. split; [exact H1|].
      intros col Hc. auto.
    + split; [discriminate|]. intros ? ? ? H. discriminate H.
    + congruence.
Qed.

Lemma parseEntry_defined ctx need unit b :
  unsigned_values ctx -> table_ok unit ->
  parseEntry ctx need unit b <> Undefined /\
  forall unit' b',
    parseEntry ctx need unit b = Ok (unit', b') ->
    table_ok unit' /\ keeps_table unit unit'.
Proof.
  intros Hu Ht. unfold parseEntry. fold (row_head need unit b).
  destruct (getULEB128 ctx (offset unit)) as [[code off]|];
    [|split; [discriminate|intros ? ? H; discriminate H]].
  destruct (code =? 0).
  - unfold parseNull. destruct (stack (set_offset off unit)); simpl.
    + split; [discriminate|]. intros ? ? H. discriminate H.
    + split; [discriminate|]. intros ? ? H. inv H.
      split; [exact Ht|]. intros col Hc. exact Hc.
  - unfold parseDIE.
    destruct (abbrevs (set_offset off unit) (to_UInt32 code)) as [abbrev|];
      [|split; [discriminate|intros ? ? H; discriminate H]].
    destruct (code >? UINT32_MAX);
      [split; [discriminate|intros ? ? H; discriminate H]|].
    match goal with
    | |- context [parseAttributes ctx need ?t ?a (?u, ?bb, ?pp)] =>
        destruct (parseAttributes_defined ctx need t a Hu u bb pp Ht)
          as [Hd Hk];
        destruct (parseAttributes ctx need t a (u, bb, pp))
          as [[[unit1 b1] p1]| |]
    end; simpl.
    + destruct (Hk _ _ _ eq_refl) as [Ht1 Hk1].
      split; [discriminate|]. intros unit' b' H. inv H.
      destruct (hasChildren abbrev); split; auto.
    + split; [discriminate|]. intros ? ? H. discriminate H.
    + congruence.
Qed.

Lemma parse_rows_defined ctx need :
  unsigned_values ctx ->
  forall fuel n unit b,
    table_ok unit ->
    parse_rows ctx need fuel n unit b <> Undefined /\
    forall n' unit' b',
      parse_rows ctx need fuel n unit b = Ok (n', unit', b') ->
      table_ok unit' /\ keeps_table unit unit'.
Proof.
  intros Hu. induction fuel as [|fuel IH]; intros n unit b Ht.
  - simpl. split; [discriminate|]. intros ? ? ? H. inv H.
    split; [exact Ht|]. intros col Hc. exact Hc.
  - rewrite parse_rows_step.
    destruct (parseEntry_defined ctx need unit b Hu Ht) as [Hd Hk].
    destruct (parseEntry ctx need unit b) as [[unit1 b1]| |]; simpl.
    + destruct (Hk _ _ eq_refl) as [Ht1 Hk1].
      destruct (stack unit1).
      * destruct (eof unit1).
        -- split; [discriminate|]. intros ? ? ? H. inv H. auto.
        -- split; [discriminate|]. intros ? ? ? H. discriminate H.
      * destruct (IH (S n) unit1 b1 Ht1) as [Hd2 Hk2].
        split; [exact Hd2|]. intros n' unit' b' H.
        apply Hk2 in H as [H1 H2]. split; [exact H1|].
        intros col Hc. auto.
    + split; [discriminate|]. intros ? ? ? H. discriminate H.
    + congruence.
Qed.

(** The one undefined access of a call: the null filename table at chunk
    assembly. *)
Lemma parseEntries_undefined ctx header unit :
  unsigned_values ctx -> table_ok unit ->
  (parseEntries ctx header unit = Undefined <->
   In COL_DECL_FILE header /\
   exists n unit' b,
     parse_rows ctx (propagate_need (need_of_header header)) MAX_ROWS 0 unit
       empty_builders = Ok (n, unit', b) /\
     filename_table unit' = None).
Proof.
  intros Hu Ht. unfold parseEntries.
  destruct (parse_rows_defined ctx (propagate_need (need_of_header header))
              Hu MAX_ROWS 0%nat unit empty_builders Ht) as [Hd _].
  destruct (parse_rows ctx _ MAX_ROWS 0%nat unit empty_builders)
    as [[[n unit1] b1]| |]; cbn [bind].
  - destruct (assemble_columns_cases unit1 b1 n header)
      as [(Hi & Hn & ->)|[Hs ->]]; cbn [bind].
    + split; [|reflexivity]. intros _. split; [exact Hi|].
      exists n, unit1, b1. split; [reflexivity|exact Hn].
    + split; [discriminate|].
      intros (Hi & n' & unit' & b' & E & Hn). inv E.
      destruct (Hs Hi) as [table Hsome]. congruence.
  - split; [discriminate|]. intros (_ & ? & ? & ? & E & _). discriminate E.
  - congruence.
Qed.

Lemma parseEntries_defined ctx header unit :
  unsigned_values ctx -> table_ok unit ->
  (~ In COL_DECL_FILE header -> parseEntries ctx header unit <> Undefined) /\
  forall chunk unit',
    parseEntries ctx header unit = Ok (chunk, unit') ->
    table_ok unit' /\ keeps_table unit unit'.
Proof.
  intros Hu Ht. split.
  - intros Hn H. apply parseEntries_undefined in H as [Hi _]; auto.
  - intros chunk unit' H.
    apply parseEntries_inv in H as (n & b & H & _).
    destruct (parse_rows_defined ctx (propagate_need (need_of_header header))
                Hu MAX_ROWS 0%nat unit empty_builders Ht) as [_ Hk].
    eauto.
Qed.
(** ** The convenience columns *)

Lemma fills_once_refl {A : Type} pending (col : list A) :
  fills_once pending pending col col.
Proof. left. split; reflexivity. Qed.

Lemma fills_once_trans {A : Type} p1 p2 p3 (c1 c2 c3 : list A) :
  fills_once p1 p2 c1 c2 -> fills_once p2 p3 c2 c3 -> fills_once p1 p3 c1 c3.
Proof.
  intros [[-> ->]|(-> & -> & v & ->)] [[-> ->]|(E & -> & w & ->)];
    try discriminate E.
  - left. auto.
  - right. eauto.
  - right. eauto.
Qed.

Lemma fills_once_length {A : Type} p p' (c c' : list A) :
  fills_once p p' c c' ->
  (length c' + (if p' then 1 else 0) = length c + (if p then 1 else 0))%nat.
Proof.
  intros [[-> ->]|(-> & -> & v & ->)]; simpl; lia.
Qed.

Ltac solve_pending :=
  unfold pending_effect; simpl;
  repeat match goal with |- _ /\ _ => split end;
  first [ reflexivity
        | apply fills_once_refl
        | right; repeat split; eauto ].

Lemma project_value_pending ctx need tag attr val unit b p unit' b' p' :
  project_value ctx need tag attr val (unit, b, p) = Ok (unit', b', p') ->
  pending_effect b b' p p'.
Proof.
  unfold project_value. intros H.
  destruct (form_group (getForm val)).
  - unfold project_integer in H. destruct p as [pn pl pf pd]. simpl in H.
    cases_in H; inv H;
      repeat match goal with
             | E : (_, _) = (_, _) |- _ => inv E
             end;
      repeat match goal with
             | E : _ && _ = true |- _ => apply andb_true_iff in E as [? ?]
             end; subst; solve_pending.
  - unfold project_address in H. inv H.
    destruct (need COL_ATTR_INT), (need COL_ATTR_STR); solve_pending.
  - unfold project_block in H. inv H.
    destruct (need COL_ATTR_INT), (need COL_ATTR_STR); solve_pending.
  - unfold project_string in H. destruct p as [pn pl pf pd]. simpl in H.
    cases_in H; inv H;
      repeat match goal with
             | E : (_, _) = (_, _) |- _ => inv E
             end;
      repeat match goal with
             | E : _ && _ = true |- _ => apply andb_true_iff in E as [? ?]
             end; subst; solve_pending.
  - unfold project_reference in H. inv H.
    destruct (need COL_ATTR_INT), (need COL_ATTR_STR); solve_pending.
  - unfold project_default in H. inv H.
    destruct (need COL_ATTR_INT), (need COL_ATTR_STR); solve_pending.
Qed.

Lemma pending_effect_refl b p : pending_effect b b p p.
Proof. unfold pending_effect. repeat split; apply fills_once_refl. Qed.

Lemma pending_effect_trans b1 b2 b3 p1 p2 p3 :
  pending_effect b1 b2 p1 p2 -> pending_effect b2 b3 p2 p3 ->
  pending_effect b1 b3 p1 p3.
Proof.
  intros (T & N & L & F & D) (T' & N' & L' & F' & D').
  unfold pending_effect. repeat split; [congruence|..];
    eapply fills_once_trans; eassumption.
Qed.

Lemma parseAttribute_pending ctx need tag attr unit b p unit' b' p' :
  parseAttribute ctx need tag attr (unit, b, p) = Ok (unit', b', p') ->
  pending_effect b b' p p'.
Proof.
  unfold parseAttribute. intros H.
  destruct (extractValue _ _ _ _ _) as [[val off]|]; [|discriminate].
  apply bind_Ok in H as (unit1 & _ & H).
  apply project_value_pending in H.
  destruct (need COL_ATTR_NAME), (need COL_ATTR_FORM); exact H.
Qed.

Lemma parseAttributes_pending ctx need tag attrs :
  forall unit b p unit' b' p',
    parseAttributes ctx need tag attrs (unit, b, p) = Ok (unit', b', p') ->
    pending_effect b b' p p'.
Proof.
  induction attrs as [|attr rest IH]; intros unit b p unit' b' p' H.
  - simpl in H. inv H. apply pending_effect_refl.
  - rewrite parseAttributes_cons in H.
    apply bind_Ok in H as ([[unit1 b1] p1] & H1 & H2).
    apply parseAttribute_pending in H1. apply IH in H2.
    eapply pending_effect_trans; eassumption.
Qed.

Lemma parseNull_one_row need die_offset unit b unit' b' :
  parseNull need die_offset unit b = Ok (unit', b') -> one_row need b b'.
Proof.
  unfold parseNull, one_row. intros H.
  destruct (stack unit); [discriminate|]. inv H.
  destruct (need COL_SIZE), (need COL_TAG), (need COL_NAME),
    (need COL_LINKAGE_NAME), (need COL_DECL_FILE), (need COL_DECL_LINE),
    (need COL_ATTR_NAME); simpl; repeat split.
Qed.

Lemma parseDIE_one_row ctx need die_offset code unit b unit' b' :
  parseDIE ctx need die_offset code unit b = Ok (unit', b') ->
  one_row need b b'.
Proof.
  unfold parseDIE. intros H.
  destruct (abbrevs unit (to_UInt32 code)) as [abbrev|]; [|discriminate].
  destruct (code >? UINT32_MAX); [discriminate|].
  apply bind_Ok in H as ([[unit1 b1] p1] & H1 & H2).
  apply parseAttributes_pending in H1 as (T & N & L & F & D).
  apply fills_once_length in N, L, F, D.
  assert (T0 : length (col_tag b1) =
               if need COL_TAG then S (length (col_tag b))
               else length (col_tag b))
    by (rewrite T; destruct (need COL_TAG); reflexivity).
  replace (col_name (if need COL_TAG then push_tag (getTag abbrev) b else b))
    with (col_name b) in N by (destruct (need COL_TAG); reflexivity).
  replace (col_linkage_name
             (if need COL_TAG then push_tag (getTag abbrev) b else b))
    with (col_linkage_name b) in L by (destruct (need COL_TAG); reflexivity).
  replace (col_decl_file
             (if need COL_TAG then push_tag (getTag abbrev) b else b))
    with (col_decl_file b) in F by (destruct (need COL_TAG); reflexivity).
  replace (col_decl_line
             (if need COL_TAG then push_tag (getTag abbrev) b else b))
    with (col_decl_line b) in D by (destruct (need COL_TAG); reflexivity).
  clear T. cbn [need_name need_linkage_name need_decl_file need_decl_line]
    in N, L, F, D.
  inv H2. unfold one_row.
  destruct p1 as [pn pl pf pd].
  cbn [need_name need_linkage_name need_decl_file need_decl_line] in *.
  destruct (need COL_SIZE), (need COL_ATTR_NAME), pn, pl, pf, pd;
    cbn [col_tag col_name col_linkage_name col_decl_file col_decl_line
         push_size push_attr_offsets push_name push_linkage_name
         push_decl_file push_decl_line length];
    repeat split;
    first [ exact T0
          | destruct (need COL_NAME); lia
          | destruct (need COL_LINKAGE_NAME); lia
          | destruct (need COL_DECL_FILE); lia
          | destruct (need COL_DECL_LINE); lia ].
Qed.

Lemma parseEntry_one_row ctx need unit b unit' b' :
  parseEntry ctx need unit b = Ok (unit', b') -> one_row need b b'.
Proof.
  intros H. apply parseEntry_inv in H as (code & off & _ & [[_ H]|[_ H]]).
  - apply parseNull_one_row in H.
    destruct (row_head_frame need unit b) as (T & N & L & D).
    destruct (row_head_effect need unit b) as (_ & _ & F & _).
    unfold one_row in *. rewrite T, N, L, D, F in H. exact H.
  - apply parseDIE_one_row in H.
    destruct (row_head_frame need unit b) as (T & N & L & D).
    destruct (row_head_effect need unit b) as (_ & _ & F & _).
    unfold one_row in *. rewrite T, N, L, D, F in H. exact H.
Qed.

Lemma parse_rows_flat_rows ctx need fuel n unit b n' unit' b' :
  parse_rows ctx need fuel n unit b = Ok (n', unit', b') ->
  flat_rows need n b -> flat_rows need n' b'.
Proof.
  intros H. revert H.
  apply (parse_rows_invariant ctx need (fun n _ b => flat_rows need n b)).
  clear. intros n unit b unit' b' (T & N & L & F & D) H.
  apply parseEntry_one_row in H as (T' & N' & L' & F' & D').
  unfold flat_rows. rewrite T', N', L', F', D', T, N, L, F, D.
  destruct (need COL_TAG), (need COL_NAME), (need COL_LINKAGE_NAME),
    (need COL_DECL_FILE), (need COL_DECL_LINE); repeat split.
Qed.

Lemma length_in_row_order {A : Type} (builder : list A) :
  length (in_row_order builder) = length builder.
Proof. rewrite in_row_order_rev. apply length_rev. Qed.

Lemma empty_flat_rows (need : Need) : flat_rows need 0 empty_builders.
Proof.
  unfold flat_rows.
  destruct (need COL_TAG), (need COL_NAME), (need COL_LINKAGE_NAME),
    (need COL_DECL_FILE), (need COL_DECL_LINE); repeat split.
Qed.

Lemma assemble_column_rows ctx header unit n unit' b c :
  parse_rows ctx (propagate_need (need_of_header header)) MAX_ROWS 0 unit
    empty_builders = Ok (n, unit', b) ->
  In c header ->
  (c = COL_DECL_FILE -> exists table, filename_table unit' = Some table) ->
  column_rows (built_column unit' b n c) = n.
Proof.
  intros H Hc Htab.
  set (need := propagate_need (need_of_header header)) in *.
  pose proof (parse_rows_count ctx need _ _ _ _ _ _ _ H (empty_counts need))
    as (Co & Cs & Ca & Cn).
  assert (Hf : flat_rows need n b).
  { apply (parse_rows_flat_rows _ _ _ _ _ _ _ _ _ H).
    apply empty_flat_rows. }
  destruct Hf as (Ft & Fn & Fl & Ff & Fd).
  pose proof (propagate_need_In header c Hc) as Hn. fold need in Hn.
  destruct (propagate_need_closed (need_of_header header))
    as (Kf & Ki & Ks & Ko). fold need in Kf, Ki, Ks, Ko.
  destruct c; simpl;
    try (destruct (Htab eq_refl) as [table ->]; simpl);
    rewrite ?length_in_row_order, ?repeat_length;
    try rewrite Hn in *; try assumption; try reflexivity.
  - rewrite (Ko eq_refl) in Cn. exact Cn.
  - rewrite (Kf eq_refl) in Ca. exact Ca.
  - rewrite (Ki eq_refl) in Ca. exact Ca.
  - rewrite (Ks eq_refl) in Ca. exact Ca.
Qed.
(** ** Ancestors *)

Lemma row_head_ancestors need unit b :
  let b' := row_head need unit b in
  col_ancestor_tags b' =
    (if need COL_ANCESTOR_TAGS
     then rev (map StackEntry.tag (stack unit)) ++ col_ancestor_tags b
     else col_ancestor_tags b) /\
  col_ancestor_dwarf_offsets b' =
    (if need COL_ANCESTOR_TAGS && need COL_ANCESTOR_OFFSETS
     then rev (map StackEntry.offset (stack unit))
          ++ col_ancestor_dwarf_offsets b
     else col_ancestor_dwarf_offsets b).
Proof.
  unfold row_head.
  set (b0 := if need COL_OFFSET then push_offset (offset unit) b else b).
  assert (E : col_ancestor_tags b0 = col_ancestor_tags b /\
              col_ancestor_dwarf_offsets b0 = col_ancestor_dwarf_offsets b)
    by (subst b0; destruct (need COL_OFFSET); split; reflexivity).
  destruct E as [E1 E2].
  destruct (push_ancestors_effect need (stack unit) b0) as (H1 & H2 & _).
  destruct (need COL_ANCESTOR_TAGS); simpl.
  - rewrite H1, H2, E1, E2. split; reflexivity.
  - split; assumption.
Qed.

Lemma parseEntry_ancestors ctx need unit b unit' b' :
  parseEntry ctx need unit b = Ok (unit', b') ->
  col_ancestor_tags b' =
    (if need COL_ANCESTOR_TAGS
     then rev (map StackEntry.tag (stack unit)) ++ col_ancestor_tags b
     else col_ancestor_tags b) /\
  col_ancestor_dwarf_offsets b' =
    (if need COL_ANCESTOR_TAGS && need COL_ANCESTOR_OFFSETS
     then rev (map StackEntry.offset (stack unit))
          ++ col_ancestor_dwarf_offsets b
     else col_ancestor_dwarf_offsets b).
Proof.
  intros H. apply parseEntry_effect in H as (n & _ & _ & Ht & Ho & _).
  rewrite Ht, Ho. apply row_head_ancestors.
Qed.

Lemma parseEntry_stack ctx need unit b unit' b' :
  parseEntry ctx need unit b = Ok (unit', b') ->
  exists code off,
    getULEB128 ctx (offset unit) = Some (code, off) /\
    if code =? 0 then exists e, stack unit = e :: stack unit'
    else exists abbrev,
        abbrevs unit (to_UInt32 code) = Some abbrev /\
        stack unit' =
          (if hasChildren abbrev
           then StackEntry.mk (offset unit) (getTag abbrev) :: stack unit
           else stack unit).
Proof.
  intros H. apply parseEntry_inv in H as (code & off & Hl & [[E H]|[Hc H]]);
    exists code, off; (split; [exact Hl|]).
  - subst code. apply parseNull_effect in H as (He & _). exact He.
  - apply Z.eqb_neq in Hc. rewrite Hc.
    apply parseDIE_effect in H as (abbrev & Ha & _ & Hs & _).
    exists abbrev. auto.
Qed.

Lemma below_weaken next next' offsets :
  next <= next' -> below next offsets -> below next' offsets.
Proof. destruct offsets; simpl; [auto|]. intros ? [? ?]. split; [lia|auto]. Qed.

Lemma parseEntry_enclosing ctx need unit b unit' b' :
  advances ctx -> enclosing unit ->
  parseEntry ctx need unit b = Ok (unit', b') -> enclosing unit'.
Proof.
  unfold enclosing. intros Ha He H.
  pose proof (parseEntry_unit _ _ _ _ _ _ H) as (_ & _ & _ & Hlt).
  specialize (Hlt Ha).
  apply parseEntry_stack in H as (code & off & _ & H).
  destruct (code =? 0).
  - destruct H as [e Hs]. rewrite Hs in He. simpl in He.
    destruct He as [H1 H2].
    apply below_weaken with (next := StackEntry.offset e); [lia|exact H2].
  - destruct H as (abbrev & _ & Hs). rewrite Hs.
    destruct (hasChildren abbrev); simpl.
    + split; [lia|exact He].
    + apply below_weaken with (next := offset unit); [lia|exact He].
Qed.

Lemma parse_rows_enclosing ctx need fuel n unit b n' unit' b' :
  advances ctx -> enclosing unit ->
  parse_rows ctx need fuel n unit b = Ok (n', unit', b') -> enclosing unit'.
Proof.
  intros Ha He H.
  apply (parse_rows_invariant ctx need (fun _ u _ => enclosing u))
    with (2 := H); [|exact He].
  intros ? u0 b0 u1 b1 HP H1. eapply parseEntry_enclosing; eassumption.
Qed.

(** X7.  The ancestors of a row are the entries of the stack as the row
    begins, from the top of the stack (the innermost enclosing DIE) to its
    bottom, tags and offsets side by side.  A DIE that has children is the
    top of the stack from the next row on; the terminator of a sibling list
    is a row of its own that still lists the DIE it closes, which leaves the
    stack only after the row. *)
Theorem ancestors_of_a_row ctx need unit b unit' b' :
  parseEntry ctx need unit b = Ok (unit', b') ->
  in_row_order (col_ancestor_tags b') =
    in_row_order (col_ancestor_tags b)
    ++ (if need COL_ANCESTOR_TAGS then map StackEntry.tag (stack unit)
        else []) /\
  in_row_order (col_ancestor_dwarf_offsets b') =
    in_row_order (col_ancestor_dwarf_offsets b)
    ++ (if need COL_ANCESTOR_TAGS && need COL_ANCESTOR_OFFSETS
        then map StackEntry.offset (stack unit) else []) /\
  exists code off,
    getULEB128 ctx (offset unit) = Some (code, off) /\
    if code =? 0 then exists e, stack unit = e :: stack unit'
    else exists abbrev,
        abbrevs unit (to_UInt32 code) = Some abbrev /\
        stack unit' =
          (if hasChildren abbrev
           then StackEntry.mk (offset unit) (getTag abbrev) :: stack unit
           else stack unit).
Proof.
  intros H. destruct (parseEntry_ancestors _ _ _ _ _ _ H) as [Ht Ho].
  rewrite !in_row_order_rev, Ht, Ho.
  repeat split.
  - destruct (need COL_ANCESTOR_TAGS);
      [rewrite rev_app_distr, rev_involutive|rewrite app_nil_r]; reflexivity.
  - destruct (need COL_ANCESTOR_TAGS && need COL_ANCESTOR_OFFSETS);
      [rewrite rev_app_distr, rev_involutive|rewrite app_nil_r]; reflexivity.
  - eapply parseEntry_stack; eassumption.
Qed.

Lemma ancestors_of_a_row_witness :
  exists unit' b',
    parseEntry (sample_context 5) (need_of_header all_columns)
      (set_stack [StackEntry.mk 0x100b DW_TAG_compile_unit]
         (set_offset 0x1023 sample_unit))
      empty_builders = Ok (unit', b') /\
    in_row_order (col_ancestor_tags b') = [DW_TAG_compile_unit] /\
    in_row_order (col_ancestor_dwarf_offsets b') = [0x100b] /\
    stack unit' = [].
Proof.
  eexists. eexists.
  match goal with
  | |- ?A /\ _ => assert (Hp : A) by (vm_compute; reflexivity)
  end.
  split; [exact Hp|].
  destruct (ancestors_of_a_row _ _ _ _ _ _ Hp) as (Ht & Ho & _).
  split; [exact Ht|]. split; [exact Ho|]. reflexivity.
Defined.

(** X8.  The offsets on the stack go down strictly from its top and all lie
    before the cursor, given that the extractors move the cursor forward:
    the property holds for the state the constructor builds and every row
    and every call of [parseEntries] keeps it.  So the ancestor offsets of a
    row, innermost first, are strictly decreasing and smaller than the offset
    of the row. *)
Theorem ancestors_enclose_the_row ctx :
  advances ctx ->
  (forall u unit, UnitState_ctor u = inr unit -> enclosing unit) /\
  (forall need unit b unit' b',
      enclosing unit -> parseEntry ctx need unit b = Ok (unit', b') ->
      enclosing unit') /\
  (forall header unit chunk unit',
      enclosing unit -> parseEntries ctx header unit = Ok (chunk, unit') ->
      enclosing unit').
Proof.
  intros Ha. repeat split.
  - intros u unit H. unfold UnitState_ctor in H.
    destruct (getAbbreviations u); [|discriminate].
    destruct (tryExtractDIEsIfNeeded u); [discriminate|].
    inv H. exact I.
  - intros need unit b unit' b' He H.
    eapply parseEntry_enclosing; eassumption.
  - intros header unit chunk unit' He H.
    apply parseEntries_inv in H as (n & b & H & _).
    eapply parse_rows_enclosing; eassumption.
Qed.

Lemma ancestors_enclose_the_row_witness :
  advances (sample_context 5) /\
  exists unit' b',
    parseEntry (sample_context 5) (need_of_header all_columns) sample_unit
      empty_builders = Ok (unit', b') /\
    stack unit' = [StackEntry.mk 0x100b DW_TAG_compile_unit] /\
    offset unit' = 0x1016 /\
    enclosing unit'.
Proof.
  split; [apply sample_context_advances|].
  eexists. eexists.
  match goal with
  | |- ?A /\ _ => assert (Hp : A) by (vm_compute; reflexivity)
  end.
  split; [exact Hp|]. split; [reflexivity|]. split; [reflexivity|].
  destruct (ancestors_enclose_the_row (sample_context 5)
              (sample_context_advances 5)) as (_ & H & _).
  refine (H _ _ _ _ _ _ Hp). exact I.
Defined.
(** ** Exceptions of the decoder *)

Ltac throw_in H :=
  repeat (cbv beta iota zeta in H;
          match type of H with
          | Ok _ = Throw _ => discriminate H
          | Undefined = Throw _ => discriminate H
          | context [match ?x with _ => _ end] =>
              lazymatch x with
              | context [match _ with _ => _ end] => fail
              | _ => destruct x eqn:?
              end
          | bind ?r _ = Throw _ => destruct r eqn:?; unfold bind in H
          end).

Lemma getDataAt_throw table idx e : getDataAt table idx <> Throw e.
Proof.
  unfold getDataAt. destruct table as [col|]; [|discriminate].
  destruct (nth_error col (Z.to_nat idx)); discriminate.
Qed.

Lemma project_value_throw ctx need tag attr val st e :
  project_value ctx need tag attr val st = Throw e ->
  e = CANNOT_PARSE_DWARF "Error parsing string attribute".
Proof.
  destruct st as [[unit b] p]. unfold project_value. intros H.
  destruct (form_group (getForm val)).
  - unfold project_integer in H.
    throw_in H; exfalso; eapply getDataAt_throw; eassumption.
  - discriminate H.
  - discriminate H.
  - unfold project_string in H. throw_in H. inv H. reflexivity.
  - discriminate H.
  - discriminate H.
Qed.

Lemma parseAttribute_throw ctx need tag attr st e :
  parseAttribute ctx need tag attr st = Throw e ->
  exists msg, e = CANNOT_PARSE_DWARF msg /\ In msg attribute_messages.
Proof.
  destruct st as [[unit b] p]. unfold parseAttribute. intros H.
  destruct (extractValue _ _ _ _ _) as [[val off]|].
  - match type of H with
    | bind ?r _ = _ => destruct r as [unit1| |] eqn:Er
    end; simpl in H.
    + apply project_value_throw in H. subst e.
      eexists. split; [reflexivity|]. simpl. auto.
    + inv H. unfold parseFilenameTable in Er. throw_in Er; inv Er;
        (eexists; split; [reflexivity|]; simpl; auto).
    + discriminate H.
  - inv H. eexists. split; [reflexivity|]. simpl. auto.
Qed.

Lemma parseAttributes_throw ctx need tag attrs :
  forall st e,
    parseAttributes ctx need tag attrs st = Throw e ->
    exists msg, e = CANNOT_PARSE_DWARF msg /\ In msg attribute_messages.
Proof.
  induction attrs as [|attr rest IH]; intros st e H.
  - discriminate H.
  - rewrite parseAttributes_cons in H.
    destruct (parseAttribute ctx need tag attr st) as [st1| |] eqn:E;
      simpl in H.
    + eapply IH; eassumption.
    + inv H. eapply parseAttribute_throw; eassumption.
    + discriminate H.
Qed.

(** X9.  A row fails with "Abbrev code in DIE header is out of bounds"
    exactly when the abbreviation code read at the cursor is not 0 and
    either the unit has no abbreviation for the code truncated to 32 bits or
    the code itself exceeds [UINT32_MAX]: a code above [UINT32_MAX] is
    refused also when its low 32 bits name an abbreviation of the unit. *)
Theorem abbrev_code_out_of_bounds ctx need unit b :
  parseEntry ctx need unit b
    = Throw (CANNOT_PARSE_DWARF "Abbrev code in DIE header is out of bounds")
  <->
  exists code off,
    getULEB128 ctx (offset unit) = Some (code, off) /\ code <> 0 /\
    (abbrevs unit (to_UInt32 code) = None \/ UINT32_MAX < code).
Proof.
  unfold parseEntry. fold (row_head need unit b). split.
  - intros H.
    destruct (getULEB128 ctx (offset unit)) as [[code off]|]; [|discriminate].
    exists code, off. split; [reflexivity|].
    destruct (code =? 0) eqn:E0.
    + unfold parseNull in H.
      destruct (stack (set_offset off unit)); discriminate.
    + apply Z.eqb_neq in E0. split; [exact E0|].
      unfold parseDIE in H. simpl in H.
      destruct (abbrevs unit (to_UInt32 code)) as [abbrev|]; [|auto].
      destruct (code >? UINT32_MAX) eqn:Eg; [right; lia|].
      exfalso.
      match type of H with
      | bind ?r _ = _ => destruct r as [[[unit1 b1] p1]| |] eqn:Er
      end; simpl in H; try discriminate H.
      inv H. apply parseAttributes_throw in Er as (msg & Em & Hin).
      inv Em. simpl in Hin. intuition discriminate.
  - intros (code & off & Hl & Hc & Hb). rewrite Hl.
    apply Z.eqb_neq in Hc. rewrite Hc. unfold parseDIE. simpl.
    destruct Hb as [Hb|Hb].
    + rewrite Hb. reflexivity.
    + destruct (abbrevs unit (to_UInt32 code)); [|reflexivity].
      replace (code >? UINT32_MAX) with true by lia. reflexivity.
Qed.

Lemma parseEntry_throw ctx need unit b e :
  parseEntry ctx need unit b = Throw e ->
  exists msg, e = CANNOT_PARSE_DWARF msg /\ In msg decoder_messages.
Proof.
  unfold parseEntry. fold (row_head need unit b). intros H.
  destruct (getULEB128 ctx (offset unit)) as [[code off]|].
  - destruct (code =? 0).
    + unfold parseNull in H.
      destruct (stack (set_offset off unit)); [|discriminate].
      inv H. eexists. split; [reflexivity|]. simpl. auto.
    + unfold parseDIE in H.
      destruct (abbrevs (set_offset off unit) (to_UInt32 code));
        [|inv H; eexists; split; [reflexivity|]; simpl; auto].
      destruct (code >? UINT32_MAX);
        [inv H; eexists; split; [reflexivity|]; simpl; auto|].
      match type of H with
      | bind ?r _ = _ => destruct r as [[[unit1 b1] p1]| |] eqn:Er
      end; simpl in H; try discriminate H.
      inv H. apply parseAttributes_throw in Er as (msg & Em & Hin).
      exists msg. split; [exact Em|].
      unfold decoder_messages. apply in_or_app. right. exact Hin.
  - inv H. eexists. split; [reflexivity|]. simpl. auto.
Qed.

Lemma parse_rows_throw ctx need :
  forall fuel n unit b e,
    parse_rows ctx need fuel n unit b = Throw e ->
    exists msg, e = CANNOT_PARSE_DWARF msg /\ In msg decoder_messages.
Proof.
  induction fuel as [|fuel IH]; intros n unit b e H.
  - discriminate H.
  - rewrite parse_rows_step in H.
    destruct (parseEntry ctx need unit b) as [[unit1 b1]| |] eqn:E;
      simpl in H.
    + destruct (stack unit1).
      * destruct (eof unit1); [discriminate|].
        inv H. eexists. split; [reflexivity|]. simpl. auto.
      * eapply IH; eassumption.
    + inv H. eapply parseEntry_throw; eassumption.
    + discriminate H.
Qed.
(** ** Single attributes *)

Lemma fills_once_done {A : Type} pending' (col col' : list A) :
  fills_once false pending' col col' -> col' = col /\ pending' = false.
Proof. intros [[-> ->]|(E & _)]; [auto|discriminate E]. Qed.

(** X11.  A string-form [DW_AT_name] fills the [name] column of the row
    when no earlier attribute of the DIE has, and no later attribute of the
    DIE touches the column again: the first name wins.  The name of the unit
    is another matter: in a DIE whose tag is [DW_TAG_compile_unit] every
    such attribute overwrites [unit_name], whether or not the [name] column
    is requested or already filled, so there the last name wins. *)
Theorem name_first_unit_name_last
    ctx need tag attr unit b p val off res unit' b' p' :
  extractValue ctx (dwarf_unit unit) (Form_ attr)
    (if isImplicitConst attr then getImplicitConstValue attr else 0)
    (offset unit) = Some (val, off) ->
  Attr attr = DW_AT_name ->
  form_group (getForm val) = StringForm ->
  getAsCString val = Some res ->
  parseAttribute ctx need tag attr (unit, b, p) = Ok (unit', b', p') ->
  col_name b' = (if need_name p then res :: col_name b else col_name b) /\
  need_name p' = false /\
  unit_name unit' =
    (if tag =? DW_TAG_compile_unit then res else unit_name unit) /\
  forall rest unit'' b'' p'',
    parseAttributes ctx need tag rest (unit', b', p') = Ok (unit'', b'', p'') ->
    col_name b'' = col_name b' /\ need_name p'' = false.
Proof.
  intros He Ha Hg Hs H.
  assert (Hmain :
            col_name b' =
              (if need_name p then res :: col_name b else col_name b) /\
            need_name p' = false /\
            unit_name unit' =
              (if tag =? DW_TAG_compile_unit then res else unit_name unit)).
  { unfold parseAttribute in H. rewrite He, Ha in H.
    change (DW_AT_name =? DW_AT_stmt_list) with false in H.
    cbn [andb bind] in H.
    unfold project_value in H. rewrite Hg in H.
    unfold project_string in H. rewrite Hs, Ha in H.
    change (DW_AT_name =? DW_AT_name) with true in H.
    change (DW_AT_name =? DW_AT_linkage_name) with false in H.
    cbn [andb] in H.
    destruct p as [pn pl pf pd]. cbn [need_name] in *.
    destruct pn, (tag =? DW_TAG_compile_unit), (need COL_ATTR_NAME),
      (need COL_ATTR_FORM), (need COL_ATTR_STR), (need COL_ATTR_INT);
      inv H; repeat split. }
  destruct Hmain as (H1 & H2 & H3).
  split; [exact H1|]. split; [exact H2|]. split; [exact H3|].
  intros rest unit'' b'' p'' H0.
  apply parseAttributes_pending in H0 as (_ & N & _).
  rewrite H2 in N. apply fills_once_done in N. exact N.
Qed.

Lemma name_first_unit_name_last_witness :
  exists unit' b' p',
    parseAttribute (sample_context 5) (need_of_header all_columns)
      DW_TAG_compile_unit (attribute DW_AT_name DW_FORM_string)
      (set_unit_name "old" (set_offset 0x100c sample_unit), empty_builders,
       mkPending false true true true) = Ok (unit', b', p') /\
    col_name b' = [] /\ unit_name unit' = "a.c"%string.
Proof.
  eexists. eexists. eexists.
  match goal with
  | |- ?A /\ _ => assert (Hp : A) by (vm_compute; reflexivity)
  end.
  split; [exact Hp|].
  destruct (name_first_unit_name_last (sample_context 5)
              (need_of_header all_columns) DW_TAG_compile_unit
              (attribute DW_AT_name DW_FORM_string)
              (set_unit_name "old" (set_offset 0x100c sample_unit))
              empty_builders (mkPending false true true true)
              (string_value DW_FORM_string "a.c") 0x1010 "a.c"%string
              _ _ _ eq_refl eq_refl eq_refl eq_refl Hp)
    as (H1 & _ & H3 & _).
  split; [exact H1|exact H3].
Defined.

(** X12.  An integer-form [DW_AT_decl_line] fills the [decl_line] column
    with its raw value truncated to 32 bits when no earlier attribute of the
    DIE has, and no later attribute touches the column; the [attr_int]
    array keeps the full 64-bit value. *)
Theorem decl_line_is_32_bit ctx need tag attr unit b p val off unit' b' p' :
  extractValue ctx (dwarf_unit unit) (Form_ attr)
    (if isImplicitConst attr then getImplicitConstValue attr else 0)
    (offset unit) = Some (val, off) ->
  Attr attr = DW_AT_decl_line ->
  form_group (getForm val) = IntegerForm ->
  parseAttribute ctx need tag attr (unit, b, p) = Ok (unit', b', p') ->
  col_decl_line b' =
    (if need_decl_line p then to_UInt32 (getRawUValue val) :: col_decl_line b
     else col_decl_line b) /\
  need_decl_line p' = false /\
  col_attr_int b' =
    (if need COL_ATTR_INT then getRawUValue val :: col_attr_int b
     else col_attr_int b) /\
  forall rest unit'' b'' p'',
    parseAttributes ctx need tag rest (unit', b', p') = Ok (unit'', b'', p'') ->
    col_decl_line b'' = col_decl_line b'.
Proof.
  intros He Ha Hg H.
  assert (Hmain :
            col_decl_line b' =
              (if need_decl_line p
               then to_UInt32 (getRawUValue val) :: col_decl_line b
               else col_decl_line b) /\
            need_decl_line p' = false /\
            col_attr_int b' =
              (if need COL_ATTR_INT then getRawUValue val :: col_attr_int b
               else col_attr_int b)).
  { unfold parseAttribute in H. rewrite He, Ha in H.
    change (DW_AT_decl_line =? DW_AT_stmt_list) with false in H.
    cbn [andb bind] in H.
    unfold project_value in H. rewrite Hg in H.
    unfold project_integer in H. rewrite Ha in H.
    change (DW_AT_decl_line =? DW_AT_decl_line) with true in H.
    change (DW_AT_decl_line =? DW_AT_decl_file) with false in H.
    change (DW_AT_decl_line =? DW_AT_call_file) with false in H.
    change (DW_AT_decl_line =? DW_AT_language) with false in H.
    change (DW_AT_decl_line =? DW_AT_encoding) with false in H.
    cbn [andb orb] in H.
    destruct p as [pn pl pf pd]. cbn [need_decl_line] in *.
    destruct pd, (need COL_ATTR_NAME), (need COL_ATTR_FORM),
      (need COL_ATTR_STR), (need COL_ATTR_INT);
      inv H; repeat split. }
  destruct Hmain as (H1 & H2 & H3).
  split; [exact H1|]. split; [exact H2|]. split; [exact H3|].
  intros rest unit'' b'' p'' H0.
  apply parseAttributes_pending in H0 as (_ & _ & _ & _ & D).
  rewrite H2 in D. apply fills_once_done in D. apply D.
Qed.

Lemma decl_line_is_32_bit_witness :
  exists unit' b' p',
    parseAttribute
      (table_context [] [(0, (integer_value DW_FORM_data8 4294967303, 8))] [])
      (need_of_header all_columns) 0x2e
      (attribute DW_AT_decl_line DW_FORM_data8)
      (set_offset 0 sample_unit, empty_builders,
       mkPending true true true true) = Ok (unit', b', p') /\
    col_decl_line b' = [7] /\ col_attr_int b' = [4294967303].
Proof.
  eexists. eexists. eexists.
  match goal with
  | |- ?A /\ _ => assert (Hp : A) by (vm_compute; reflexivity)
  end.
  split; [exact Hp|].
  destruct (decl_line_is_32_bit
              (table_context []
                 [(0, (integer_value DW_FORM_data8 4294967303, 8))] [])
              (need_of_header all_columns) 0x2e
              (attribute DW_AT_decl_line DW_FORM_data8)
              (set_offset 0 sample_unit) empty_builders
              (mkPending true true true true)
              (integer_value DW_FORM_data8 4294967303) 8 _ _ _
              eq_refl eq_refl eq_refl Hp) as (H1 & _ & H3 & _).
  split; [exact H1|exact H3].
Defined.

(** ** Names without their prefix *)

Lemma string_length_append (s1 s2 : string) :
  String.length (s1 ++ s2) = (String.length s1 + String.length s2)%nat.
Proof. induction s1; simpl; [reflexivity|]. rewrite IHs1. reflexivity. Qed.

Lemma substring_all (s : string) : substring 0 (String.length s) s = s.
Proof. induction s; simpl; [reflexivity|]. rewrite IHs. reflexivity. Qed.

Lemma substring_append (s1 s2 : string) (m : nat) :
  substring (String.length s1) m (s1 ++ s2) = substring 0 m s2.
Proof. induction s1; simpl; [reflexivity|]. exact IHs1. Qed.

Lemma removePrefix_append (prefix s : string) :
  removePrefix (prefix ++ s) (String.length prefix) = s.
Proof.
  unfold removePrefix. rewrite string_length_append.
  replace (String.length prefix <=? String.length prefix + String.length s)%nat
    with true by (symmetry; apply Nat.leb_le; lia).
  replace (String.length prefix + String.length s - String.length prefix)%nat
    with (String.length s) by lia.
  rewrite substring_append. apply substring_all.
Qed.

Lemma removePrefix_short (s : string) (prefix_len : nat) :
  (String.length s < prefix_len)%nat -> removePrefix s prefix_len = s.
Proof.
  unfold removePrefix. intros H.
  replace (prefix_len <=? String.length s)%nat with false
    by (symmetry; apply Nat.leb_gt; exact H).
  reflexivity.
Qed.

Lemma removePrefix_split (prefix_len : nat) :
  forall s : string,
    (prefix_len <= String.length s)%nat ->
    exists dropped,
      String.length dropped = prefix_len /\
      s = (dropped ++ removePrefix s prefix_len)%string.
Proof.
  unfold removePrefix. induction prefix_len as [|n IH]; intros s Hl.
  - exists EmptyString. split; [reflexivity|]. simpl.
    rewrite Nat.sub_0_r, substring_all. reflexivity.
  - destruct s as [|c s]; [simpl in Hl; lia|]. simpl in Hl.
    destruct (IH s) as (d & Hd & Hs); [lia|].
    replace (n <=? String.length s)%nat with true in Hs
      by (symmetry; apply Nat.leb_le; lia).
    exists (String c d). split; [simpl; congruence|].
    replace (S n <=? String.length (String c s))%nat with true
      by (symmetry; apply Nat.leb_le; simpl; lia).
    simpl. f_equal. exact Hs.
Qed.

(** X1.  [removePrefix] drops the first [prefix_len] characters of a string
    that has at least that many, whatever they are, and returns a shorter
    string as it is: a name loses its prefix, and the empty name LLVM gives
    an unknown code stays empty. *)
Theorem removePrefix_strips (s : string) (prefix_len : nat) :
  ((prefix_len <= String.length s)%nat ->
   exists dropped,
     String.length dropped = prefix_len /\
     s = (dropped ++ removePrefix s prefix_len)%string) /\
  ((String.length s < prefix_len)%nat -> removePrefix s prefix_len = s) /\
  (forall prefix,
      removePrefix (prefix ++ s) (String.length prefix) = s).
Proof.
  split; [apply removePrefix_split|].
  split; [apply removePrefix_short|].
  intros prefix. apply removePrefix_append.
Qed.

Lemma removePrefix_strips_witness :
  removePrefix "DW_TAG_compile_unit" 7 = "compile_unit"%string /\
  removePrefix EmptyString 7 = EmptyString.
Proof.
  split.
  - exact (proj2 (proj2 (removePrefix_strips "compile_unit" 7)) "DW_TAG_"%string).
  - apply (proj1 (proj2 (removePrefix_strips EmptyString 7))). simpl. lia.
Defined.

(** X13.  For an integer-form [DW_AT_language] the string put in
    [attr_str] is the name LLVM gives the language code truncated to 32
    bits, without its [DW_LANG_] prefix; for [DW_AT_encoding] it is the name
    of the base-type encoding without [DW_ATE_]; a code LLVM has no name for
    gives the empty string.  The [attr_int] array has the raw value. *)
Theorem language_and_encoding_names
    ctx need tag attr unit b p val off unit' b' p' :
  extractValue ctx (dwarf_unit unit) (Form_ attr)
    (if isImplicitConst attr then getImplicitConstValue attr else 0)
    (offset unit) = Some (val, off) ->
  form_group (getForm val) = IntegerForm ->
  need COL_ATTR_STR = true ->
  parseAttribute ctx need tag attr (unit, b, p) = Ok (unit', b', p') ->
  let code := to_UInt32 (getRawUValue val) in
  (Attr attr = DW_AT_language ->
   col_attr_str b' = removePrefix (LanguageString ctx code) 8 :: col_attr_str b
   /\
   forall name,
     LanguageString ctx code = ("DW_LANG_" ++ name)%string ->
     col_attr_str b' = name :: col_attr_str b) /\
  (Attr attr = DW_AT_encoding ->
   col_attr_str b' =
     removePrefix (AttributeEncodingString ctx code) 7 :: col_attr_str b /\
   forall name,
     AttributeEncodingString ctx code = ("DW_ATE_" ++ name)%string ->
     col_attr_str b' = name :: col_attr_str b).
Proof.
  intros He Hg Hn H code. unfold parseAttribute in H. rewrite He in H.
  split; intros Ha; rewrite Ha in H.
  - change (DW_AT_language =? DW_AT_stmt_list) with false in H.
    cbn [andb bind] in H.
    unfold project_value in H. rewrite Hg in H.
    unfold project_integer in H. rewrite Ha, Hn in H.
    change (DW_AT_language =? DW_AT_decl_line) with false in H.
    change (DW_AT_language =? DW_AT_decl_file) with false in H.
    change (DW_AT_language =? DW_AT_call_file) with false in H.
    change (DW_AT_language =? DW_AT_language) with true in H.
    cbn [andb orb] in H.
    assert (E : col_attr_str b' =
                removePrefix (LanguageString ctx code) 8 :: col_attr_str b)
      by (destruct (need COL_ATTR_NAME), (need COL_ATTR_FORM),
            (need COL_ATTR_INT); inv H; reflexivity).
    split; [exact E|]. intros name Hs. rewrite E, Hs.
    pose proof (removePrefix_append "DW_LANG_" name) as Hr.
    change (String.length "DW_LANG_") with 8%nat in Hr.
    rewrite Hr. reflexivity.
  - change (DW_AT_encoding =? DW_AT_stmt_list) with false in H.
    cbn [andb bind] in H.
    unfold project_value in H. rewrite Hg in H.
    unfold project_integer in H. rewrite Ha, Hn in H.
    change (DW_AT_encoding =? DW_AT_decl_line) with false in H.
    change (DW_AT_encoding =? DW_AT_decl_file) with false in H.
    change (DW_AT_encoding =? DW_AT_call_file) with false in H.
    change (DW_AT_encoding =? DW_AT_language) with false in H.
    change (DW_AT_encoding =? DW_AT_encoding) with true in H.
    cbn [andb orb] in H.
    assert (E : col_attr_str b' =
                removePrefix (AttributeEncodingString ctx code) 7
                :: col_attr_str b)
      by (destruct (need COL_ATTR_NAME), (need COL_ATTR_FORM),
            (need COL_ATTR_INT); inv H; reflexivity).
    split; [exact E|]. intros name Hs. rewrite E, Hs.
    pose proof (removePrefix_append "DW_ATE_" name) as Hr.
    change (String.length "DW_ATE_") with 7%nat in Hr.
    rewrite Hr. reflexivity.
Qed.

Lemma language_and_encoding_names_witness :
  exists unit' b' p',
    parseAttribute
      (table_context [] [(0, (integer_value DW_FORM_data8 4294967300, 8))] [])
      (need_of_header all_columns) DW_TAG_compile_unit
      (attribute DW_AT_language DW_FORM_data8)
      (set_offset 0 sample_unit, empty_builders,
       mkPending true true true true) = Ok (unit', b', p') /\
    col_attr_str b' = ["C_plus_plus"%string].
Proof.
  eexists. eexists. eexists.
  match goal with
  | |- ?A /\ _ => assert (Hp : A) by (vm_compute; reflexivity)
  end.
  split; [exact Hp|].
  destruct (language_and_encoding_names
              (table_context []
                 [(0, (integer_value DW_FORM_data8 4294967300, 8))] [])
              (need_of_header all_columns) DW_TAG_compile_unit
              (attribute DW_AT_language DW_FORM_data8)
              (set_offset 0 sample_unit) empty_builders
              (mkPending true true true true)
              (integer_value DW_FORM_data8 4294967300) 8 _ _ _
              eq_refl eq_refl eq_refl Hp) as [Hl _].
  destruct (Hl eq_refl) as [_ Hname].
  exact (Hname "C_plus_plus"%string eq_refl).
Defined.

(** ** File names *)

(** X4.  [parseFilenameTable] fails when the image has no [.debug_line]
    section or the prologue does not parse; otherwise it leaves the unit
    with a table whose entry 0 is the empty string, followed, under a
    prologue of version 4 or less, by one more empty entry, and then by the
    file names of the prologue in their order, a name LLVM cannot decode
    being ["<error>"]; the recorded size is the number of entries less one.
    The rest of the unit state is as it was. *)
Theorem parseFilenameTable_outcome ctx unit off :
  match parseFilenameTable ctx unit off with
  | Ok unit' =>
      debug_line_extractor ctx = true /\
      exists prologue table,
        prologue_parse ctx (dwarf_unit unit) off = Some prologue /\
        unit' = set_filename_table table unit /\
        nth_error table 0 = Some EmptyString /\
        let shift := if getVersion prologue <=? 4 then 2%nat else 1%nat in
        (getVersion prologue <= 4 -> nth_error table 1 = Some EmptyString) /\
        length table = (shift + length (FileNames prologue))%nat /\
        filename_table_size unit' =
          Z.of_nat (shift + length (FileNames prologue)) - 1 /\
        forall i entry,
          nth_error (FileNames prologue) i = Some entry ->
          nth_error table (shift + i) =
            Some (match entry with
                  | Some name => name
                  | None => "<error>"%string
                  end)
  | Throw e =>
      (debug_line_extractor ctx = false /\
       e = CANNOT_PARSE_DWARF
             "There are DW_AT_stmt_list but no .debug_line section") \/
      (debug_line_extractor ctx = true /\
       prologue_parse ctx (dwarf_unit unit) off = None /\
       e = CANNOT_PARSE_DWARF "Failed to parse .debug_line unit prologue")
  | Undefined => False
  end.
Proof.
  unfold parseFilenameTable.
  destruct (debug_line_extractor ctx); simpl; [|left; auto].
  destruct (prologue_parse ctx (dwarf_unit unit) off) as [prologue|];
    [|right; auto].
  split; [reflexivity|].
  eexists. eexists. split; [reflexivity|]. split; [reflexivity|].
  destruct (getVersion prologue <=? 4) eqn:Ev; simpl.
  - repeat split; try reflexivity.
    + rewrite length_map. reflexivity.
    + rewrite length_map. lia.
    + intros i entry Hi. rewrite nth_error_map, Hi. reflexivity.
  - repeat split; try reflexivity.
    + apply Z.leb_gt in Ev. lia.
    + rewrite length_map. reflexivity.
    + rewrite length_map. lia.
    + intros i entry Hi. rewrite nth_error_map, Hi. reflexivity.
Qed.

(** X14.  An integer-form [DW_AT_decl_file] or [DW_AT_call_file] whose raw
    value is below the size of the filename table puts the table entry at
    index raw + 1 in [attr_str]; a raw value that is not below the size
    puts the empty string there.  [DW_AT_call_file] never touches the
    [decl_file] column. *)
Theorem file_attribute_string ctx need tag attr unit b p val off unit' b' p' :
  extractValue ctx (dwarf_unit unit) (Form_ attr)
    (if isImplicitConst attr then getImplicitConstValue attr else 0)
    (offset unit) = Some (val, off) ->
  Attr attr = DW_AT_decl_file \/ Attr attr = DW_AT_call_file ->
  form_group (getForm val) = IntegerForm ->
  need COL_ATTR_STR = true ->
  parseAttribute ctx need tag attr (unit, b, p) = Ok (unit', b', p') ->
  let raw := getRawUValue val in
  (exists s,
      col_attr_str b' = s :: col_attr_str b /\
      if raw <? filename_table_size unit
      then dictionary_string
             (option_map StringDictionary (filename_table unit))
             (to_UInt64 (raw + 1)) = Some s
      else s = EmptyString) /\
  (Attr attr = DW_AT_call_file ->
   col_decl_file b' = col_decl_file b /\
   need_decl_file p' = need_decl_file p).
Proof.
  intros He Ha Hg Hn H raw. unfold parseAttribute in H. rewrite He in H.
  replace (Attr attr =? DW_AT_stmt_list) with false in H
    by (destruct Ha as [-> | ->]; reflexivity).
  cbn [andb bind] in H.
  unfold project_value in H. rewrite Hg in H.
  unfold project_integer in H. rewrite Hn in H.
  replace (Attr attr =? DW_AT_decl_line) with false in H
    by (destruct Ha as [-> | ->]; reflexivity).
  replace ((Attr attr =? DW_AT_decl_file) || (Attr attr =? DW_AT_call_file))
    with true in H by (destruct Ha as [-> | ->]; reflexivity).
  replace (Attr attr =? DW_AT_language) with false in H
    by (destruct Ha as [-> | ->]; reflexivity).
  replace (Attr attr =? DW_AT_encoding) with false in H
    by (destruct Ha as [-> | ->]; reflexivity).
  cbn [andb orb] in H. fold raw in H.
  cbn [filename_table_size filename_table set_offset] in H.
  destruct (raw <? filename_table_size unit) eqn:El.
  - destruct (getDataAt (filename_table unit) (to_UInt64 (raw + 1)))
      as [s| |] eqn:Ed.
    + assert (Hs : dictionary_string
                     (option_map StringDictionary (filename_table unit))
                     (to_UInt64 (raw + 1)) = Some s).
      { unfold getDataAt in Ed.
        destruct (filename_table unit) as [col|]; [|discriminate]. simpl.
        destruct (nth_error col (Z.to_nat (to_UInt64 (raw + 1))));
          [|discriminate]. inv Ed. reflexivity. }
      split.
      * exists s. split; [|exact Hs].
        destruct ((Attr attr =? DW_AT_decl_file) && need_decl_file p),
          (need COL_ATTR_NAME), (need COL_ATTR_FORM), (need COL_ATTR_INT);
          simpl in H; inv H; reflexivity.
      * intros Hc. rewrite Hc in H.
        change (DW_AT_call_file =? DW_AT_decl_file) with false in H.
        destruct (need COL_ATTR_NAME), (need COL_ATTR_FORM),
          (need COL_ATTR_INT); simpl in H; inv H; split; reflexivity.
    + destruct ((Attr attr =? DW_AT_decl_file) && need_decl_file p);
        simpl in H; discriminate H.
    + destruct ((Attr attr =? DW_AT_decl_file) && need_decl_file p);
        simpl in H; discriminate H.
  - split.
    + exists EmptyString. split; [|reflexivity].
      destruct (need COL_ATTR_NAME), (need COL_ATTR_FORM),
        (need COL_ATTR_INT); simpl in H; inv H; reflexivity.
    + intros _.
      destruct (need COL_ATTR_NAME), (need COL_ATTR_FORM),
        (need COL_ATTR_INT); simpl in H; inv H; split; reflexivity.
Qed.

(** ** The name of the unit *)

Lemma project_value_unit_name ctx need tag attr val unit b p unit' b' p' :
  tag <> DW_TAG_compile_unit ->
  project_value ctx need tag attr val (unit, b, p) = Ok (unit', b', p') ->
  unit_name unit' = unit_name unit.
Proof.
  intros Ht H. apply Z.eqb_neq in Ht. unfold project_value in H.
  destruct (form_group (getForm val)).
  - unfold project_integer in H. cases_in H; inv H; reflexivity.
  - unfold project_address in H. inv H. reflexivity.
  - unfold project_block in H. inv H. reflexivity.
  - unfold project_string in H. rewrite Ht in H.
    cases_in H; inv H;
      repeat match goal with
             | E : (_, _, _) = (_, _, _) |- _ => inv E
             end; reflexivity.
  - unfold project_reference in H. inv H. reflexivity.
  - unfold project_default in H. inv H. reflexivity.
Qed.

Lemma parseAttribute_unit_name ctx need tag attr unit b p unit' b' p' :
  tag <> DW_TAG_compile_unit ->
  parseAttribute ctx need tag attr (unit, b, p) = Ok (unit', b', p') ->
  unit_name unit' = unit_name unit.
Proof.
  intros Ht H. unfold parseAttribute in H.
  destruct (extractValue _ _ _ _ _) as [[val off]|]; [|discriminate].
  apply bind_Ok in H as (unit1 & H1 & H2).
  apply project_value_unit_name in H2; [|exact Ht]. rewrite H2.
  cases_in H1;
    first [ apply parseFilenameTable_fields in H1 as (_ & _ & _ & _ & _ & E);
            exact E
          | inv H1; reflexivity ].
Qed.

Lemma parseAttributes_unit_name ctx need tag attrs :
  tag <> DW_TAG_compile_unit ->
  forall unit b p unit' b' p',
    parseAttributes ctx need tag attrs (unit, b, p) = Ok (unit', b', p') ->
    unit_name unit' = unit_name unit.
Proof.
  intros Ht. induction attrs as [|attr rest IH];
    intros unit b p unit' b' p' H.
  - simpl in H. inv H. reflexivity.
  - rewrite parseAttributes_cons in H.
    apply bind_Ok in H as ([[unit1 b1] p1] & H1 & H2).
    apply parseAttribute_unit_name in H1; [|exact Ht].
    apply IH in H2. congruence.
Qed.

(** The tag a row puts in the [tag] column; a row of another tag than
    [DW_TAG_compile_unit] leaves the name of the unit alone. *)
Lemma parseEntry_tag ctx need unit b unit' b' :
  parseEntry ctx need unit b = Ok (unit', b') ->
  exists t,
    col_tag b' = (if need COL_TAG then t :: col_tag b else col_tag b) /\
    (t <> DW_TAG_compile_unit -> unit_name unit' = unit_name unit).
Proof.
  intros H. apply parseEntry_inv in H as (code & off & _ & [[_ H]|[_ H]]);
    destruct (row_head_frame need unit b) as (T & _).
  - exists 0. unfold parseNull in H.
    destruct (stack (set_offset off unit)); [discriminate|]. inv H.
    split; [|reflexivity]. rewrite <- T.
    destruct (need COL_SIZE), (need COL_TAG), (need COL_NAME),
      (need COL_LINKAGE_NAME), (need COL_DECL_FILE), (need COL_DECL_LINE),
      (need COL_ATTR_NAME); reflexivity.
  - unfold parseDIE in H.
    destruct (abbrevs (set_offset off unit) (to_UInt32 code)) as [abbrev|];
      [|discriminate].
    destruct (code >? UINT32_MAX); [discriminate|].
    apply bind_Ok in H as ([[unit1 b1] p1] & H1 & H2).
    exists (getTag abbrev). split.
    + apply parseAttributes_pending in H1 as (Tg & _).
      inv H2. rewrite <- T.
      destruct p1 as [pn pl pf pd].
      cbn [need_name need_linkage_name need_decl_file need_decl_line].
      destruct (need COL_SIZE), (need COL_ATTR_NAME), pn, pl, pf, pd;
        cbn [col_tag push_size push_attr_offsets push_name push_linkage_name
             push_decl_file push_decl_line];
        rewrite Tg; destruct (need COL_TAG); reflexivity.
    + intros Ht. apply parseAttributes_unit_name in H1; [|exact Ht].
      inv H2. destruct (hasChildren abbrev); exact H1.
Qed.

Lemma parse_rows_unit_name ctx need fuel n unit b n' unit' b' (name : string) :
  need COL_TAG = true ->
  parse_rows ctx need fuel n unit b = Ok (n', unit', b') ->
  (~ In DW_TAG_compile_unit (col_tag b) -> unit_name unit = name) ->
  ~ In DW_TAG_compile_unit (col_tag b') -> unit_name unit' = name.
Proof.
  intros Hn H.
  apply (parse_rows_invariant ctx need
           (fun _ u b => ~ In DW_TAG_compile_unit (col_tag b) ->
                         unit_name u = name)) with (2 := H).
  intros ? u0 b0 u1 b1 HP H1.
  apply parseEntry_tag in H1 as (t & Ht & Hu). rewrite Ht, Hn.
  intros Hnot. rewrite Hu.
  - apply HP. intros Hin. apply Hnot. right. exact Hin.
  - intros E. apply Hnot. left. exact E.
Qed.

Lemma column_of_map_inv (f : DwarfColumn -> Column) c col :
  forall columns,
    column_of columns (map f columns) c = Some col ->
    In c columns /\ col = f c.
Proof.
  intros columns.
  induction columns as [|h columns IH]; simpl; intros H; [discriminate|].
  destruct (DwarfColumn_eqb c h) eqn:E.
  - apply DwarfColumn_eqb_eq in E. subst h. inv H. auto.
  - apply IH in H as [H1 H2]. auto.
Qed.

(** X15.  The [unit_offset] and [unit_name] columns of a chunk are index 1
    in every row over a dictionary of two entries, the default and the
    offset of the unit, or its name as the call leaves it: so the row of the
    unit's own DIE shows the name its [DW_AT_name] has just set.  A call
    that meets no row of tag [DW_TAG_compile_unit] leaves the name of the
    unit as it found it, so later chunks of the unit carry the same name. *)
Theorem unit_columns ctx header unit chunk unit' :
  parseEntries ctx header unit = Ok (chunk, unit') ->
  (In COL_UNIT_OFFSET header ->
   column_of header (getColumns chunk) COL_UNIT_OFFSET =
     Some (ColumnLowCardinality
             (Some (UInt64Dictionary [0; getOffset (dwarf_unit unit)]))
             (repeat 1 (getNumRows chunk)))) /\
  (In COL_UNIT_NAME header ->
   column_of header (getColumns chunk) COL_UNIT_NAME =
     Some (ColumnLowCardinality
             (Some (StringDictionary [EmptyString; unit_name unit']))
             (repeat 1 (getNumRows chunk)))) /\
  (forall dictionary tags,
      column_of header (getColumns chunk) COL_TAG =
        Some (ColumnLowCardinality dictionary tags) ->
      ~ In DW_TAG_compile_unit tags -> unit_name unit' = unit_name unit).
Proof.
  intros H. apply parseEntries_inv in H as (n & b & H & ->). simpl.
  pose proof (parse_rows_unit _ _ _ _ _ _ _ _ _ H) as (Hu & _).
  repeat split.
  - intros Hin. rewrite column_of_map by exact Hin. simpl. rewrite Hu.
    reflexivity.
  - intros Hin. rewrite column_of_map by exact Hin. reflexivity.
  - intros dictionary tags Hc Hnot.
    apply column_of_map_inv in Hc as [Hin Hc]. simpl in Hc. inv Hc.
    rewrite in_row_order_rev in Hnot.
    apply (parse_rows_unit_name _ _ _ _ _ _ _ _ _ (unit_name unit)
             (propagate_need_In header COL_TAG Hin) H).
    + reflexivity.
    + intros Hi. apply Hnot. apply in_rev in Hi. exact Hi.
Qed.

Lemma unit_columns_witness :
  exists chunk unit',
    parseEntries (sample_context 5) all_columns sample_unit
      = Ok (chunk, unit') /\
    column_of all_columns (getColumns chunk) COL_UNIT_OFFSET =
      Some (ColumnLowCardinality (Some (UInt64Dictionary [0; 0x1000]))
              [1; 1; 1]) /\
    column_of all_columns (getColumns chunk) COL_UNIT_NAME =
      Some (ColumnLowCardinality
              (Some (StringDictionary [EmptyString; "a.c"%string]))
              [1; 1; 1]).
Proof.
  eexists. eexists.
  match goal with
  | |- ?A /\ _ => assert (Hp : A) by (vm_compute; reflexivity)
  end.
  split; [exact Hp|].
  destruct (unit_columns _ _ _ _ _ Hp) as (Ho & Hn & _).
  split.
  - apply Ho. simpl. auto 20.
  - apply Hn. simpl. auto 20.
Defined.

(** ** Whole chunks *)

Lemma table_context_unsigned headers values prologues :
  Forall (fun e => 0 <= getRawUValue (fst (snd e)) < 2 ^ 64) values ->
  unsigned_values (table_context headers values prologues).
Proof.
  intros Hv. rewrite Forall_forall in Hv.
  intros u f init off val off' H. simpl in H.
  apply lookup_In in H. apply Hv in H. exact H.
Qed.

Lemma sample_context_unsigned version :
  unsigned_values (sample_context version).
Proof. apply table_context_unsigned; repeat constructor; simpl; lia. Qed.

(** X5.  While it reads the rows of a unit the decoder never reads the
    filename table through a null pointer or past its end: the state the
    constructor builds has no table and size 0, and from a state whose
    recorded size is the size of its table the row loop returns or throws,
    given that raw values are unsigned.  The one undefined access of
    [parseEntries] is at chunk assembly, exactly when [decl_file] is
    requested and the rows end with the table still null.  A call that
    returns leaves such a state again, and a table once built stays: a later
    [DW_AT_stmt_list] does not replace it. *)
Theorem filename_table_accesses ctx :
  unsigned_values ctx ->
  (forall u unit, UnitState_ctor u = inr unit -> table_ok unit) /\
  (forall header unit,
      table_ok unit ->
      (forall need fuel n b,
          parse_rows ctx need fuel n unit b <> Undefined) /\
      (parseEntries ctx header unit = Undefined <->
       In COL_DECL_FILE header /\
       exists n unit' b,
         parse_rows ctx (propagate_need (need_of_header header)) MAX_ROWS 0
           unit empty_builders = Ok (n, unit', b) /\
         filename_table unit' = None) /\
      forall chunk unit',
        parseEntries ctx header unit = Ok (chunk, unit') ->
        table_ok unit' /\
        forall col, filename_table unit = Some col ->
                    filename_table unit' = Some col).
Proof.
  intros Hu. split.
  - intros u unit H. unfold UnitState_ctor in H.
    destruct (getAbbreviations u); [|discriminate].
    destruct (tryExtractDIEsIfNeeded u); [discriminate|].
    inv H. reflexivity.
  - intros header unit Ht. split; [|split].
    + intros need fuel n b.
      exact (proj1 (parse_rows_defined ctx need Hu fuel n unit b Ht)).
    + apply parseEntries_undefined; assumption.
    + exact (proj2 (parseEntries_defined ctx header unit Hu Ht)).
Qed.

(** With every column requested: the sample unit, whose unit DIE has a line
    table, gives a chunk; a unit without line table does not. *)
Lemma filename_table_accesses_witness :
  unsigned_values (sample_context 5) /\
  (exists chunk unit',
      parseEntries (sample_context 5) all_columns sample_unit
        = Ok (chunk, unit') /\
      filename_table unit'
        = Some [EmptyString; "a.c"%string; "b.c"%string] /\
      table_ok unit') /\
  parseEntries bare_context all_columns bare_unit = Undefined.
Proof.
  split; [apply sample_context_unsigned|]. split.
  - eexists. eexists.
    match goal with
    | |- ?A /\ _ => assert (Hp : A) by (vm_compute; reflexivity)
    end.
    split; [exact Hp|]. split; [reflexivity|].
    destruct (filename_table_accesses (sample_context 5)
                (sample_context_unsigned 5)) as [_ H].
    destruct (H all_columns sample_unit eq_refl) as (_ & _ & Hk).
    exact (proj1 (Hk _ _ Hp)).
  - destruct (filename_table_accesses bare_context bare_context_unsigned)
      as [_ H].
    destruct (H all_columns bare_unit eq_refl) as (_ & Hu & _).
    apply Hu. split; [vm_compute; tauto|].
    eexists. eexists. eexists.
    split; [vm_compute; reflexivity|reflexivity].
Defined.

(** X6.  A chunk has one column for each name of the header, in the order
    of the header, and every column has exactly [num_rows] rows: the flat
    columns [num_rows] values, the array columns [num_rows] offsets, the
    two unit columns [num_rows] indexes. *)
Theorem chunk_columns_have_num_rows ctx header unit chunk unit' :
  parseEntries ctx header unit = Ok (chunk, unit') ->
  length (getColumns chunk) = length header /\
  Forall (fun col => column_rows col = getNumRows chunk) (getColumns chunk).
Proof.
  intros H. pose proof (parseEntries_table _ _ _ _ _ H) as Ht.
  apply parseEntries_inv in H as (n & b & H & ->). simpl.
  split; [apply length_map|].
  apply Forall_forall. intros col Hin.
  apply in_map_iff in Hin as (c & <- & Hc).
  eapply assemble_column_rows; [eassumption|exact Hc|].
  intros ->. exact (Ht Hc).
Qed.

Lemma chunk_columns_have_num_rows_witness :
  exists chunk unit',
    parseEntries (sample_context 5) all_columns sample_unit
      = Ok (chunk, unit') /\
    getNumRows chunk = 3%nat /\
    length (getColumns chunk) = 15%nat /\
    Forall (fun col => column_rows col = 3%nat) (getColumns chunk).
Proof.
  eexists. eexists.
  match goal with
  | |- ?A /\ _ => assert (Hp : A) by (vm_compute; reflexivity)
  end.
  split; [exact Hp|]. split; [reflexivity|].
  exact (chunk_columns_have_num_rows _ _ _ _ _ Hp).
Defined.

Lemma need_of_names_header header :
  need_of_names (map column_name header) = Some (map column_index header).
Proof.
  induction header as [|c rest IH]; [reflexivity|].
  cbn [map need_of_names]. rewrite IH. destruct c; reflexivity.
Qed.

Lemma header_of_indexes_header header :
  header_of_indexes (map column_index header) = Some header.
Proof.
  induction header as [|c rest IH]; [reflexivity|].
  cbn [map header_of_indexes]. rewrite IH. destruct c; reflexivity.
Qed.

(** For the names of schema columns the lookups succeed. *)
Lemma parseEntries_of_names_header ctx header unit :
  parseEntries_of_names ctx (map column_name header) unit
  = parseEntries ctx header unit.
Proof.
  unfold parseEntries_of_names.
  rewrite need_of_names_header, header_of_indexes_header. reflexivity.
Qed.

Lemma need_of_names_None names :
  need_of_names names = None <->
  exists name, In name names /\ at_ getColumnNameToIdx name = None.
Proof.
  induction names as [|name rest IH].
  - split; [discriminate|]. intros (name & [] & _).
  - cbn [need_of_names].
    destruct (at_ getColumnNameToIdx name) as [idx|] eqn:E.
    + destruct (need_of_names rest) as [idxs|].
      * split; [discriminate|].
        intros (name' & [<-|Hi] & Hn); [congruence|].
        destruct IH as [_ IH].
        assert (X : @None (list nat) = None) by reflexivity.
        discriminate (IH (ex_intro _ name' (conj Hi Hn))).
      * split; [|reflexivity]. intros _.
        destruct IH as [IH _].
        destruct (IH eq_refl) as (name' & Hi & Hn).
        exists name'. split; [right; exact Hi|exact Hn].
    + split; [|reflexivity]. intros _.
      exists name. split; [left; reflexivity|exact E].
Qed.

Lemma parseEntries_throw ctx header unit e :
  parseEntries ctx header unit = Throw e ->
  exists msg, e = CANNOT_PARSE_DWARF msg /\ In msg decoder_messages.
Proof.
  unfold parseEntries. intros H.
  destruct (parse_rows ctx (propagate_need (need_of_header header)) MAX_ROWS
              0 unit empty_builders) as [[[n unit1] b1]| |] eqn:E;
    cbn [bind] in H; try discriminate H.
  - destruct (assemble_columns_cases unit1 b1 n header)
      as [(_ & _ & Ea)|[_ Ea]]; rewrite Ea in H; discriminate H.
  - inv H. eapply parse_rows_throw; eassumption.
Qed.

(** X10.  What [parseEntries] throws is either the [std::out_of_range] of
    the lookup of a header name that is no column of the schema, thrown
    before a row is read and whatever the unit holds, or a
    [CANNOT_PARSE_DWARF] exception with one of eight messages: a DIE header
    or an attribute that does not parse, a string attribute LLVM cannot
    read, an abbreviation code out of bounds, a terminator on an empty
    stack, a tree that ends before the unit does, and the two failures of
    the filename table.  Chunk assembly throws nothing. *)
Theorem decoder_exceptions ctx names unit :
  ((exists name, In name names /\ at_ getColumnNameToIdx name = None) <->
   parseEntries_of_names ctx names unit = Throw std_out_of_range) /\
  forall e,
    parseEntries_of_names ctx names unit = Throw e ->
    e = std_out_of_range \/
    exists msg, e = CANNOT_PARSE_DWARF msg /\ In msg decoder_messages.
Proof.
  assert (Hcases : forall e,
             parseEntries_of_names ctx names unit = Throw e ->
             (need_of_names names = None /\ e = std_out_of_range) \/
             exists msg, e = CANNOT_PARSE_DWARF msg /\ In msg decoder_messages).
  { unfold parseEntries_of_names. intros e H.
    destruct (need_of_names names) as [idxs|]; [|inv H; auto].
    destruct (header_of_indexes idxs) as [header|]; [|discriminate H].
    right. eapply parseEntries_throw; eassumption. }
  split.
  - split.
    + intros Hn. apply need_of_names_None in Hn.
      unfold parseEntries_of_names. rewrite Hn. reflexivity.
    + intros H. apply Hcases in H as [[Hn _]|(msg & Hm & _)];
        [|discriminate Hm].
      apply need_of_names_None. exact Hn.
  - intros e H. apply Hcases in H as [[_ ->]|Hm]; auto.
Qed.

(** A header that names a column the schema does not have, and a unit
    whose tree ends before the unit does. *)
Lemma decoder_exceptions_witness :
  parseEntries_of_names bare_context ["offset"; "line"]%string bare_unit
    = Throw std_out_of_range /\
  exists msg,
    parseEntries_of_names bare_context ["offset"]%string
      (mkUnitState (bare_dwarf_unit 0) bare_abbrevs 13 11 [] EmptyString
         None 0) = Throw (CANNOT_PARSE_DWARF msg) /\
    In msg decoder_messages /\
    msg = "Unexpected end of DIE tree"%string.
Proof.
  split.
  - apply (proj1 (decoder_exceptions bare_context ["offset"; "line"]%string
                    bare_unit)).
    exists "line"%string. split; [right; left; reflexivity|reflexivity].
  - eexists.
    match goal with
    | |- ?A /\ _ => assert (Hp : A) by (vm_compute; reflexivity)
    end.
    split; [exact Hp|].
    destruct (proj2 (decoder_exceptions _ _ _) _ Hp) as [He|(msg & Hm & Hin)];
      [discriminate He|].
    inv Hm. split; [exact Hin|reflexivity].
Defined.

Lemma file_attribute_string_witness :
  exists unit' b' p',
    parseAttribute (sample_context 5) (need_of_header all_columns) 0x1d
      (attribute DW_AT_call_file DW_FORM_data1)
      (set_filename_table [EmptyString; "a.c"%string; "b.c"%string]
         (set_offset 0x101b sample_unit),
       empty_builders, mkPending true true true true)
      = Ok (unit', b', p') /\
    col_attr_str b' = ["a.c"%string] /\ col_decl_file b' = [].
Proof.
  eexists. eexists. eexists.
  match goal with
  | |- ?A /\ _ => assert (Hp : A) by (vm_compute; reflexivity)
  end.
  split; [exact Hp|].
  destruct (file_attribute_string (sample_context 5)
              (need_of_header all_columns) 0x1d
              (attribute DW_AT_call_file DW_FORM_data1)
              (set_filename_table [EmptyString; "a.c"%string; "b.c"%string]
                 (set_offset 0x101b sample_unit))
              empty_builders (mkPending true true true true)
              (integer_value DW_FORM_data1 0) 0x101c _ _ _
              eq_refl (or_intror eq_refl) eq_refl eq_refl Hp)
    as [(s & Hs & _) Hc].
  split; [reflexivity|]. exact (proj1 (Hc eq_refl)).
Defined.

(** ** Reading a subset of the columns *)

Section Restrict.
Variable need : Need.

Lemma restrict_push_attr_int v b :
  (if need COL_ATTR_INT then push_attr_int v (restrict need b)
   else restrict need b) = restrict need (push_attr_int v b).
Proof. unfold restrict. destruct (need COL_ATTR_INT); reflexivity. Qed.

Lemma restrict_push_attr_str v b :
  (if need COL_ATTR_STR then push_attr_str v (restrict need b)
   else restrict need b) = restrict need (push_attr_str v b).
Proof. unfold restrict. destruct (need COL_ATTR_STR); reflexivity. Qed.

Lemma restrict_push_attr_name v b :
  (if need COL_ATTR_NAME then push_attr_name v (restrict need b)
   else restrict need b) = restrict need (push_attr_name v b).
Proof. unfold restrict. destruct (need COL_ATTR_NAME); reflexivity. Qed.

Lemma restrict_push_attr_form v b :
  (if need COL_ATTR_FORM then push_attr_form v (restrict need b)
   else restrict need b) = restrict need (push_attr_form v b).
Proof. unfold restrict. destruct (need COL_ATTR_FORM); reflexivity. Qed.

Lemma restrict_push_offset v b :
  (if need COL_OFFSET then push_offset v (restrict need b)
   else restrict need b) = restrict need (push_offset v b).
Proof. unfold restrict. destruct (need COL_OFFSET); reflexivity. Qed.

Lemma restrict_push_size v b :
  (if need COL_SIZE then push_size v (restrict need b)
   else restrict need b) = restrict need (push_size v b).
Proof. unfold restrict. destruct (need COL_SIZE); reflexivity. Qed.

Lemma restrict_push_tag v b :
  (if need COL_TAG then push_tag v (restrict need b)
   else restrict need b) = restrict need (push_tag v b).
Proof. unfold restrict. destruct (need COL_TAG); reflexivity. Qed.

Lemma restrict_push_name v b :
  (if need COL_NAME then push_name v (restrict need b)
   else restrict need b) = restrict need (push_name v b).
Proof. unfold restrict. destruct (need COL_NAME); reflexivity. Qed.

Lemma restrict_push_linkage_name v b :
  (if need COL_LINKAGE_NAME then push_linkage_name v (restrict need b)
   else restrict need b) = restrict need (push_linkage_name v b).
Proof. unfold restrict. destruct (need COL_LINKAGE_NAME); reflexivity. Qed.

Lemma restrict_push_decl_file v b :
  (if need COL_DECL_FILE then push_decl_file v (restrict need b)
   else restrict need b) = restrict need (push_decl_file v b).
Proof. unfold restrict. destruct (need COL_DECL_FILE); reflexivity. Qed.

Lemma restrict_push_decl_line v b :
  (if need COL_DECL_LINE then push_decl_line v (restrict need b)
   else restrict need b) = restrict need (push_decl_line v b).
Proof. unfold restrict. destruct (need COL_DECL_LINE); reflexivity. Qed.

Lemma restrict_push_attr_offsets b :
  (if need COL_ATTR_NAME
   then push_attr_offsets
          (Z.of_nat (length (col_attr_name (restrict need b))))
          (restrict need b)
   else restrict need b)
  = restrict need
      (push_attr_offsets (Z.of_nat (length (col_attr_name b))) b).
Proof. unfold restrict. destruct (need COL_ATTR_NAME); reflexivity. Qed.

(** The [need_*] locals as a DIE begins. *)
Lemma restrict_pending_initial :
  mkPending (need COL_NAME) (need COL_LINKAGE_NAME) (need COL_DECL_FILE)
    (need COL_DECL_LINE)
  = restrict_pending need (mkPending true true true true).
Proof. unfold restrict_pending. simpl. rewrite !andb_true_r. reflexivity. Qed.

(** The defaults a DIE puts in the convenience columns still pending. *)
Lemma restrict_defaults b p :
  let defaults b p :=
    let b := if need_name p then push_name EmptyString b else b in
    let b := if need_linkage_name p then push_linkage_name EmptyString b
             else b in
    let b := if need_decl_file p then push_decl_file 0 b else b in
    if need_decl_line p then push_decl_line 0 b else b in
  defaults (restrict need b) (restrict_pending need p)
  = restrict need (defaults b p).
Proof.
  destruct p as [pn pl pf pd]. unfold restrict, restrict_pending. simpl.
  destruct pn, pl, pf, pd; rewrite ?andb_true_r, ?andb_false_r; simpl;
    destruct (need COL_NAME), (need COL_LINKAGE_NAME), (need COL_DECL_FILE),
      (need COL_DECL_LINE); reflexivity.
Qed.

End Restrict.

(** A call that fills every column and a call that fills the columns of
    [need] go through a DIE side by side. *)
Lemma project_integer_restrict
    ctx (every need : Need) attr val unit b p st' :
  (forall c, every c = true) ->
  project_integer ctx every attr val (unit, b, p) = Ok st' ->
  project_integer ctx need attr val (restrict_state need (unit, b, p))
  = Ok (restrict_state need st').
Proof.
  intros Hall H. unfold project_integer, restrict_state in *.
  rewrite !Hall in H. destruct p as [pn pl pf pd].
  unfold restrict_pending.
  cbn [need_name need_linkage_name need_decl_file need_decl_line] in *.
  rewrite restrict_push_attr_int.
  set (b1 := push_attr_int (getRawUValue val) b) in *. clearbody b1.
  set (line := to_UInt32 (getRawUValue val)) in *. clearbody line.
  set (idx := to_UInt64 (getRawUValue val + 1)) in *. clearbody idx.
  assert (E1 :
    (if (Attr attr =? DW_AT_decl_line) && (need COL_DECL_LINE && pd)
     then (push_decl_line line (restrict need b1),
           mkPending (need COL_NAME && pn) (need COL_LINKAGE_NAME && pl)
             (need COL_DECL_FILE && pf) false)
     else (restrict need b1,
           mkPending (need COL_NAME && pn) (need COL_LINKAGE_NAME && pl)
             (need COL_DECL_FILE && pf) (need COL_DECL_LINE && pd)))
    = (restrict need
         (fst (if (Attr attr =? DW_AT_decl_line) && pd
               then (push_decl_line line b1, mkPending pn pl pf false)
               else (b1, mkPending pn pl pf pd))),
       restrict_pending need
         (snd (if (Attr attr =? DW_AT_decl_line) && pd
               then (push_decl_line line b1, mkPending pn pl pf false)
               else (b1, mkPending pn pl pf pd))))).
  { unfold restrict, restrict_pending.
    destruct (Attr attr =? DW_AT_decl_line), pd, (need COL_DECL_LINE);
      simpl; rewrite ?andb_false_r; reflexivity. }
  rewrite E1. clear E1.
  destruct (if (Attr attr =? DW_AT_decl_line) && pd
            then (push_decl_line line b1, mkPending pn pl pf false)
            else (b1, mkPending pn pl pf pd)) as [b2 [qn ql qf qd]].
  cbn [fst snd] in *. unfold restrict_pending.
  cbn [need_name need_linkage_name need_decl_file need_decl_line] in *.
  clear b1 pn pl pf pd.
  destruct (((Attr attr =? DW_AT_decl_file) || (Attr attr =? DW_AT_call_file))
            && (getRawUValue val <? filename_table_size unit)).
  - assert (E2 :
      (if (Attr attr =? DW_AT_decl_file) && (need COL_DECL_FILE && qf)
       then (push_decl_file idx (restrict need b2),
             mkPending (need COL_NAME && qn) (need COL_LINKAGE_NAME && ql)
               false (need COL_DECL_LINE && qd))
       else (restrict need b2,
             mkPending (need COL_NAME && qn) (need COL_LINKAGE_NAME && ql)
               (need COL_DECL_FILE && qf) (need COL_DECL_LINE && qd)))
      = (restrict need
           (fst (if (Attr attr =? DW_AT_decl_file) && qf
                 then (push_decl_file idx b2, mkPending qn ql false qd)
                 else (b2, mkPending qn ql qf qd))),
         restrict_pending need
           (snd (if (Attr attr =? DW_AT_decl_file) && qf
                 then (push_decl_file idx b2, mkPending qn ql false qd)
                 else (b2, mkPending qn ql qf qd))))).
    { unfold restrict, restrict_pending.
      destruct (Attr attr =? DW_AT_decl_file), qf, (need COL_DECL_FILE);
        simpl; rewrite ?andb_false_r; reflexivity. }
    rewrite E2. clear E2.
    destruct (if (Attr attr =? DW_AT_decl_file) && qf
              then (push_decl_file idx b2, mkPending qn ql false qd)
              else (b2, mkPending qn ql qf qd)) as [b3 p3].
    cbn [fst snd] in *.
    destruct (getDataAt (filename_table unit) idx) as [data| |];
      cbn [bind] in H; try discriminate H. inv H.
    cbn [bind]. rewrite <- restrict_push_attr_str.
    destruct (need COL_ATTR_STR); reflexivity.
  - destruct (Attr attr =? DW_AT_language);
      [|destruct (Attr attr =? DW_AT_encoding)];
      inv H; rewrite <- restrict_push_attr_str;
      destruct (need COL_ATTR_STR); reflexivity.
Qed.

Lemma project_string_stages need tag attr val st :
  project_string need tag attr val st =
  match getAsCString val with
  | None => Throw (CANNOT_PARSE_DWARF "Error parsing string attribute")
  | Some res =>
      let '(unit, b, p) := name_stage tag attr res st in
      let '(b, p) :=
        if (Attr attr =? DW_AT_linkage_name) && need_linkage_name p
        then (push_linkage_name res b,
              mkPending (need_name p) false (need_decl_file p)
                (need_decl_line p))
        else (b, p) in
      let b := if need COL_ATTR_STR then push_attr_str res b else b in
      let b := if need COL_ATTR_INT then push_attr_int 0 b else b in
      Ok (unit, b, p)
  end.
Proof. destruct st as [[unit b] p]. reflexivity. Qed.

Lemma name_stage_restrict need tag attr res st :
  name_stage tag attr res (restrict_state need st)
  = restrict_state need (name_stage tag attr res st).
Proof.
  destruct st as [[unit b] [pn pl pf pd]].
  unfold name_stage, restrict_state, restrict_pending.
  cbn [need_name need_linkage_name need_decl_file need_decl_line].
  destruct (Attr attr =? DW_AT_name); [|reflexivity].
  destruct pn; rewrite ?andb_true_r, ?andb_false_r.
  - rewrite <- restrict_push_name. destruct (need COL_NAME); reflexivity.
  - reflexivity.
Qed.

Lemma project_string_restrict
    (every need : Need) tag attr val unit b p st' :
  (forall c, every c = true) ->
  project_string every tag attr val (unit, b, p) = Ok st' ->
  project_string need tag attr val (restrict_state need (unit, b, p))
  = Ok (restrict_state need st').
Proof.
  intros Hall H. rewrite project_string_stages in *.
  rewrite !Hall in H.
  destruct (getAsCString val) as [res|]; [|discriminate].
  rewrite name_stage_restrict.
  destruct (name_stage tag attr res (unit, b, p))
    as [[unit1 b1] [qn ql qf qd]].
  unfold restrict_state, restrict_pending.
  cbn [need_name need_linkage_name need_decl_file need_decl_line] in *.
  assert (E2 :
    (if (Attr attr =? DW_AT_linkage_name) && (need COL_LINKAGE_NAME && ql)
     then (push_linkage_name res (restrict need b1),
           mkPending (need COL_NAME && qn) false
             (need COL_DECL_FILE && qf) (need COL_DECL_LINE && qd))
     else (restrict need b1,
           mkPending (need COL_NAME && qn) (need COL_LINKAGE_NAME && ql)
             (need COL_DECL_FILE && qf) (need COL_DECL_LINE && qd)))
    = (restrict need
         (fst (if (Attr attr =? DW_AT_linkage_name) && ql
               then (push_linkage_name res b1, mkPending qn false qf qd)
               else (b1, mkPending qn ql qf qd))),
       restrict_pending need
         (snd (if (Attr attr =? DW_AT_linkage_name) && ql
               then (push_linkage_name res b1, mkPending qn false qf qd)
               else (b1, mkPending qn ql qf qd))))).
  { unfold restrict, restrict_pending.
    destruct (Attr attr =? DW_AT_linkage_name), ql, (need COL_LINKAGE_NAME);
      simpl; rewrite ?andb_false_r; reflexivity. }
  rewrite E2. clear E2.
  destruct (if (Attr attr =? DW_AT_linkage_name) && ql
            then (push_linkage_name res b1, mkPending qn false qf qd)
            else (b1, mkPending qn ql qf qd)) as [b2 p2].
  cbn [fst snd] in *. inv H.
  rewrite restrict_push_attr_str, restrict_push_attr_int. reflexivity.
Qed.

Lemma project_value_restrict
    ctx (every need : Need) tag attr val unit b p st' :
  (forall c, every c = true) ->
  project_value ctx every tag attr val (unit, b, p) = Ok st' ->
  project_value ctx need tag attr val (restrict_state need (unit, b, p))
  = Ok (restrict_state need st').
Proof.
  intros Hall H. unfold project_value in *.
  destruct (form_group (getForm val)).
  - apply project_integer_restrict with (every := every); assumption.
  - unfold project_address, restrict_state in *. rewrite !Hall in H. inv H.
    rewrite restrict_push_attr_int, restrict_push_attr_str. reflexivity.
  - unfold project_block, restrict_state in *. rewrite !Hall in H. inv H.
    rewrite restrict_push_attr_str, restrict_push_attr_int. reflexivity.
  - apply project_string_restrict with (every := every); assumption.
  - unfold project_reference, restrict_state in *. rewrite !Hall in H.
    inv H. cbn [dwarf_unit].
    rewrite restrict_push_attr_int, restrict_push_attr_str. reflexivity.
  - unfold project_default, restrict_state in *. rewrite !Hall in H. inv H.
    rewrite restrict_push_attr_int, restrict_push_attr_str. reflexivity.
Qed.

Lemma parseAttribute_restrict ctx (every need : Need) tag attr st st' :
  (forall c, every c = true) ->
  parseAttribute ctx every tag attr st = Ok st' ->
  parseAttribute ctx need tag attr (restrict_state need st)
  = Ok (restrict_state need st').
Proof.
  intros Hall H. destruct st as [[unit b] p].
  unfold parseAttribute in *. cbn [restrict_state].
  destruct (extractValue _ _ _ _ _) as [[val off]|]; [|discriminate].
  rewrite !Hall in H.
  rewrite restrict_push_attr_name, restrict_push_attr_form.
  match type of H with
  | bind ?r _ = _ => destruct r as [unit1| |]
  end; cbn [bind] in *; try discriminate H.
  apply (project_value_restrict ctx every need tag attr val unit1 _ p st'
           Hall H).
Qed.

Lemma parseAttributes_restrict ctx (every need : Need) tag attrs :
  (forall c, every c = true) ->
  forall st st',
    parseAttributes ctx every tag attrs st = Ok st' ->
    parseAttributes ctx need tag attrs (restrict_state need st)
    = Ok (restrict_state need st').
Proof.
  intros Hall. induction attrs as [|attr rest IH]; intros st st' H.
  - simpl in *. inv H. reflexivity.
  - rewrite parseAttributes_cons in *.
    apply bind_Ok in H as (st1 & H1 & H2).
    rewrite (parseAttribute_restrict ctx every need tag attr st st1 Hall H1).
    cbn [bind]. apply IH. exact H2.
Qed.

Lemma push_ancestors_restrict (every need : Need) st :
  (forall c, every c = true) -> need COL_ANCESTOR_TAGS = true ->
  forall b,
    push_ancestors need st (restrict need b)
    = restrict need (push_ancestors every st b).
Proof.
  intros Hall Hn. unfold push_ancestors. rewrite Hall.
  induction st as [|e st IH]; intros b; [reflexivity|].
  cbn [fold_left].
  replace (if need COL_ANCESTOR_OFFSETS
           then push_ancestor_dwarf_offsets (StackEntry.offset e)
                  (push_ancestor_tags (StackEntry.tag e) (restrict need b))
           else push_ancestor_tags (StackEntry.tag e) (restrict need b))
    with (restrict need
            (push_ancestor_dwarf_offsets (StackEntry.offset e)
               (push_ancestor_tags (StackEntry.tag e) b))).
  - apply IH.
  - unfold restrict. rewrite Hn.
    destruct (need COL_ANCESTOR_OFFSETS); reflexivity.
Qed.

Lemma row_head_restrict (every need : Need) unit b :
  (forall c, every c = true) ->
  row_head need unit (restrict need b)
  = restrict need (row_head every unit b).
Proof.
  intros Hall. unfold row_head. rewrite !Hall.
  rewrite restrict_push_offset.
  destruct (need COL_ANCESTOR_TAGS) eqn:Hn.
  - rewrite (push_ancestors_restrict every need _ Hall Hn).
    unfold restrict. rewrite Hn. reflexivity.
  - unfold restrict. rewrite Hn. cbn [andb].
    destruct (push_ancestors_effect every (stack unit)
                (push_offset (offset unit) b))
      as (_ & _ & _ & H4 & H5 & H6 & H7 & H8 & H9 & H10 & H11).
    destruct (push_ancestors_frame every (stack unit)
                (push_offset (offset unit) b)) as (F1 & F2 & F3 & F4).
    cbn [col_offset col_size col_tag col_name col_linkage_name col_decl_file
         col_decl_line col_attr_name col_attr_form col_attr_int col_attr_str
         col_attr_offsets push_ancestor_array_offsets].
    rewrite H4, H5, H6, H7, H8, H9, H10, H11, F1, F2, F3, F4. reflexivity.
Qed.

Lemma parseNull_restrict (every need : Need) die_offset unit b unit' b' :
  (forall c, every c = true) ->
  parseNull every die_offset unit b = Ok (unit', b') ->
  parseNull need die_offset unit (restrict need b)
  = Ok (unit', restrict need b').
Proof.
  intros Hall H. unfold parseNull in *. rewrite !Hall in H.
  rewrite restrict_push_size, restrict_push_tag, restrict_push_name,
    restrict_push_linkage_name, restrict_push_decl_file,
    restrict_push_decl_line, restrict_push_attr_offsets.
  destruct (stack unit); [discriminate|]. inv H. reflexivity.
Qed.

Lemma parseDIE_restrict
    ctx (every need : Need) die_offset code unit b unit' b' :
  (forall c, every c = true) ->
  parseDIE ctx every die_offset code unit b = Ok (unit', b') ->
  parseDIE ctx need die_offset code unit (restrict need b)
  = Ok (unit', restrict need b').
Proof.
  intros Hall H. unfold parseDIE in *.
  destruct (abbrevs unit (to_UInt32 code)) as [abbrev|]; [|discriminate].
  destruct (code >? UINT32_MAX); [discriminate|].
  rewrite !Hall in H. rewrite restrict_push_tag, restrict_pending_initial.
  apply bind_Ok in H as ([[unit1 b1] p1] & H1 & H2).
  pose proof (parseAttributes_restrict ctx every need _ _ Hall _ _ H1) as Hr.
  cbn [restrict_state] in Hr. rewrite Hr. cbn [bind].
  rewrite restrict_push_size, restrict_push_attr_offsets.
  inv H2. f_equal. f_equal.
  apply (restrict_defaults need
           (push_attr_offsets (Z.of_nat (length (col_attr_name
              (push_size (to_UInt32 (to_UInt64 (offset unit1 - die_offset)))
                 b1))))
              (push_size (to_UInt32 (to_UInt64 (offset unit1 - die_offset)))
                 b1)) p1).
Qed.

Lemma parseEntry_restrict ctx (every need : Need) unit b unit' b' :
  (forall c, every c = true) ->
  parseEntry ctx every unit b = Ok (unit', b') ->
  parseEntry ctx need unit (restrict need b) = Ok (unit', restrict need b').
Proof.
  intros Hall H. unfold parseEntry in *.
  fold (row_head every unit b) in H.
  fold (row_head need unit (restrict need b)).
  rewrite (row_head_restrict every need unit b Hall).
  destruct (getULEB128 ctx (offset unit)) as [[code off]|]; [|discriminate].
  destruct (code =? 0).
  - eapply parseNull_restrict; eassumption.
  - eapply parseDIE_restrict; eassumption.
Qed.

Lemma parse_rows_restrict ctx (every need : Need) :
  (forall c, every c = true) ->
  forall fuel n unit b n' unit' b',
    parse_rows ctx every fuel n unit b = Ok (n', unit', b') ->
    parse_rows ctx need fuel n unit (restrict need b)
    = Ok (n', unit', restrict need b').
Proof.
  intros Hall. induction fuel as [|fuel IH]; intros n unit b n' unit' b' H.
  - simpl in *. inv H. reflexivity.
  - rewrite parse_rows_step in *.
    apply bind_Ok in H as ([unit1 b1] & H1 & H2).
    rewrite (parseEntry_restrict ctx every need _ _ _ _ Hall H1).
    cbn [bind]. destruct (stack unit1).
    + destruct (eof unit1); [|discriminate]. inv H2. reflexivity.
    + apply IH. exact H2.
Qed.

Lemma if_same {A : Type} (c : bool) (x : A) : (if c then x else x) = x.
Proof. destruct c; reflexivity. Qed.

Lemma restrict_empty need : restrict need empty_builders = empty_builders.
Proof. unfold restrict, empty_builders. simpl. rewrite !if_same. reflexivity. Qed.

Lemma all_columns_complete (c : DwarfColumn) : In c all_columns.
Proof. destruct c; simpl; auto 20. Qed.

Lemma need_all_columns (c : DwarfColumn) :
  propagate_need (need_of_header all_columns) c = true.
Proof. destruct c; reflexivity. Qed.

Lemma assemble_column_restrict need unit b n c :
  need_closed need -> need c = true ->
  assemble_column unit (restrict need b) n c = assemble_column unit b n c.
Proof.
  intros (Kf & Ki & Ks & Ko) Hc.
  destruct c; unfold assemble_column, ColumnLowCardinality_create, restrict;
    cbn [col_offset col_size col_tag col_ancestor_tags
         col_ancestor_dwarf_offsets col_ancestor_array_offsets col_name
         col_linkage_name col_decl_file col_decl_line col_attr_name
         col_attr_form col_attr_int col_attr_str col_attr_offsets];
    rewrite ?Hc, ?(Kf Hc), ?(Ki Hc), ?(Ks Hc), ?(Ko Hc); try reflexivity.
  all: try (rewrite (Kf Hc)); try (rewrite (Ki Hc)); try (rewrite (Ks Hc));
    try (rewrite (Ko Hc)); rewrite ?Hc; reflexivity.
Qed.

Lemma built_column_restrict need unit b n c :
  need_closed need -> need c = true ->
  built_column unit (restrict need b) n c = built_column unit b n c.
Proof.
  intros Hk Hc. unfold built_column.
  rewrite assemble_column_restrict by assumption. reflexivity.
Qed.

(** X16.  Reading a subset of the columns changes nothing but the set of
    columns: whatever the header, where a call that reads all fifteen
    columns returns a chunk, the call with the header returns a chunk of as
    many rows whose columns are those of the full chunk, value for value,
    and leaves the unit in the same state. *)
Theorem column_subset ctx header unit chunk unit' :
  parseEntries ctx all_columns unit = Ok (chunk, unit') ->
  exists chunk_h,
    parseEntries ctx header unit = Ok (chunk_h, unit') /\
    getNumRows chunk_h = getNumRows chunk /\
    forall c,
      In c header ->
      column_of header (getColumns chunk_h) c
      = column_of all_columns (getColumns chunk) c.
Proof.
  intros H.
  destruct (parseEntries_table _ _ _ _ _ H
              (all_columns_complete COL_DECL_FILE)) as [table Ht].
  apply parseEntries_inv in H as (n & b & H & ->).
  set (need := propagate_need (need_of_header header)).
  pose proof (parse_rows_restrict ctx _ need need_all_columns _ _ _ _ _ _ _ H)
    as Hr.
  rewrite restrict_empty in Hr.
  exists (mkChunk (map (built_column unit' (restrict need b) n) header) n).
  split; [|split].
  - unfold parseEntries. fold need. rewrite Hr. cbn [bind].
    destruct (assemble_columns_cases unit' (restrict need b) n header)
      as [(_ & Hn & _)|[_ ->]]; [congruence|reflexivity].
  - reflexivity.
  - intros c Hc. cbn [getColumns].
    rewrite column_of_map by exact Hc.
    rewrite column_of_map by apply all_columns_complete.
    f_equal. apply built_column_restrict.
    + apply propagate_need_closed.
    + apply propagate_need_In. exact Hc.
Qed.

Lemma column_subset_witness :
  exists chunk unit' chunk_h,
    parseEntries (sample_context 5) all_columns sample_unit
      = Ok (chunk, unit') /\
    parseEntries (sample_context 5) [COL_ATTR_STR; COL_NAME] sample_unit
      = Ok (chunk_h, unit') /\
    column_of [COL_ATTR_STR; COL_NAME] (getColumns chunk_h) COL_NAME
      = Some (ColumnString ["a.c"; "main"; EmptyString]%string).
Proof.
  eexists. eexists.
  match goal with
  | |- exists c, ?A /\ _ =>
      assert (Hp : A) by (vm_compute; reflexivity)
  end.
  destruct (column_subset _ [COL_ATTR_STR; COL_NAME] _ _ _ Hp)
    as (chunk_h & H1 & _ & H3).
  exists chunk_h. split; [exact Hp|]. split; [exact H1|].
  rewrite H3 by (simpl; auto). reflexivity.
Defined.

(** ** Units in the scheduler *)

Lemma UnitState_ctor_table_ok u unit :
  UnitState_ctor u = inr unit -> table_ok unit.
Proof.
  unfold UnitState_ctor. intros H.
  destruct (getAbbreviations u); [|discriminate].
  destruct (tryExtractDIEsIfNeeded u); [discriminate|].
  inv H. reflexivity.
Qed.

Lemma Forall_replace_nth {A : Type} (P : A -> Prop) x :
  P x -> forall l i, Forall P l -> Forall P (replace_nth i x l).
Proof.
  intros Hx. induction l as [|h t IH]; intros [|i] H; simpl; auto;
    inv H; constructor; auto.
Qed.

Lemma nth_error_replace_nth {A : Type} (x : A) :
  forall l i, (i < length l)%nat -> nth_error (replace_nth i x l) i = Some x.
Proof.
  induction l as [|h t IH]; intros [|i] H; simpl in *; try lia; auto.
  apply IH. lia.
Qed.

Lemma nth_error_replace_nth_other {A : Type} (x : A) :
  forall l i j, i <> j -> nth_error (replace_nth i x l) j = nth_error l j.
Proof.
  induction l as [|h t IH]; intros [|i] [|j] H; simpl; auto;
    try contradiction; try (apply IH; congruence).
Qed.

Lemma enqueue_units_ok units :
  forall s e s',
    enqueue_units units s = (e, s') ->
    Forall table_ok (units_queue s) -> Forall table_ok (units_queue s').
Proof.
  induction units as [|u rest IH]; intros s e s' H Hq; simpl in H.
  - inv H. exact Hq.
  - destruct (UnitState_ctor u) as [err|unit] eqn:Eu.
    + inv H. exact Hq.
    + apply IH in H; [exact H|]. simpl. apply Forall_app. split; [exact Hq|].
      constructor; [|constructor]. eapply UnitState_ctor_table_ok; eassumption.
Qed.

Lemma worker_loop_ok fmt s w s' :
  worker_loop fmt s = (w, s') ->
  Forall table_ok (units_queue s) ->
  Forall table_ok (units_queue s') /\ worker_ok w.
Proof.
  unfold worker_loop. intros H Hq.
  destruct (units_queue s) as [|unit rest] eqn:Eq.
  - inv H. rewrite Eq. split; [constructor|exact I].
  - destruct (is_stopped s);
      [inv H; rewrite Eq; split; [exact Hq|exact I]|].
    destruct (num_threads fmt <? length (delivery_queue s))%nat;
      [inv H; rewrite Eq; split; [exact Hq|exact I]|].
    inv H. simpl. inv Hq. split; assumption.
Qed.

Lemma publish_ok chunk before unit s :
  table_ok unit -> Forall table_ok (units_queue s) ->
  Forall table_ok (units_queue (publish chunk before unit s)).
Proof.
  unfold publish. cbv zeta. intros Hu Hq.
  destruct (chunk_nonempty chunk), (negb (eof unit)); simpl; auto.
Qed.

Lemma worker_step_ok fmt w s w' s' :
  unsigned_values (dwarf_context (in_ fmt)) ->
  worker_ok w -> Forall table_ok (units_queue s) ->
  worker_step fmt w s = Some (w', s') ->
  Forall table_ok (units_queue s') /\ worker_ok w'.
Proof.
  intros Hu Hw Hq H. unfold worker_step in H.
  destruct w as [|unit| |]; try discriminate.
  - injection H as H. eapply worker_loop_ok; eassumption.
  - simpl in Hw.
    destruct (parseEntries_defined _ (header fmt) unit Hu Hw) as [_ Hk].
    destruct (parseEntries _ _ unit) as [[chunk unit1]|e|]; try discriminate.
    + injection H as H. destruct (Hk _ _ eq_refl) as [H1 _].
      apply worker_loop_ok in H; [exact H|].
      apply publish_ok; assumption.
    + inv H. simpl. split; [exact Hq|exact I].
  - injection H as H. eapply worker_loop_ok; eassumption.
Qed.

Lemma worker_step_defined fmt w s :
  unsigned_values (dwarf_context (in_ fmt)) ->
  need_of_header (header fmt) COL_DECL_FILE = false ->
  worker_ok w -> has_exited w = false ->
  worker_step fmt w s <> None.
Proof.
  intros Hu Hf Hw He. unfold worker_step.
  destruct w as [|unit| |]; try discriminate.
  simpl in Hw.
  destruct (parseEntries_defined _ (header fmt) unit Hu Hw) as [Hd _].
  assert (Hn : ~ In COL_DECL_FILE (header fmt)).
  { intros Hi. apply need_of_header_In in Hi. congruence. }
  specialize (Hd Hn).
  destruct (parseEntries _ _ unit) as [[chunk unit1]|e|];
    [discriminate|discriminate|congruence].
Qed.

Lemma generate_loop_queue s r s' :
  generate_loop s = (r, s') ->
  units_queue s' = units_queue s /\
  units_in_progress s' = units_in_progress s /\
  background_exception s' = background_exception s.
Proof.
  unfold generate_loop, scope_exit. intros H.
  destruct (is_stopped s) eqn:E1, (background_exception s) eqn:E2,
    (delivery_queue s) as [|[chunk bytes] rest] eqn:E3,
    (empty (units_queue s) && (units_in_progress s =? 0)) eqn:E4;
    inv H; simpl; repeat split; auto.
Qed.

Lemma repeat_NotStarted_ok n : Forall worker_ok (repeat NotStarted n).
Proof. induction n; simpl; constructor; auto. exact I. Qed.

Lemma initializeIfNeeded_ok fmt s e s' :
  initializeIfNeeded fmt s = (e, s') -> units_ok s -> units_ok s'.
Proof.
  unfold initializeIfNeeded, units_ok. intros H [Hq Hp].
  destruct (elf s); [inv H; auto|].
  destruct (is_stopped (set_elf (Some (in_ fmt)) s)); [inv H; auto|].
  destruct (negb (debug_info_section (in_ fmt))); [inv H; auto|].
  destruct (negb (debug_abbrev_section (in_ fmt))); [inv H; auto|].
  destruct (enqueue_units _ _) as [[err|] s1] eqn:Eq.
  - pose proof (enqueue_units_fields _ _ _ _ Eq) as (_ & B & _).
    apply enqueue_units_ok in Eq; [|exact Hq]. inv H.
    split; [exact Eq|]. rewrite B. exact Hp.
  - apply enqueue_units_ok in Eq; [|exact Hq]. inv H. simpl.
    split; [exact Eq|]. apply repeat_NotStarted_ok.
Qed.

Lemma units_ok_exec fmt a s s' :
  unsigned_values (dwarf_context (in_ fmt)) ->
  units_ok s -> exec fmt a s = Some s' -> units_ok s'.
Proof.
  intros Hu [Hq Hp] H. destruct a as [i|]; simpl in H.
  - destruct (nth_error (pool s) i) as [w|] eqn:En; [|discriminate].
    destruct (worker_step fmt w s) as [[w' s1]|] eqn:Es; [|discriminate].
    inv H.
    assert (Hw : worker_ok w).
    { rewrite Forall_forall in Hp. apply Hp. eapply nth_error_In; eassumption. }
    pose proof (worker_step_cases _ _ _ _ _ Es) as (P1 & _).
    apply worker_step_ok in Es as [H1 H2]; try assumption.
    split; simpl; [exact H1|].
    apply Forall_replace_nth; [exact H2|]. rewrite P1. exact Hp.
  - inv H. unfold generate.
    destruct (initializeIfNeeded fmt s) as [[e|] s1] eqn:Ei;
      apply initializeIfNeeded_ok in Ei; try (split; assumption);
      simpl; [exact Ei|].
    destruct (generate_loop s1) as [r s2] eqn:Eg. simpl.
    pose proof (generate_loop_cases _ _ _ Eg) as (P1 & _).
    apply generate_loop_queue in Eg as (Q1 & _).
    destruct Ei as [A B]. split; [rewrite Q1|rewrite P1]; assumption.
Qed.

Lemma units_ok_run fmt trace :
  unsigned_values (dwarf_context (in_ fmt)) ->
  forall s s', units_ok s -> run fmt trace s = Some s' -> units_ok s'.
Proof.
  intros Hu. induction trace as [|a rest IH]; intros s s' Hs H; simpl in H.
  - inv H. exact Hs.
  - destruct (exec fmt a s) as [s1|] eqn:E; [|discriminate].
    eapply IH; [|exact H]. eapply units_ok_exec; eassumption.
Qed.

Lemma units_ok_reachable fmt s :
  unsigned_values (dwarf_context (in_ fmt)) -> reachable fmt s -> units_ok s.
Proof.
  intros Hu [trace H]. eapply units_ok_run; [exact Hu| |exact H].
  split; constructor.
Qed.

(** X17.  Where [decl_file] is not among the requested columns, no turn of
    a worker runs into an undefined access: in every state the format can
    reach, given that raw values are unsigned, a thread that has not ended
    can take its turn, and whatever it decodes it leaves the scheduler in a
    state of the same kind. *)
Theorem worker_turn_is_defined fmt s i w :
  unsigned_values (dwarf_context (in_ fmt)) ->
  need_of_header (header fmt) COL_DECL_FILE = false ->
  reachable fmt s ->
  nth_error (pool s) i = Some w -> has_exited w = false ->
  exists s', exec fmt (WorkerTurn i) s = Some s' /\ reachable fmt s'.
Proof.
  intros Hu Hf Hr Hn He.
  pose proof (units_ok_reachable fmt s Hu Hr) as [_ Hp].
  assert (Hw : worker_ok w).
  { rewrite Forall_forall in Hp. apply Hp. eapply nth_error_In; eassumption. }
  pose proof (worker_step_defined fmt w s Hu Hf Hw He) as Hd.
  simpl. rewrite Hn.
  destruct (worker_step fmt w s) as [[w' s1]|] eqn:Es; [|congruence].
  eexists. split; [reflexivity|].
  destruct Hr as [trace Ht]. exists (trace ++ [WorkerTurn i]).
  clear - Ht Hn Es. revert Ht. generalize new_scheduler.
  induction trace as [|a rest IH]; intros s0 Ht; simpl in *.
  - inv Ht. rewrite Hn, Es. reflexivity.
  - destruct (exec fmt a s0); [|discriminate]. apply IH. exact Ht.
Qed.

Lemma worker_turn_is_defined_witness :
  unsigned_values (dwarf_context (in_ four_units)) /\
  need_of_header (header four_units) COL_DECL_FILE = false /\
  exists s unit s',
    reachable four_units s /\
    nth_error (pool s) 0 = Some (Decoding unit) /\
    exec four_units (WorkerTurn 0) s = Some s' /\
    length (delivery_queue s') = 1%nat.
Proof.
  split; [exact bare_context_unsigned|]. split; [reflexivity|].
  eexists. eexists.
  assert (Hr : reachable four_units
                 (mkScheduler (Some (in_ four_units))
                    (map (fun start =>
                            mkUnitState (bare_dwarf_unit start) bare_abbrevs
                              (start + 12) (start + 11) [] EmptyString None 0)
                       [12; 24; 36])
                    [] 1 false None 0
                    [Decoding (mkUnitState (bare_dwarf_unit 0) bare_abbrevs
                                 12 11 [] EmptyString None 0);
                     NotStarted]))
    by (exists [ConsumerTurn; WorkerTurn 0]; vm_compute; reflexivity).
  destruct (worker_turn_is_defined four_units _ 0 _ bare_context_unsigned
              eq_refl Hr eq_refl eq_refl) as (s' & Hs & _).
  exists s'. split; [exact Hr|]. split; [reflexivity|]. split; [exact Hs|].
  vm_compute in Hs. inv Hs. reflexivity.
Defined.

(** ** Stopping *)

Lemma worker_loop_stopped fmt s :
  is_stopped s = true -> worker_loop fmt s = (Exited, s).
Proof.
  unfold worker_loop. intros ->. destruct (units_queue s); reflexivity.
Qed.

Lemma publish_queue chunk before unit s :
  let s' := publish chunk before unit s in
  (exists returned, units_queue s' = returned ++ units_queue s) /\
  approx_bytes_read_for_chunk s' = approx_bytes_read_for_chunk s /\
  background_exception s' = background_exception s /\
  units_in_progress s' = units_in_progress s - 1.
Proof.
  unfold publish. cbv zeta.
  destruct (chunk_nonempty chunk), (negb (eof unit)); simpl;
    (split; [first [exists [unit]; reflexivity | exists []; reflexivity]|]);
    repeat split.
Qed.

(** A turn of a worker while [is_stopped] is set. *)
Lemma stopped_worker_step fmt w s w' s' :
  is_stopped s = true ->
  worker_step fmt w s = Some (w', s') ->
  w' = Exited /\ pool s' = pool s /\ is_stopped s' = true /\
  elf s' = elf s /\
  approx_bytes_read_for_chunk s' = approx_bytes_read_for_chunk s /\
  exists returned, units_queue s' = returned ++ units_queue s.
Proof.
  intros Hs H. unfold worker_step in H.
  destruct w as [|unit| |]; try discriminate.
  - rewrite worker_loop_stopped in H by exact Hs. inv H.
    repeat split; auto. exists []. reflexivity.
  - destruct (parseEntries _ _ unit) as [[chunk unit1]|e|]; try discriminate.
    + pose proof (publish_fields chunk (offset unit) unit1 s)
        as (P1 & P2 & P3 & _).
      pose proof (publish_queue chunk (offset unit) unit1 s)
        as (Q1 & Q2 & _).
      cbv zeta in *.
      rewrite worker_loop_stopped in H by congruence. inv H.
      repeat split; auto. congruence.
    + inv H. simpl. repeat split; auto. exists []. reflexivity.
  - rewrite worker_loop_stopped in H by exact Hs. inv H.
    repeat split; auto. exists []. reflexivity.
Qed.

Lemma count_replace_nth {A : Type} (f : A -> bool) p :
  forall i w w',
    nth_error p i = Some w ->
    (length (filter f (replace_nth i w' p)) + (if f w then 1 else 0)
     = length (filter f p) + (if f w' then 1 else 0))%nat.
Proof.
  induction p as [|h t IH]; intros [|i] w w' H; simpl in H; try discriminate.
  - inv H. simpl. destruct (f w), (f w'); simpl; lia.
  - simpl. specialize (IH _ _ w' H). destruct (f h); simpl; lia.
Qed.

(** X18.  Once [is_stopped] is set, a turn of a worker is its last: the
    thread leaves its function, whether it was starting, waiting or
    decoding, and takes no unit from the queue; a thread that was decoding
    still delivers what it decoded.  The other threads and the flag are as
    they were, and the number of threads that hold a unit does not grow. *)
Theorem stop_ends_a_worker fmt i s s' :
  is_stopped s = true ->
  exec fmt (WorkerTurn i) s = Some s' ->
  pool s' = replace_nth i Exited (pool s) /\
  nth_error (pool s') i = Some Exited /\
  is_stopped s' = true /\
  (exists returned, units_queue s' = returned ++ units_queue s) /\
  (count_decoding (pool s') <= count_decoding (pool s))%nat.
Proof.
  intros Hs H. simpl in H.
  destruct (nth_error (pool s) i) as [w|] eqn:En; [|discriminate].
  destruct (worker_step fmt w s) as [[w' s1]|] eqn:Es; [|discriminate].
  inv H.
  apply stopped_worker_step in Es as (-> & P & S1 & _ & _ & Q); [|exact Hs].
  simpl. rewrite P. repeat split; auto.
  - apply nth_error_replace_nth. apply nth_error_Some. congruence.
  - pose proof (count_decoding_replace (pool s) i w Exited En) as Hc.
    simpl in Hc. lia.
Qed.

Lemma stop_ends_a_worker_witness :
  exists s s',
    is_stopped s = true /\
    exec four_units (WorkerTurn 0) s = Some s' /\
    nth_error (pool s) 0
      = Some (Decoding (mkUnitState (bare_dwarf_unit 0) bare_abbrevs 12 11 []
                          EmptyString None 0)) /\
    nth_error (pool s') 0 = Some Exited /\
    length (units_queue s') = 3%nat /\
    length (delivery_queue s') = 1%nat.
Proof.
  exists (mkScheduler (Some (in_ four_units))
            (map (fun start =>
                    mkUnitState (bare_dwarf_unit start) bare_abbrevs
                      (start + 12) (start + 11) [] EmptyString None 0)
               [12; 24; 36])
            [] 1 true None 0
            [Decoding (mkUnitState (bare_dwarf_unit 0) bare_abbrevs
                         12 11 [] EmptyString None 0);
             NotStarted]).
  eexists. split; [reflexivity|].
  match goal with
  | |- ?A /\ _ => assert (Hp : A) by (vm_compute; reflexivity)
  end.
  split; [exact Hp|]. split; [reflexivity|].
  pose proof (fun Hs => stop_ends_a_worker four_units 0 _ _ Hs Hp) as Hx.
  destruct (Hx eq_refl) as (_ & H2 & _).
  split; [exact H2|]. split; reflexivity.
Defined.

Lemma live_none p : live p = 0%nat -> forallb has_exited p = true.
Proof.
  unfold live. induction p as [|w p IH]; simpl; [reflexivity|].
  destruct (has_exited w); simpl; [exact IH|intros H; discriminate H].
Qed.

Lemma live_some p n :
  live p = S n ->
  exists i w, nth_error p i = Some w /\ has_exited w = false.
Proof.
  unfold live. induction p as [|w p IH]; simpl; [discriminate|].
  destruct (has_exited w) eqn:E; simpl.
  - intros H. destruct (IH H) as (i & w' & Hn & He).
    exists (S i), w'. auto.
  - intros _. exists 0%nat, w. auto.
Qed.

Lemma run_stopped_workers fmt trace :
  worker_turns trace = true ->
  forall s s',
    is_stopped s = true -> run fmt trace s = Some s' ->
    is_stopped s' = true /\ elf s' = elf s /\
    approx_bytes_read_for_chunk s' = approx_bytes_read_for_chunk s.
Proof.
  induction trace as [|a rest IH]; intros Ht s s' Hs H.
  - simpl in H. inv H. auto.
  - destruct a as [i|]; [|discriminate Ht].
    cbn [run] in H. cbn [worker_turns forallb andb] in Ht.
    destruct (exec fmt (WorkerTurn i) s) as [s2|] eqn:Ex; [|discriminate].
    cbn [exec] in Ex.
    destruct (nth_error (pool s) i) as [w|]; [|discriminate].
    destruct (worker_step fmt w s) as [[w' s1]|] eqn:Es; [|discriminate].
    inv Ex.
    apply stopped_worker_step in Es as (_ & _ & S1 & E1 & A1 & _);
      [|exact Hs].
    apply IH in H as (H1 & H2 & H3); [|exact Ht|exact S1].
    simpl in *. repeat split; congruence.
Qed.

Lemma stopped_join fmt :
  unsigned_values (dwarf_context (in_ fmt)) ->
  need_of_header (header fmt) COL_DECL_FILE = false ->
  forall n s,
    live (pool s) = n -> units_ok s -> is_stopped s = true ->
    exists trace s',
      worker_turns trace = true /\ run fmt trace s = Some s' /\
      forallb has_exited (pool s') = true /\
      length trace = n.
Proof.
  intros Hu Hf. induction n as [|n IH]; intros s Hl Hok Hs.
  - exists [], s. repeat split. apply live_none. exact Hl.
  - destruct (live_some _ _ Hl) as (i & w & Hn & He).
    assert (Hw : worker_ok w).
    { destruct Hok as [_ Hp]. rewrite Forall_forall in Hp. apply Hp.
      eapply nth_error_In; eassumption. }
    pose proof (worker_step_defined fmt w s Hu Hf Hw He) as Hd.
    destruct (worker_step fmt w s) as [[w' s1]|] eqn:Es; [|congruence].
    assert (Hx : exec fmt (WorkerTurn i) s
                 = Some (set_pool (replace_nth i w' (pool s1)) s1))
      by (simpl; rewrite Hn, Es; reflexivity).
    pose proof (units_ok_exec _ _ _ _ Hu Hok Hx) as Hok1.
    apply stopped_worker_step in Es as (-> & P & S1 & _); [|exact Hs].
    destruct (IH (set_pool (replace_nth i Exited (pool s1)) s1))
      as (trace & s' & T1 & T2 & T3 & T4); [|exact Hok1|exact S1|].
    + simpl. rewrite P.
      pose proof (count_replace_nth (fun w => negb (has_exited w))
                    (pool s) i w Exited Hn) as Hc.
      cbv beta in Hc. rewrite He in Hc. simpl in Hc.
      unfold live in *. lia.
    + exists (WorkerTurn i :: trace), s'.
      split; [exact T1|]. split; [|split; [exact T3|simpl; lia]].
      cbn [run]. rewrite Hx. exact T2.
Qed.

Lemma stopThreads_returns fmt s :
  unsigned_values (dwarf_context (in_ fmt)) ->
  need_of_header (header fmt) COL_DECL_FILE = false ->
  reachable fmt s ->
  exists trace s',
    stopThreads fmt trace s = Some s' /\
    (length trace <= length (pool s))%nat.
Proof.
  intros Hu Hf Hr. pose proof (units_ok_reachable fmt s Hu Hr) as Hok.
  destruct (stopped_join fmt Hu Hf (live (pool s)) (set_is_stopped true s)
              eq_refl)
    as (trace & s' & T1 & T2 & T3 & T4); [exact Hok|reflexivity|].
  exists trace, s'. split.
  - unfold stopThreads, wait. rewrite T1, T2, T3. reflexivity.
  - rewrite T4. unfold live. apply filter_length_le.
Qed.

Lemma stopThreads_fields fmt trace s s' :
  stopThreads fmt trace s = Some s' ->
  is_stopped s' = true /\
  forallb has_exited (pool s') = true /\
  elf s' = elf s /\
  approx_bytes_read_for_chunk s' = approx_bytes_read_for_chunk s.
Proof.
  intros H. unfold stopThreads, wait in H.
  destruct (worker_turns trace) eqn:Et; [|discriminate].
  destruct (run fmt trace (set_is_stopped true s)) as [s1|] eqn:Er;
    [|discriminate].
  destruct (forallb has_exited (pool s1)) eqn:Ea; [|discriminate].
  inv H.
  apply run_stopped_workers in Er as (H1 & H2 & H3);
    [|exact Et|reflexivity].
  repeat split; assumption.
Qed.

(** X19.  However the threads take their turns, a call of [stopThreads]
    that returns does so with [is_stopped] set, every thread ended, and the
    ELF image and the byte count of the last chunk untouched.  Where
    [decl_file] is not among the requested columns the call does return, in
    every state the format can reach: the threads of the pool can all end,
    one turn at the mutex each at most. *)
Theorem stopThreads_joins fmt s :
  unsigned_values (dwarf_context (in_ fmt)) ->
  reachable fmt s ->
  (need_of_header (header fmt) COL_DECL_FILE = false ->
   exists trace s',
     stopThreads fmt trace s = Some s' /\
     (length trace <= length (pool s))%nat) /\
  (forall trace s',
      stopThreads fmt trace s = Some s' ->
      is_stopped s' = true /\
      forallb has_exited (pool s') = true /\
      elf s' = elf s /\
      approx_bytes_read_for_chunk s' = approx_bytes_read_for_chunk s).
Proof.
  intros Hu Hr. split.
  - intros Hf. apply stopThreads_returns; assumption.
  - intros trace s' H. eapply stopThreads_fields; eassumption.
Qed.

Lemma stopThreads_joins_witness :
  unsigned_values (dwarf_context (in_ four_units)) /\
  need_of_header (header four_units) COL_DECL_FILE = false /\
  exists s,
    reachable four_units s /\
    length (pool s) = 2%nat /\
    exists trace s',
      stopThreads four_units trace s = Some s' /\
      (length trace <= 2)%nat /\ is_stopped s' = true.
Proof.
  split; [exact bare_context_unsigned|]. split; [reflexivity|].
  assert (Hr : reachable four_units
                 (mkScheduler (Some (in_ four_units))
                    (map (fun start =>
                            mkUnitState (bare_dwarf_unit start) bare_abbrevs
                              (start + 12) (start + 11) [] EmptyString None 0)
                       [12; 24; 36])
                    [] 1 false None 0
                    [Decoding (mkUnitState (bare_dwarf_unit 0) bare_abbrevs
                                 12 11 [] EmptyString None 0);
                     NotStarted]))
    by (exists [ConsumerTurn; WorkerTurn 0]; vm_compute; reflexivity).
  eexists. split; [exact Hr|]. split; [reflexivity|].
  destruct (stopThreads_joins four_units _ bare_context_unsigned Hr)
    as [Hex Hall].
  destruct (Hex eq_refl) as (trace & s' & H1 & H2).
  exists trace, s'. split; [exact H1|]. split; [exact H2|].
  exact (proj1 (Hall _ _ H1)).
Defined.

(** ** Resetting *)

Lemma enqueue_units_approx n units :
  forall s,
    enqueue_units units (set_approx_bytes_read_for_chunk n s)
    = (fst (enqueue_units units s),
       set_approx_bytes_read_for_chunk n (snd (enqueue_units units s))).
Proof.
  induction units as [|u rest IH]; intros s; simpl; [reflexivity|].
  destruct (UnitState_ctor u) as [e|unit]; [reflexivity|].
  rewrite <- IH. reflexivity.
Qed.

Lemma generate_approx fmt n :
  generate fmt (set_approx_bytes_read_for_chunk n new_scheduler)
  = (fst (generate fmt new_scheduler),
     set_approx_bytes_read_for_chunk n (snd (generate fmt new_scheduler))).
Proof.
  unfold generate, initializeIfNeeded. simpl.
  destruct (negb (debug_info_section (in_ fmt))); [reflexivity|].
  destruct (negb (debug_abbrev_section (in_ fmt))); [reflexivity|].
  change (set_elf (Some (in_ fmt))
            (set_approx_bytes_read_for_chunk n new_scheduler))
    with (set_approx_bytes_read_for_chunk n
            (set_elf (Some (in_ fmt)) new_scheduler)).
  rewrite enqueue_units_approx.
  destruct (enqueue_units (info_section_units (in_ fmt))
              (set_elf (Some (in_ fmt)) new_scheduler)) as [[e|] s1] eqn:Eq;
    simpl; [reflexivity|].
  apply enqueue_units_fields in Eq as (_ & _ & D & S).
  simpl in D, S.
  unfold generate_loop, scope_exit. simpl. rewrite S, D.
  destruct (background_exception s1); [reflexivity|].
  destruct (empty (units_queue s1) && (units_in_progress s1 =? 0));
    reflexivity.
Qed.

(** X20.  A call of [resetParser] that returns leaves the instance as a
    newly constructed one, but for the byte count of the last chunk, which
    it keeps: no pool, no exception, the flag down, both queues empty,
    nothing in progress, no ELF image.  So the next [generate] on the same
    input opens the image again and returns what the first [generate] of a
    new instance returns, also after an exception or after the end of the
    stream.  Where [decl_file] is not among the requested columns the call
    does return, in every state the format can reach. *)
Theorem resetParser_is_fresh fmt s :
  unsigned_values (dwarf_context (in_ fmt)) ->
  reachable fmt s ->
  (need_of_header (header fmt) COL_DECL_FILE = false ->
   exists trace s', resetParser fmt trace s = Some s') /\
  (forall trace s',
      resetParser fmt trace s = Some s' ->
      s' = set_approx_bytes_read_for_chunk (approx_bytes_read_for_chunk s)
             new_scheduler /\
      fst (generate fmt s') = fst (generate fmt new_scheduler)).
Proof.
  intros Hu Hr. split.
  - intros Hf.
    destruct (stopThreads_returns fmt s Hu Hf Hr) as (trace & s1 & H1 & _).
    exists trace. unfold resetParser. rewrite H1. eexists. reflexivity.
  - intros trace s' H. unfold resetParser in H.
    destruct (stopThreads fmt trace s) as [s1|] eqn:E1; [|discriminate].
    apply stopThreads_fields in E1 as (_ & _ & _ & A). inv H.
    assert (E : set_elf None
                  (set_units_in_progress 0
                     (set_delivery_queue []
                        (set_units_queue []
                           (set_is_stopped false
                              (set_background_exception None
                                 (set_pool [] s1))))))
                = set_approx_bytes_read_for_chunk
                    (approx_bytes_read_for_chunk s) new_scheduler)
      by (rewrite <- A; reflexivity).
    rewrite E. split; [reflexivity|].
    rewrite generate_approx. reflexivity.
Qed.

Lemma resetParser_is_fresh_witness :
  unsigned_values (dwarf_context (in_ faulty_units)) /\
  need_of_header (header faulty_units) COL_DECL_FILE = false /\
  exists s,
    run faulty_units (faulty_trace ++ [ConsumerTurn]) new_scheduler = Some s /\
    is_stopped s = true /\ background_exception s <> None /\
    exists trace s',
      resetParser faulty_units trace s = Some s' /\
      is_stopped s' = false /\ background_exception s' = None /\
      elf s' = None.
Proof.
  split; [exact bare_context_unsigned|]. split; [reflexivity|].
  eexists.
  match goal with
  | |- ?A /\ _ => assert (Hp : A) by (vm_compute; reflexivity)
  end.
  split; [exact Hp|]. split; [reflexivity|]. split; [discriminate|].
  assert (Hr : reachable faulty_units _) by (eexists; exact Hp).
  destruct (resetParser_is_fresh faulty_units _ bare_context_unsigned Hr)
    as [Hex Hall].
  destruct (Hex eq_refl) as (trace & s' & H1).
  exists trace, s'. split; [exact H1|].
  destruct (Hall _ _ H1) as [-> _]. repeat split.
Defined.

(** ** The end of the stream *)

Lemma worker_loop_progress fmt s w s' :
  worker_loop fmt s = (w, s') ->
  background_exception s' = background_exception s /\
  units_in_progress s' =
    units_in_progress s + (if is_decoding w then 1 else 0).
Proof.
  unfold worker_loop. intros H.
  destruct (units_queue s) as [|unit rest]; [inv H; simpl; split; [auto|lia]|].
  destruct (is_stopped s); [inv H; simpl; split; [auto|lia]|].
  destruct (num_threads fmt <? length (delivery_queue s))%nat;
    inv H; simpl; split; auto; lia.
Qed.

Lemma enqueue_units_progress units :
  forall s e s',
    enqueue_units units s = (e, s') ->
    units_in_progress s' = units_in_progress s /\
    background_exception s' = background_exception s.
Proof.
  induction units as [|u rest IH]; intros s e s' H; simpl in H.
  - inv H. auto.
  - destruct (UnitState_ctor u) as [err|unit].
    + inv H. auto.
    + apply IH in H. simpl in H. exact H.
Qed.

Lemma count_decoding_repeat n : count_decoding (repeat NotStarted n) = 0%nat.
Proof. unfold count_decoding. induction n; simpl; auto. Qed.

Lemma initializeIfNeeded_progress fmt s e s' :
  initializeIfNeeded fmt s = (e, s') ->
  units_in_progress s' = units_in_progress s /\
  background_exception s' = background_exception s /\
  (pool s' = pool s \/
   (elf s = None /\ pool s' = repeat NotStarted (num_threads fmt))).
Proof.
  unfold initializeIfNeeded. intros H.
  destruct (elf s) eqn:Ee; [inv H; auto|].
  destruct (is_stopped (set_elf (Some (in_ fmt)) s)); [inv H; simpl; auto|].
  destruct (negb (debug_info_section (in_ fmt))); [inv H; simpl; auto|].
  destruct (negb (debug_abbrev_section (in_ fmt))); [inv H; simpl; auto|].
  destruct (enqueue_units _ _) as [[err|] s1] eqn:Eq.
  - pose proof (enqueue_units_fields _ _ _ _ Eq) as (_ & B & _).
    apply enqueue_units_progress in Eq as (P1 & P2). inv H. simpl in *. auto.
  - apply enqueue_units_progress in Eq as (P1 & P2). inv H. simpl in *. auto.
Qed.

Lemma progress_inv_exec fmt a s s' :
  scheduler_inv fmt s -> progress_inv s -> exec fmt a s = Some s' ->
  progress_inv s'.
Proof.
  intros (I1 & _) Hp H. unfold progress_inv in *.
  destruct a as [i|]; simpl in H.
  - destruct (nth_error (pool s) i) as [w|] eqn:En; [|discriminate].
    destruct (worker_step fmt w s) as [[w' s1]|] eqn:Es; [|discriminate].
    inv H. simpl. intros Hb.
    pose proof (worker_step_cases _ _ _ _ _ Es) as (P & _).
    rewrite P.
    pose proof (count_decoding_replace (pool s) i w w' En) as Hc.
    unfold worker_step in Es. destruct w as [|unit| |]; try discriminate.
    + injection Es as Es. apply worker_loop_progress in Es as (B & U).
      rewrite B in Hb. rewrite U, (Hp Hb). simpl in Hc.
      destruct (is_decoding w'); lia.
    + destruct (parseEntries _ _ unit) as [[chunk unit1]|e|];
        try discriminate.
      * injection Es as Es. apply worker_loop_progress in Es as (B & U).
        pose proof (publish_queue chunk (offset unit) unit1 s)
          as (_ & _ & Q1 & Q2). cbv zeta in Q1, Q2.
        rewrite B, Q1 in Hb. rewrite U, Q2, (Hp Hb). simpl in Hc.
        destruct (is_decoding w'); lia.
      * inv Es. simpl in Hb. discriminate.
    + injection Es as Es. apply worker_loop_progress in Es as (B & U).
      rewrite B in Hb. rewrite U, (Hp Hb). simpl in Hc.
      destruct (is_decoding w'); lia.
  - inv H. unfold generate.
    destruct (initializeIfNeeded fmt s) as [[e|] s1] eqn:Ei;
      apply initializeIfNeeded_progress in Ei as (U & B & Hpool).
    + simpl. intros Hb. rewrite U, (Hp ltac:(congruence)).
      destruct Hpool as [-> | [He ->]]; [reflexivity|].
      destruct (I1 He) as [-> _]. rewrite count_decoding_repeat. reflexivity.
    + destruct (generate_loop s1) as [r s2] eqn:Eg. simpl.
      pose proof (generate_loop_cases _ _ _ Eg) as (P1 & _).
      apply generate_loop_queue in Eg as (_ & U2 & B2).
      intros Hb. rewrite U2, U, P1, (Hp ltac:(congruence)).
      destruct Hpool as [-> | [He ->]]; [reflexivity|].
      destruct (I1 He) as [-> _]. rewrite count_decoding_repeat. reflexivity.
Qed.

Lemma progress_inv_run fmt trace :
  forall s s',
    scheduler_inv fmt s -> progress_inv s -> run fmt trace s = Some s' ->
    progress_inv s'.
Proof.
  induction trace as [|a rest IH]; intros s s' Hi Hp H; simpl in H.
  - inv H. exact Hp.
  - destruct (exec fmt a s) as [s1|] eqn:Ee; [|discriminate].
    eapply IH; [| |exact H].
    + eapply scheduler_inv_exec; eassumption.
    + eapply progress_inv_exec; eassumption.
Qed.

(** X21.  [generate] reports the end of the stream of a running instance
    only when nothing is left: no chunk waits in the delivery queue, no
    unit waits in the units queue, no thread holds a unit and no worker has
    failed.  The call leaves [is_stopped] set. *)
Theorem end_of_stream_means_done fmt s s' :
  reachable fmt s ->
  is_stopped s = false ->
  generate fmt s = (EndOfStream, s') ->
  delivery_queue s' = [] /\ units_queue s' = [] /\
  count_decoding (pool s') = 0%nat /\
  background_exception s' = None /\
  is_stopped s' = true.
Proof.
  intros [trace Hr] Hs H.
  assert (Hp : progress_inv s').
  { apply (progress_inv_run fmt (trace ++ [ConsumerTurn]) new_scheduler).
    - apply scheduler_inv_new.
    - intros _. reflexivity.
    - clear - Hr H. revert Hr. generalize new_scheduler.
      induction trace as [|a rest IH]; intros s0 Ht; simpl in *.
      + inv Ht. rewrite H. reflexivity.
      + destruct (exec fmt a s0); [|discriminate]. apply IH. exact Ht. }
  unfold generate in H.
  destruct (initializeIfNeeded fmt s) as [[e|] s1] eqn:Ei; [discriminate|].
  apply initializeIfNeeded_cases in Ei as (S1 & _).
  unfold generate_loop, scope_exit in H. rewrite S1, Hs in H.
  destruct (background_exception s1) eqn:Eb; [discriminate|].
  destruct (delivery_queue s1) as [|[chunk bytes] rest] eqn:Ed;
    [|discriminate].
  destruct (empty (units_queue s1) && (units_in_progress s1 =? 0)) eqn:Ee;
    [|discriminate].
  inv H. apply andb_true_iff in Ee as [Eq Eu].
  unfold progress_inv in Hp. simpl in *.
  specialize (Hp Eb). apply Z.eqb_eq in Eu.
  destruct (units_queue s1); [|discriminate].
  repeat split; auto. lia.
Qed.

Lemma end_of_stream_means_done_witness :
  exists s s',
    reachable
      (mkFormat (mkElfImage true true [bare_dwarf_unit 0] bare_context)
         [COL_OFFSET] 1) s /\
    is_stopped s = false /\
    generate
      (mkFormat (mkElfImage true true [bare_dwarf_unit 0] bare_context)
         [COL_OFFSET] 1) s = (EndOfStream, s') /\
    pool s' = [Exited] /\ delivery_queue s' = [].
Proof.
  eexists. eexists.
  match goal with
  | |- ?A /\ _ =>
      assert (Hr : A)
        by (exists [ConsumerTurn; WorkerTurn 0; WorkerTurn 0; ConsumerTurn];
            vm_compute; reflexivity)
  end.
  split; [exact Hr|]. split; [reflexivity|].
  match goal with
  | |- ?A /\ _ => assert (Hg : A) by (vm_compute; reflexivity)
  end.
  split; [exact Hg|]. split; [reflexivity|].
  exact (proj1 (end_of_stream_means_done _ _ _ Hr eq_refl Hg)).
Defined.

(** ** Initialisation *)

Lemma enqueue_units_result units :
  forall s e s',
    enqueue_units units s = (e, s') ->
    exists built,
      units_queue s' = units_queue s ++ built /\
      match e with
      | None => map UnitState_ctor units = map inr built
      | Some err =>
          exists failed rest,
            units = firstn (length built) units ++ failed :: rest /\
            map UnitState_ctor (firstn (length built) units)
              = map inr built /\
            UnitState_ctor failed = inl err
      end.
Proof.
  induction units as [|u rest IH]; intros s e s' H; simpl in H.
  - inv H. exists []. rewrite app_nil_r. auto.
  - destruct (UnitState_ctor u) as [err|unit] eqn:Eu.
    + inv H. exists []. rewrite app_nil_r. split; [reflexivity|].
      exists u, rest. simpl. auto.
    + apply IH in H as (built & Hq & He). simpl in Hq.
      exists (unit :: built). split; [rewrite Hq, <- app_assoc; reflexivity|].
      destruct e as [err|].
      * destruct He as (failed & rest' & H1 & H2 & H3).
        exists failed, rest'. simpl. rewrite Eu, H2. rewrite <- H1. auto.
      * simpl. rewrite Eu, He. reflexivity.
Qed.

(** X22.  The first [generate] opens the image once and for all.  When both
    sections are there and every unit can be constructed, the units queue
    gains one state per unit of [.debug_info], in the order of the section,
    and the pool starts [num_threads] threads.  A missing section or a unit
    whose constructor throws leaves no pool behind, the states built before
    the failure stay in the queue, and the image stays open: whatever the
    outcome, calling [initializeIfNeeded] again does nothing and throws
    nothing. *)
Theorem initializeIfNeeded_outcome fmt s e s' :
  elf s = None -> is_stopped s = false ->
  initializeIfNeeded fmt s = (e, s') ->
  elf s' = Some (in_ fmt) /\
  initializeIfNeeded fmt s' = (None, s') /\
  exists built,
    units_queue s' = units_queue s ++ built /\
    match e with
    | None =>
        debug_info_section (in_ fmt) = true /\
        debug_abbrev_section (in_ fmt) = true /\
        map UnitState_ctor (info_section_units (in_ fmt)) = map inr built /\
        pool s' = repeat NotStarted (num_threads fmt)
    | Some err =>
        pool s' = pool s /\
        ((debug_info_section (in_ fmt) = false /\ built = [] /\
          err = CANNOT_PARSE_ELF "No .debug_info section") \/
         (debug_info_section (in_ fmt) = true /\
          debug_abbrev_section (in_ fmt) = false /\ built = [] /\
          err = CANNOT_PARSE_ELF "No .debug_abbrev section") \/
         (debug_info_section (in_ fmt) = true /\
          debug_abbrev_section (in_ fmt) = true /\
          exists failed,
            nth_error (info_section_units (in_ fmt)) (length built)
              = Some failed /\
            UnitState_ctor failed = inl err))
    end.
Proof.
  intros He Hs H.
  assert (Helf : elf s' = Some (in_ fmt)).
  { unfold initializeIfNeeded in H. rewrite He in H. simpl in H.
    rewrite Hs in H.
    destruct (negb (debug_info_section (in_ fmt))); [inv H; reflexivity|].
    destruct (negb (debug_abbrev_section (in_ fmt))); [inv H; reflexivity|].
    destruct (enqueue_units _ _) as [[err|] s1] eqn:Eq;
      apply enqueue_units_fields in Eq as (A & _); inv H; simpl; exact A. }
  split; [exact Helf|].
  split; [unfold initializeIfNeeded; rewrite Helf; reflexivity|].
  unfold initializeIfNeeded in H. rewrite He in H. simpl in H.
  rewrite Hs in H.
  destruct (debug_info_section (in_ fmt)) eqn:Di; simpl in H;
    [|inv H; exists []; simpl; rewrite app_nil_r; auto 10].
  destruct (debug_abbrev_section (in_ fmt)) eqn:Da; simpl in H;
    [|inv H; exists []; simpl; rewrite app_nil_r; auto 10].
  destruct (enqueue_units _ _) as [[err|] s1] eqn:Eq.
  - pose proof (enqueue_units_fields _ _ _ _ Eq) as (_ & B & _).
    apply enqueue_units_result in Eq as (built & Hq & failed & rest & H1
                                         & H2 & H3).
    inv H. exists built. split; [exact Hq|]. split; [exact B|].
    right. right. repeat split. exists failed. split; [|exact H3].
    rewrite H1 at 1. rewrite nth_error_app2;
      rewrite length_firstn; [|lia].
    assert (Hl : (length built <= length (info_section_units (in_ fmt)))%nat).
    { apply (f_equal (@length _)) in H2. rewrite !length_map in H2.
      rewrite length_firstn in H2. lia. }
    replace (length built
             - Nat.min (length built)
                 (length (info_section_units (in_ fmt))))%nat
      with 0%nat by lia.
    reflexivity.
  - apply enqueue_units_result in Eq as (built & Hq & Hm).
    inv H. exists built. simpl. auto.
Qed.

Lemma initializeIfNeeded_outcome_witness :
  exists e s',
    initializeIfNeeded broken_second_unit new_scheduler = (Some e, s') /\
    length (units_queue s') = 1%nat /\ pool s' = [] /\
    initializeIfNeeded broken_second_unit s' = (None, s').
Proof.
  eexists. eexists.
  match goal with
  | |- ?A /\ _ => assert (Hp : A) by (vm_compute; reflexivity)
  end.
  split; [exact Hp|]. split; [reflexivity|]. split; [reflexivity|].
  exact (proj1 (proj2 (initializeIfNeeded_outcome broken_second_unit
                         new_scheduler _ _ eq_refl eq_refl Hp))).
Defined.

(** ** Delivery *)

Lemma MAX_ROWS_positive : (0 < MAX_ROWS)%nat.
Proof. pose proof MAX_ROWS_value. lia. Qed.

Lemma parse_rows_progress ctx need fuel n unit b n' unit' b' (start : Z) :
  advances ctx ->
  parse_rows ctx need fuel n unit b = Ok (n', unit', b') ->
  start + Z.of_nat n <= offset unit ->
  start + Z.of_nat n' <= offset unit'.
Proof.
  intros Ha H.
  apply (parse_rows_invariant ctx need
           (fun n u _ => start + Z.of_nat n <= offset u)) with (2 := H).
  intros k u0 b0 u1 b1 HP H1.
  pose proof (parseEntry_unit _ _ _ _ _ _ H1) as (_ & _ & _ & Hlt).
  specialize (Hlt Ha). lia.
Qed.

(** X23.  A worker delivers every chunk it decodes: the chunk
    [parseEntries] returns has at least one row, so it goes to the back of
    the delivery queue with the number of bytes the call consumed, the
    difference of the cursor after and before; [units_in_progress] goes
    down by one.  Where the extractors move forward and offsets fit 64
    bits, that number is positive and at least the number of rows. *)
Theorem every_chunk_is_delivered ctx header unit chunk unit' s :
  parseEntries ctx header unit = Ok (chunk, unit') ->
  let s' := publish chunk (offset unit) unit' s in
  delivery_queue s' =
    delivery_queue s ++ [(chunk, to_UInt64 (offset unit' - offset unit))] /\
  units_in_progress s' = units_in_progress s - 1 /\
  (advances ctx -> 0 <= offset unit -> offset unit' < 2 ^ 64 ->
   to_UInt64 (offset unit' - offset unit) = offset unit' - offset unit /\
   Z.of_nat (getNumRows chunk) <= offset unit' - offset unit).
Proof.
  intros H. apply parseEntries_inv in H as (n & b & H & ->).
  pose proof (parse_rows_exit _ _ _ _ _ _ _ _ _ H) as (_ & Hn & _).
  specialize (Hn MAX_ROWS_positive).
  cbv zeta. unfold publish, chunk_nonempty. cbn [getNumRows].
  replace (n =? 0)%nat with false by (symmetry; apply Nat.eqb_neq; lia).
  cbn [negb]. split; [|split].
  - destruct (negb (eof unit')); reflexivity.
  - destruct (negb (eof unit')); reflexivity.
  - intros Ha H0 H64.
    pose proof (parse_rows_progress _ _ _ _ _ _ _ _ _ (offset unit) Ha H)
      as Hp.
    specialize (Hp ltac:(simpl; lia)).
    split; [|lia]. unfold to_UInt64. apply Z.mod_small. lia.
Qed.

Lemma every_chunk_is_delivered_witness :
  exists chunk unit',
    parseEntries (sample_context 5) all_columns sample_unit
      = Ok (chunk, unit') /\
    delivery_queue (publish chunk (offset sample_unit) unit' new_scheduler)
      = [(chunk, 25)] /\
    units_queue (publish chunk (offset sample_unit) unit' new_scheduler) = [].
Proof.
  eexists. eexists.
  match goal with
  | |- ?A /\ _ => assert (Hp : A) by (vm_compute; reflexivity)
  end.
  split; [exact Hp|].
  destruct (every_chunk_is_delivered _ _ _ _ _ new_scheduler Hp)
    as (Hd & _ & _).
  split; [exact Hd|reflexivity].
Defined.

(** ** The schema and the registry *)

(** X3.  The map from column names to indexes is the inverse of the
    header: the header has fifteen pairs, each with a type, the pair at the
    index of an enumerator has the name the map sends back to that index,
    and the map knows no other name.  So the fifteen names are distinct, and
    the loop of [parseEntries] over the names of a header finds the index of
    each of its columns and never throws. *)
Theorem column_names_and_indexes :
  length getHeaderForDWARF = COL_COUNT /\
  (forall c,
      exists name type,
        nth_error getHeaderForDWARF (column_index c) = Some (name, Some type)
        /\ at_ getColumnNameToIdx name = Some (column_index c)) /\
  (forall name idx,
      at_ getColumnNameToIdx name = Some idx ->
      exists c type,
        column_index c = idx /\
        nth_error getHeaderForDWARF idx = Some (name, Some type)) /\
  (forall header : list DwarfColumn,
      need_of_names (map column_name header)
      = Some (map column_index header)).
Proof.
  split; [reflexivity|]. split; [|split].
  - intros c. destruct c; eexists; eexists; split; reflexivity.
  - intros name idx H.
    assert (Hm : getColumnNameToIdx =
                 [("offset", 0); ("size", 1); ("tag", 2); ("unit_name", 3);
                  ("unit_offset", 4); ("ancestor_tags", 5);
                  ("ancestor_offsets", 6); ("name", 7); ("linkage_name", 8);
                  ("decl_file", 9); ("decl_line", 10); ("attr_name", 11);
                  ("attr_form", 12); ("attr_int", 13);
                  ("attr_str", 14)]%string%nat) by reflexivity.
    rewrite Hm in H. clear Hm. cbn [at_] in H.
    repeat match type of H with
           | (if String.eqb name ?k then _ else _) = _ =>
               destruct (String.eqb_spec name k) as [->|_]
           end; try discriminate H; inv H.
    + exists COL_OFFSET. eexists. split; reflexivity.
    + exists COL_SIZE. eexists. split; reflexivity.
    + exists COL_TAG. eexists. split; reflexivity.
    + exists COL_UNIT_NAME. eexists. split; reflexivity.
    + exists COL_UNIT_OFFSET. eexists. split; reflexivity.
    + exists COL_ANCESTOR_TAGS. eexists. split; reflexivity.
    + exists COL_ANCESTOR_OFFSETS. eexists. split; reflexivity.
    + exists COL_NAME. eexists. split; reflexivity.
    + exists COL_LINKAGE_NAME. eexists. split; reflexivity.
    + exists COL_DECL_FILE. eexists. split; reflexivity.
    + exists COL_DECL_LINE. eexists. split; reflexivity.
    + exists COL_ATTR_NAME. eexists. split; reflexivity.
    + exists COL_ATTR_FORM. eexists. split; reflexivity.
    + exists COL_ATTR_INT. eexists. split; reflexivity.
    + exists COL_ATTR_STR. eexists. split; reflexivity.
  - intros header. induction header as [|c header IH]; [reflexivity|].
    cbn [map need_of_names]. rewrite IH. destruct c; reflexivity.
Qed.

(** X2.  Each registry dictionary has an entry for every 16-bit code, at
    the index that is the code, and the entry is the name LLVM gives the
    code without its prefix: a tag, attribute or form code stored in a
    column is a valid index of its dictionary.  A code for which LLVM
    returns the empty string reads as the empty string; index 0 is not set
    aside for it, the entry at 0 is what LLVM names code 0. *)
Theorem registry_has_every_code name_of prefix_len code :
  0 <= code <= UINT16_MAX ->
  Z.of_nat (length (registry_names name_of prefix_len)) = UINT16_MAX + 1 /\
  nth_error (registry_names name_of prefix_len) (Z.to_nat code)
    = Some (removePrefix (name_of code) prefix_len) /\
  (name_of code = EmptyString ->
   nth_error (registry_names name_of prefix_len) (Z.to_nat code)
     = Some EmptyString).
Proof.
  intros Hc. unfold registry_names.
  assert (He : nth_error
                 (map (fun code => removePrefix (name_of (Z.of_nat code))
                                     prefix_len)
                    (seq 0 (S (Z.to_nat UINT16_MAX)))) (Z.to_nat code)
               = Some (removePrefix (name_of code) prefix_len)).
  { rewrite nth_error_map.
    rewrite nth_error_seq.
    replace (Z.to_nat code <? S (Z.to_nat UINT16_MAX))%nat with true
      by (symmetry; apply Nat.ltb_lt; unfold UINT16_MAX in *; lia).
    simpl. rewrite Z2Nat.id by lia. reflexivity. }
  split; [rewrite length_map, length_seq; unfold UINT16_MAX; lia|].
  split; [exact He|].
  intros Hs. rewrite He, Hs. destruct prefix_len; reflexivity.
Qed.

(** With that table the entry at index 0 is [null], the entry at 0x11 is
    [compile_unit], and the entry of a code without a name is empty. *)
Lemma registry_has_every_code_witness :
  nth_error (registry_names sample_TagString 7) 0 = Some "null"%string /\
  nth_error (registry_names sample_TagString 7) 17
    = Some "compile_unit"%string /\
  nth_error (registry_names sample_TagString 7) 18 = Some EmptyString.
Proof.
  split; [|split].
  - exact (proj1 (proj2 (registry_has_every_code sample_TagString 7 0
                           ltac:(unfold UINT16_MAX; lia)))).
  - exact (proj1 (proj2 (registry_has_every_code sample_TagString 7 17
                           ltac:(unfold UINT16_MAX; lia)))).
  - exact (proj2 (proj2 (registry_has_every_code sample_TagString 7 18
                           ltac:(unfold UINT16_MAX; lia))) eq_refl).
Defined.

(** ** The attributes of a row *)

Lemma parseDIE_attributes ctx need die_offset code unit b unit' b' :
  parseDIE ctx need die_offset code unit b = Ok (unit', b') ->
  exists abbrev,
    abbrevs unit (to_UInt32 code) = Some abbrev /\ code <= UINT32_MAX /\
    col_tag b' =
      (if need COL_TAG then getTag abbrev :: col_tag b else col_tag b) /\
    col_attr_name b' =
      (if need COL_ATTR_NAME
       then rev (map Attr (attributes abbrev)) ++ col_attr_name b
       else col_attr_name b) /\
    col_attr_form b' =
      (if need COL_ATTR_FORM
       then rev (map (fun a => form_code (Form_ a)) (attributes abbrev))
            ++ col_attr_form b
       else col_attr_form b).
Proof.
  unfold parseDIE. intros H.
  destruct (abbrevs unit (to_UInt32 code)) as [abbrev|]; [|discriminate].
  destruct (code >? UINT32_MAX) eqn:Eg; [discriminate|].
  exists abbrev. split; [reflexivity|]. split; [lia|].
  apply bind_Ok in H as ([[unit1 b1] p1] & H1 & H2).
  pose proof (parseAttributes_pending _ _ _ _ _ _ _ _ _ _ H1) as (T & _).
  apply parseAttributes_effect in H1 as (_ & _ & N & F & _).
  assert (T0 : col_tag b1 =
               if need COL_TAG then getTag abbrev :: col_tag b
               else col_tag b)
    by (rewrite T; destruct (need COL_TAG); reflexivity).
  assert (N0 : col_attr_name b1 =
               if need COL_ATTR_NAME
               then rev (map Attr (attributes abbrev)) ++ col_attr_name b
               else col_attr_name b)
    by (rewrite N; destruct (need COL_TAG); reflexivity).
  assert (F0 : col_attr_form b1 =
               if need COL_ATTR_FORM
               then rev (map (fun a => form_code (Form_ a))
                           (attributes abbrev)) ++ col_attr_form b
               else col_attr_form b)
    by (rewrite F; destruct (need COL_TAG); reflexivity).
  clear T N F. inv H2. rewrite <- T0, <- N0, <- F0.
  destruct p1 as [pn pl pf pd].
  cbn [need_name need_linkage_name need_decl_file need_decl_line].
  destruct (need COL_SIZE), (need COL_ATTR_NAME), pn, pl, pf, pd;
    repeat split; reflexivity.
Qed.

Lemma in_row_order_app {A : Type} (new old : list A) :
  in_row_order (rev new ++ old) = in_row_order old ++ new.
Proof.
  rewrite !in_row_order_rev, rev_app_distr, rev_involutive. reflexivity.
Qed.

(** X24.  The row of a DIE has the tag of its abbreviation in the [tag]
    column and, in the [attr_name] and [attr_form] arrays, the attribute
    codes and the declared form codes of the abbreviation, one entry per
    attribute in the order of the abbreviation; the row's entry in the
    offsets of the attribute arrays is the number of attribute values
    written so far. *)
Theorem attributes_of_a_row ctx need unit b unit' b' code off :
  getULEB128 ctx (offset unit) = Some (code, off) -> code <> 0 ->
  parseEntry ctx need unit b = Ok (unit', b') ->
  exists abbrev,
    abbrevs unit (to_UInt32 code) = Some abbrev /\ code <= UINT32_MAX /\
    in_row_order (col_tag b') =
      in_row_order (col_tag b)
      ++ (if need COL_TAG then [getTag abbrev] else []) /\
    in_row_order (col_attr_name b') =
      in_row_order (col_attr_name b)
      ++ (if need COL_ATTR_NAME then map Attr (attributes abbrev) else []) /\
    in_row_order (col_attr_form b') =
      in_row_order (col_attr_form b)
      ++ (if need COL_ATTR_FORM
          then map (fun a => form_code (Form_ a)) (attributes abbrev)
          else []) /\
    in_row_order (col_attr_offsets b') =
      in_row_order (col_attr_offsets b)
      ++ (if need COL_ATTR_NAME
          then [Z.of_nat (length (col_attr_name b'))] else []).
Proof.
  intros Hl Hc H.
  pose proof (parseEntry_arrays _ _ _ _ _ _ H) as (m & _ & _ & _ & _ & Ho & _).
  apply parseEntry_inv in H as (code' & off' & Hl' & [[E _]|[_ H]]);
    rewrite Hl in Hl'; inv Hl'; [contradiction|].
  apply parseDIE_attributes in H as (abbrev & Ha & Hb & T & N & F).
  destruct (row_head_frame need unit b) as (T1 & _).
  destruct (row_head_effect need unit b) as (_ & _ & _ & N1 & F1 & _).
  rewrite T1 in T. rewrite N1 in N. rewrite F1 in F.
  exists abbrev. split; [exact Ha|]. split; [exact Hb|].
  rewrite Ho, T, N, F. repeat split.
  - destruct (need COL_TAG);
      [exact (in_row_order_app [getTag abbrev] (col_tag b))
      |rewrite app_nil_r; reflexivity].
  - destruct (need COL_ATTR_NAME);
      [apply in_row_order_app|rewrite app_nil_r; reflexivity].
  - destruct (need COL_ATTR_FORM);
      [apply in_row_order_app|rewrite app_nil_r; reflexivity].
  - destruct (need COL_ATTR_NAME);
      [|rewrite app_nil_r; reflexivity].
    exact (in_row_order_app [_] (col_attr_offsets b)).
Qed.

Lemma attributes_of_a_row_witness :
  exists unit' b',
    parseEntry (sample_context 5) (need_of_header all_columns) sample_unit
      empty_builders = Ok (unit', b') /\
    in_row_order (col_tag b') = [DW_TAG_compile_unit] /\
    in_row_order (col_attr_name b')
      = [DW_AT_name; DW_AT_stmt_list; DW_AT_language] /\
    in_row_order (col_attr_form b') = [0x08; 0x17; 0x05].
Proof.
  eexists. eexists.
  match goal with
  | |- ?A /\ _ => assert (Hp : A) by (vm_compute; reflexivity)
  end.
  split; [exact Hp|].
  destruct (attributes_of_a_row (sample_context 5)
              (need_of_header all_columns) sample_unit empty_builders _ _
              1 0x100c eq_refl ltac:(discriminate) Hp)
    as (abbrev & Ha & _ & T & N & F & _).
  vm_compute in Ha. inv Ha.
  split; [exact T|]. split; [exact N|exact F].
Defined.

(** X25.  The string of an attribute by the class of its form: empty for
    addresses, references and forms the decoder does not know; the bytes of
    the block for block forms; the C string for string forms, where a value
    LLVM cannot read is an exception and no row. *)
Theorem attr_str_by_form_class ctx need tag attr unit b p val off unit' b' p' :
  extractValue ctx (dwarf_unit unit) (Form_ attr)
    (if isImplicitConst attr then getImplicitConstValue attr else 0)
    (offset unit) = Some (val, off) ->
  need COL_ATTR_STR = true ->
  parseAttribute ctx need tag attr (unit, b, p) = Ok (unit', b', p') ->
  match form_group (getForm val) with
  | AddressForm | ReferenceForm | DefaultForm =>
      col_attr_str b' = EmptyString :: col_attr_str b
  | BlockForm =>
      col_attr_str b' =
        string_of_list_byte (match getAsBlock val with
                             | Some bytes => bytes
                             | None => []
                             end) :: col_attr_str b
  | StringForm =>
      exists res,
        getAsCString val = Some res /\
        col_attr_str b' = res :: col_attr_str b
  | IntegerForm => exists s, col_attr_str b' = s :: col_attr_str b
  end.
Proof.
  intros He Hn H. unfold parseAttribute in H. rewrite He in H.
  apply bind_Ok in H as (unit1 & _ & H).
  set (b0 := if need COL_ATTR_FORM
             then push_attr_form (form_code (Form_ attr))
                    (if need COL_ATTR_NAME then push_attr_name (Attr attr) b
                     else b)
             else if need COL_ATTR_NAME then push_attr_name (Attr attr) b
                  else b) in H.
  assert (E0 : col_attr_str b0 = col_attr_str b)
    by (subst b0; destruct (need COL_ATTR_FORM), (need COL_ATTR_NAME);
        reflexivity).
  clearbody b0. rewrite <- E0. clear E0.
  unfold project_value in H. destruct (form_group (getForm val)) eqn:Eg.
  - unfold project_integer in H. rewrite Hn in H.
    cases_in H; inv H;
      repeat match goal with
             | E : (_, _) = (_, _) |- _ => inv E
             end; eexists; reflexivity.
  - unfold project_address in H. rewrite Hn in H. inv H.
    destruct (need COL_ATTR_INT); reflexivity.
  - unfold project_block in H. rewrite Hn in H. inv H.
    destruct (need COL_ATTR_INT); reflexivity.
  - unfold project_string in H. rewrite Hn in H.
    destruct (getAsCString val) as [res|]; [|discriminate].
    exists res. split; [reflexivity|].
    cases_in H; inv H;
      repeat match goal with
             | E : (_, _, _) = (_, _, _) |- _ => inv E
             | E : (_, _) = (_, _) |- _ => inv E
             end; reflexivity.
  - unfold project_reference in H. rewrite Hn in H. inv H.
    destruct (need COL_ATTR_INT); reflexivity.
  - unfold project_default in H. rewrite Hn in H. inv H.
    destruct (need COL_ATTR_INT); reflexivity.
Qed.

Lemma attr_str_by_form_class_witness :
  exists unit' b' p',
    parseAttribute
      (table_context []
         [(0, (mkFormValue DW_FORM_block1 0 None None
                 (Some [Byte.x41; Byte.x42]) None, 3))] [])
      (need_of_header all_columns) 0x34 (attribute 0x02 DW_FORM_block1)
      (set_offset 0 sample_unit, empty_builders,
       mkPending true true true true) = Ok (unit', b', p') /\
    col_attr_str b' = ["AB"%string].
Proof.
  eexists. eexists. eexists.
  match goal with
  | |- ?A /\ _ => assert (Hp : A) by (vm_compute; reflexivity)
  end.
  split; [exact Hp|].
  exact (attr_str_by_form_class
           (table_context []
              [(0, (mkFormValue DW_FORM_block1 0 None None
                      (Some [Byte.x41; Byte.x42]) None, 3))] [])
           (need_of_header all_columns) 0x34 (attribute 0x02 DW_FORM_block1)
           (set_offset 0 sample_unit) empty_builders
           (mkPending true true true true)
           (mkFormValue DW_FORM_block1 0 None None
              (Some [Byte.x41; Byte.x42]) None) 3 _ _ _
           eq_refl eq_refl Hp).
Defined.

(** ** A worker that fails *)

Lemma worker_step_throw fmt w s unit e :
  w = Decoding unit ->
  parseEntries (dwarf_context (in_ fmt)) (header fmt) unit = Throw e ->
  worker_step fmt w s = Some (Exited, set_background_exception (Some e) s).
Proof.
  intros Hw Ht. unfold worker_step.
  destruct w as [|unit0| |]; try discriminate Hw.
  injection Hw as ->. rewrite Ht. reflexivity.
Qed.

(** X26.  A worker whose [parseEntries] throws stores the exception in
    [background_exception], over whatever another worker stored before,
    and leaves its function: it delivers no chunk, does not return its unit
    to the queue, and does not decrement [units_in_progress], which from
    then on counts one more than the threads that hold a unit. *)
Theorem worker_failure fmt i unit e s s' :
  nth_error (pool s) i = Some (Decoding unit) ->
  parseEntries (dwarf_context (in_ fmt)) (header fmt) unit = Throw e ->
  exec fmt (WorkerTurn i) s = Some s' ->
  background_exception s' = Some e /\
  nth_error (pool s') i = Some Exited /\
  units_in_progress s' = units_in_progress s /\
  units_queue s' = units_queue s /\
  delivery_queue s' = delivery_queue s /\
  (count_decoding (pool s') + 1 = count_decoding (pool s))%nat.
Proof.
  intros Hn Ht H. cbn [exec] in H. rewrite Hn in H.
  rewrite (worker_step_throw fmt _ s unit e eq_refl Ht) in H.
  injection H as <-.
  cbn [pool background_exception units_in_progress units_queue
       delivery_queue set_pool set_background_exception].
  repeat split.
  - apply nth_error_replace_nth. apply nth_error_Some. congruence.
  - pose proof (count_decoding_replace (pool s) i _ Exited Hn) as Hc.
    simpl in Hc. lia.
Qed.

Lemma worker_failure_witness :
  exists s s',
    run two_faulty_units
      [ConsumerTurn; WorkerTurn 0; WorkerTurn 1; WorkerTurn 0] new_scheduler
      = Some s /\
    background_exception s
      = Some (CANNOT_PARSE_DWARF
                "Abbrev code in DIE header is out of bounds") /\
    exec two_faulty_units (WorkerTurn 1) s = Some s' /\
    background_exception s'
      = Some (CANNOT_PARSE_DWARF "Failed to parse DIE header") /\
    units_in_progress s' = 2 /\
    count_decoding (pool s') = 0%nat.
Proof.
  eexists. eexists.
  match goal with
  | |- ?A /\ _ => assert (Hr : A) by (vm_compute; reflexivity)
  end.
  split; [exact Hr|]. split; [reflexivity|].
  match goal with
  | |- ?A /\ _ => assert (Hx : A) by (vm_compute; reflexivity)
  end.
  split; [exact Hx|].
  assert (Ht : parseEntries (dwarf_context (in_ two_faulty_units))
                 (header two_faulty_units)
                 (mkUnitState
                    (mkDWARFUnit 100 11 112 (Some bare_abbrevs) None)
                    bare_abbrevs 112 111 [] EmptyString None 0)
               = Throw (CANNOT_PARSE_DWARF "Failed to parse DIE header"))
    by (vm_compute; reflexivity).
  pose proof (fun Hn =>
                worker_failure two_faulty_units 1 _ _ _ _ Hn Ht Hx) as Hw.
  destruct (Hw eq_refl) as (He & _ & Hu & _).
  split; [exact He|]. split; reflexivity.
Defined.

(** X27.  While no worker has failed, [units_in_progress] is the number
    of threads that hold a unit, in every state the format can reach; it is
    never negative and never more than [num_threads]. *)
Theorem units_in_progress_counts fmt s :
  reachable fmt s ->
  background_exception s = None ->
  units_in_progress s = Z.of_nat (count_decoding (pool s)) /\
  0 <= units_in_progress s <= Z.of_nat (num_threads fmt).
Proof.
  intros [trace Hr] Hb.
  pose proof (progress_inv_run fmt trace _ _ (scheduler_inv_new fmt)
                (fun _ => eq_refl) Hr) as Hp.
  pose proof (scheduler_inv_run fmt trace _ _ (scheduler_inv_new fmt) Hr)
    as (_ & Hl & _).
  specialize (Hp Hb). split; [exact Hp|].
  pose proof (count_decoding_le (pool s)). lia.
Qed.

Lemma units_in_progress_counts_witness :
  exists s,
    reachable four_units s /\
    background_exception s = None /\
    count_decoding (pool s) = 2%nat /\
    units_in_progress s = 2.
Proof.
  eexists.
  match goal with
  | |- ?A /\ _ =>
      assert (Hr : A)
        by (exists [ConsumerTurn; WorkerTurn 0; WorkerTurn 1];
            vm_compute; reflexivity)
  end.
  split; [exact Hr|]. split; [reflexivity|]. split; [reflexivity|].
  exact (proj1 (units_in_progress_counts _ _ Hr eq_refl)).
Defined.
